(** * extractDemHeight: elevation lookup in a geocoded 16-bit raster

    A shallow embedding of [src/extractDemHeight.c] and the properties
    its specification states about it.

    - [Fp]      IEEE 754 values as the C code computes with them
                ([float] for the parsed coordinates, [double] for the
                bounding box), on the Standard Library's [spec_float].
    - [Machine] the memory, the libtiff calls and the output channels
                the program acts on, as an explicit state with a small
                monad for early [exit] and undefined behaviour.
    - [Dem]     the functions of the translation unit.
    - [Timing]  the stage timers.
    - the theorems, one module per group of properties. *)

From Stdlib Require Import ZArith QArith Qround Qpower Lia Lqa SpecFloat.
From stdpp Require Import gmap list strings.
From stdpp Require Import pretty.

#[local] Open Scope Z_scope.

(* ===================================================================== *)
(** * Floating point *)
(* ===================================================================== *)

Module Fp.

(** [float] is IEEE binary32 and [double] IEEE binary64. *)
Definition is_float (x : spec_float) : Prop := valid_binary 24 128 x = true.
Definition is_double (x : spec_float) : Prop := valid_binary 53 1024 x = true.

(** The usual arithmetic conversions turn a [float] operand into a
    [double]; no binary32 value is changed by that. *)
Definition double_of_float (x : spec_float) : spec_float :=
  match x with
  | S754_finite s m e => binary_round 53 1024 s m e
  | _ => x
  end.

(** [(double) n] for an integer [n], and the same for [float]. *)
Definition double_of_Z (z : Z) : spec_float := binary_normalize 53 1024 z 0 false.
Definition float_of_Z (z : Z) : spec_float := binary_normalize 24 128 z 0 false.

(** A decimal constant [num/den] of the source text denotes the nearest
    [double]; [num] and [den] are taken below [2^53], so the correctly
    rounded quotient of the two is that value. *)
Definition double_lit (num den : Z) : spec_float :=
  SFdiv 53 1024 (double_of_Z num) (double_of_Z den).

Definition dadd : spec_float -> spec_float -> spec_float := SFadd 53 1024.
Definition dsub : spec_float -> spec_float -> spec_float := SFsub 53 1024.
Definition ddiv : spec_float -> spec_float -> spec_float := SFdiv 53 1024.
Definition dneg : spec_float -> spec_float := SFopp.
(** [x < y] and [x > y] on doubles; false as soon as one side is a NaN. *)
Definition dlt (x y : spec_float) : bool := SFltb x y.
Definition dgt (x y : spec_float) : bool := SFltb y x.

Definition INT_MIN : Z := - 2 ^ 31.
Definition INT_MAX : Z := 2 ^ 31 - 1.

(** [(int) x]: the fractional part is discarded; the conversion is
    undefined ([None]) when the integral part does not fit an [int], and
    for infinities and NaNs. *)
Definition int_of_double (x : spec_float) : option Z :=
  match x with
  | S754_zero _ => Some 0
  | S754_finite s m e =>
      let t := cond_Zopp s (Z.shiftl (Zpos m) e) in
      if (INT_MIN <=? t) && (t <=? INT_MAX) then Some t else None
  | _ => None
  end.

(** ** The numbers the bit patterns stand for *)

Definition Qpow2 (e : Z) : Q := (2 ^ e)%Q.

(** The rational a finite value denotes (zero for the others). *)
Definition SF2Q (x : spec_float) : Q :=
  match x with
  | S754_finite s m e => (inject_Z (cond_Zopp s (Zpos m)) * Qpow2 e)%Q
  | _ => 0%Q
  end.

(** Values with the infinities and NaN kept apart, and their order:
    a NaN is neither below nor above anything. *)
Inductive xreal : Type :=
  | Xnan
  | Xinf (negative : bool)
  | Xfin (q : Q).

Definition SF2X (x : spec_float) : xreal :=
  match x with
  | S754_nan => Xnan
  | S754_infinity s => Xinf s
  | _ => Xfin (SF2Q x)
  end.

Definition xlt (a b : xreal) : Prop :=
  match a, b with
  | Xfin p, Xfin q => (p < q)%Q
  | Xinf true, Xfin _ | Xfin _, Xinf false | Xinf true, Xinf false => True
  | _, _ => False
  end.

(** The same value, up to the representation of the rational. *)
Definition xeq (a b : xreal) : Prop :=
  match a, b with
  | Xnan, Xnan => True
  | Xinf s, Xinf t => s = t
  | Xfin p, Xfin q => (p == q)%Q
  | _, _ => False
  end.

Definition is_finite (x : spec_float) : bool :=
  match x with
  | S754_zero _ | S754_finite _ _ _ => true
  | _ => false
  end.

(** Truncation toward zero of a rational. *)
Definition Qtrunc (q : Q) : Z := Z.quot (Qnum q) (Zpos (Qden q)).

End Fp.

(* ===================================================================== *)
(** * The machine the program runs on *)
(* ===================================================================== *)

Module Machine.

(** ** Pointers and heap blocks *)

Inductive ptr : Type :=
  | NULL
  | Ptr (b : nat).

Definition is_null (p : ptr) : bool :=
  match p with NULL => true | Ptr _ => false end.

(** A block obtained from [malloc]: its size in bytes, the pointer slots
    that have been stored into it and the 16-bit samples a scanline read
    has put there.  A slot or sample that was never written is absent. *)
Record block : Type := {
  bsize : Z;
  bptrs : gmap nat ptr;
  bsamples : list Z
}.

Definition fresh_block (n : Z) : block :=
  {| bsize := n; bptrs := ∅; bsamples := [] |}.

(** ** The raster file as libtiff presents it

    A tag is [None] when the file does not carry it; [scanline r] is the
    decoded row [r], or [None] when reading that row fails. *)
Record TiffFile : Type := {
  SAMPLESPERPIXEL : option Z;
  BITSPERSAMPLE : option Z;
  IMAGEWIDTH : option Z;
  IMAGELENGTH : option Z;
  GTIFF_PIXELSCALE : option (list spec_float);
  GTIFF_TIEPOINTS : option (list spec_float);
  scanline : Z -> option (list Z)
}.

(** ** The session record

    Modelled from the spec: the header [extractDemHeight.h], which
    declares the [Gtif] structure, [verbose], [jpgWidth] and [jpgHeight],
    is not among the sources.  The fields are those the code names; the
    specification gives their roles (section 3, RasterSession and
    BoundingBox).  Width and height are the 32-bit unsigned values
    libtiff stores for these tags, the sample counts 16-bit unsigned, the
    corner coordinates and scales [double], the buffer geometry and the
    buffered line [int]. *)
Record Gtif : Type := {
  tif : ptr;
  samplesPerPixel : Z;
  bitsPerSample : Z;
  width : Z;
  height : Z;
  scaleX : spec_float;
  scaleY : spec_float;
  pixelSize : list spec_float;
  tiePoints : list spec_float;
  UL : spec_float * spec_float * spec_float;
  LL : spec_float * spec_float * spec_float;
  UR : spec_float * spec_float * spec_float;
  LR : spec_float * spec_float * spec_float;
  windowSize : Z;
  scanlineSize : Z;
  byteOrder : Z;
  lineNo : Z;
  scanlines : ptr
}.

(** [c[0]] and [c[1]] of a corner. *)
Definition c0 (c : spec_float * spec_float * spec_float) : spec_float := fst (fst c).
Definition c1 (c : spec_float * spec_float * spec_float) : spec_float := snd (fst c).

Definition set_tif v g := {| tif := v; samplesPerPixel := samplesPerPixel g; bitsPerSample := bitsPerSample g; width := width g; height := height g; scaleX := scaleX g; scaleY := scaleY g; pixelSize := pixelSize g; tiePoints := tiePoints g; UL := UL g; LL := LL g; UR := UR g; LR := LR g; windowSize := windowSize g; scanlineSize := scanlineSize g; byteOrder := byteOrder g; lineNo := lineNo g; scanlines := scanlines g |}.
Definition set_samplesPerPixel v g := {| tif := tif g; samplesPerPixel := v; bitsPerSample := bitsPerSample g; width := width g; height := height g; scaleX := scaleX g; scaleY := scaleY g; pixelSize := pixelSize g; tiePoints := tiePoints g; UL := UL g; LL := LL g; UR := UR g; LR := LR g; windowSize := windowSize g; scanlineSize := scanlineSize g; byteOrder := byteOrder g; lineNo := lineNo g; scanlines := scanlines g |}.
Definition set_bitsPerSample v g := {| tif := tif g; samplesPerPixel := samplesPerPixel g; bitsPerSample := v; width := width g; height := height g; scaleX := scaleX g; scaleY := scaleY g; pixelSize := pixelSize g; tiePoints := tiePoints g; UL := UL g; LL := LL g; UR := UR g; LR := LR g; windowSize := windowSize g; scanlineSize := scanlineSize g; byteOrder := byteOrder g; lineNo := lineNo g; scanlines := scanlines g |}.
Definition set_width v g := {| tif := tif g; samplesPerPixel := samplesPerPixel g; bitsPerSample := bitsPerSample g; width := v; height := height g; scaleX := scaleX g; scaleY := scaleY g; pixelSize := pixelSize g; tiePoints := tiePoints g; UL := UL g; LL := LL g; UR := UR g; LR := LR g; windowSize := windowSize g; scanlineSize := scanlineSize g; byteOrder := byteOrder g; lineNo := lineNo g; scanlines := scanlines g |}.
Definition set_height v g := {| tif := tif g; samplesPerPixel := samplesPerPixel g; bitsPerSample := bitsPerSample g; width := width g; height := v; scaleX := scaleX g; scaleY := scaleY g; pixelSize := pixelSize g; tiePoints := tiePoints g; UL := UL g; LL := LL g; UR := UR g; LR := LR g; windowSize := windowSize g; scanlineSize := scanlineSize g; byteOrder := byteOrder g; lineNo := lineNo g; scanlines := scanlines g |}.
Definition set_scaleX v g := {| tif := tif g; samplesPerPixel := samplesPerPixel g; bitsPerSample := bitsPerSample g; width := width g; height := height g; scaleX := v; scaleY := scaleY g; pixelSize := pixelSize g; tiePoints := tiePoints g; UL := UL g; LL := LL g; UR := UR g; LR := LR g; windowSize := windowSize g; scanlineSize := scanlineSize g; byteOrder := byteOrder g; lineNo := lineNo g; scanlines := scanlines g |}.
Definition set_scaleY v g := {| tif := tif g; samplesPerPixel := samplesPerPixel g; bitsPerSample := bitsPerSample g; width := width g; height := height g; scaleX := scaleX g; scaleY := v; pixelSize := pixelSize g; tiePoints := tiePoints g; UL := UL g; LL := LL g; UR := UR g; LR := LR g; windowSize := windowSize g; scanlineSize := scanlineSize g; byteOrder := byteOrder g; lineNo := lineNo g; scanlines := scanlines g |}.
Definition set_pixelSize v g := {| tif := tif g; samplesPerPixel := samplesPerPixel g; bitsPerSample := bitsPerSample g; width := width g; height := height g; scaleX := scaleX g; scaleY := scaleY g; pixelSize := v; tiePoints := tiePoints g; UL := UL g; LL := LL g; UR := UR g; LR := LR g; windowSize := windowSize g; scanlineSize := scanlineSize g; byteOrder := byteOrder g; lineNo := lineNo g; scanlines := scanlines g |}.
Definition set_tiePoints v g := {| tif := tif g; samplesPerPixel := samplesPerPixel g; bitsPerSample := bitsPerSample g; width := width g; height := height g; scaleX := scaleX g; scaleY := scaleY g; pixelSize := pixelSize g; tiePoints := v; UL := UL g; LL := LL g; UR := UR g; LR := LR g; windowSize := windowSize g; scanlineSize := scanlineSize g; byteOrder := byteOrder g; lineNo := lineNo g; scanlines := scanlines g |}.
Definition set_UL v g := {| tif := tif g; samplesPerPixel := samplesPerPixel g; bitsPerSample := bitsPerSample g; width := width g; height := height g; scaleX := scaleX g; scaleY := scaleY g; pixelSize := pixelSize g; tiePoints := tiePoints g; UL := v; LL := LL g; UR := UR g; LR := LR g; windowSize := windowSize g; scanlineSize := scanlineSize g; byteOrder := byteOrder g; lineNo := lineNo g; scanlines := scanlines g |}.
Definition set_LL v g := {| tif := tif g; samplesPerPixel := samplesPerPixel g; bitsPerSample := bitsPerSample g; width := width g; height := height g; scaleX := scaleX g; scaleY := scaleY g; pixelSize := pixelSize g; tiePoints := tiePoints g; UL := UL g; LL := v; UR := UR g; LR := LR g; windowSize := windowSize g; scanlineSize := scanlineSize g; byteOrder := byteOrder g; lineNo := lineNo g; scanlines := scanlines g |}.
Definition set_UR v g := {| tif := tif g; samplesPerPixel := samplesPerPixel g; bitsPerSample := bitsPerSample g; width := width g; height := height g; scaleX := scaleX g; scaleY := scaleY g; pixelSize := pixelSize g; tiePoints := tiePoints g; UL := UL g; LL := LL g; UR := v; LR := LR g; windowSize := windowSize g; scanlineSize := scanlineSize g; byteOrder := byteOrder g; lineNo := lineNo g; scanlines := scanlines g |}.
Definition set_LR v g := {| tif := tif g; samplesPerPixel := samplesPerPixel g; bitsPerSample := bitsPerSample g; width := width g; height := height g; scaleX := scaleX g; scaleY := scaleY g; pixelSize := pixelSize g; tiePoints := tiePoints g; UL := UL g; LL := LL g; UR := UR g; LR := v; windowSize := windowSize g; scanlineSize := scanlineSize g; byteOrder := byteOrder g; lineNo := lineNo g; scanlines := scanlines g |}.
Definition set_windowSize v g := {| tif := tif g; samplesPerPixel := samplesPerPixel g; bitsPerSample := bitsPerSample g; width := width g; height := height g; scaleX := scaleX g; scaleY := scaleY g; pixelSize := pixelSize g; tiePoints := tiePoints g; UL := UL g; LL := LL g; UR := UR g; LR := LR g; windowSize := v; scanlineSize := scanlineSize g; byteOrder := byteOrder g; lineNo := lineNo g; scanlines := scanlines g |}.
Definition set_scanlineSize v g := {| tif := tif g; samplesPerPixel := samplesPerPixel g; bitsPerSample := bitsPerSample g; width := width g; height := height g; scaleX := scaleX g; scaleY := scaleY g; pixelSize := pixelSize g; tiePoints := tiePoints g; UL := UL g; LL := LL g; UR := UR g; LR := LR g; windowSize := windowSize g; scanlineSize := v; byteOrder := byteOrder g; lineNo := lineNo g; scanlines := scanlines g |}.
Definition set_byteOrder v g := {| tif := tif g; samplesPerPixel := samplesPerPixel g; bitsPerSample := bitsPerSample g; width := width g; height := height g; scaleX := scaleX g; scaleY := scaleY g; pixelSize := pixelSize g; tiePoints := tiePoints g; UL := UL g; LL := LL g; UR := UR g; LR := LR g; windowSize := windowSize g; scanlineSize := scanlineSize g; byteOrder := v; lineNo := lineNo g; scanlines := scanlines g |}.
Definition set_lineNo v g := {| tif := tif g; samplesPerPixel := samplesPerPixel g; bitsPerSample := bitsPerSample g; width := width g; height := height g; scaleX := scaleX g; scaleY := scaleY g; pixelSize := pixelSize g; tiePoints := tiePoints g; UL := UL g; LL := LL g; UR := UR g; LR := LR g; windowSize := windowSize g; scanlineSize := scanlineSize g; byteOrder := byteOrder g; lineNo := v; scanlines := scanlines g |}.
Definition set_scanlines v g := {| tif := tif g; samplesPerPixel := samplesPerPixel g; bitsPerSample := bitsPerSample g; width := width g; height := height g; scaleX := scaleX g; scaleY := scaleY g; pixelSize := pixelSize g; tiePoints := tiePoints g; UL := UL g; LL := LL g; UR := UR g; LR := LR g; windowSize := windowSize g; scanlineSize := scanlineSize g; byteOrder := byteOrder g; lineNo := lineNo g; scanlines := v |}.

(** ** What the program prints *)

(** The lines written to [stderr], named after their text. *)
Inductive diagnostic : Type :=
  | CannotOpenFile (name : string)
  | CannotExtractBitsPerSample (name : string)
  | CannotExtractPixelSize
  | CannotExtractTiePoints
  | CannotAllocateScanline (nth : Z)
  | UnsupportedBitsPerSample (bits : Z)
  | LatOutOfRange (lat : spec_float)
  | LongOutOfRange (long : spec_float)
  | LineNoOutOfRange (line limit : Z)
  | PixelNoOutOfRange (pixel limit : Z)
  | FailedReadingScanline.

(** The lines written to [stdout]. *)
Inductive report : Type :=
  | ParamValuesFrom (name : string)
  | SamplesAndBits (samples bits : Z)
  | Dimensions (w h size : Z)
  | TotalCpuTime
  | DemValue (line pixel value : Z)
  | Usage.

Inductive event : Type :=
  | EvOpen (name : string) (result : ptr)
  | EvMalloc (size : Z) (result : ptr)
  | EvFree (b : nat)
  | EvReadScanline (h : nat) (row : Z) (ok : bool)
  | EvClose (h : nat)
  | EvStderr (d : diagnostic)
  | EvStdout (r : report).

(** ** State *)

Record state : Type := {
  files : string -> option TiffFile;  (** what [TIFFOpen] finds under a name *)
  mallocs : list bool;                (** whether the coming [malloc] calls succeed *)
  heap : gmap nat block;              (** live blocks *)
  tifs : gmap nat TiffFile;           (** open TIFF handles *)
  next : nat;                         (** the next block or handle to hand out *)
  DEM_Gtif : Gtif;                    (** the session record of [main] *)
  verbose : bool;
  trace : list event                  (** calls and output so far, oldest first *)
}.

Definition set_mallocs v s := {| files := files s; mallocs := v; heap := heap s; tifs := tifs s; next := next s; DEM_Gtif := DEM_Gtif s; verbose := verbose s; trace := trace s |}.
Definition set_heap v s := {| files := files s; mallocs := mallocs s; heap := v; tifs := tifs s; next := next s; DEM_Gtif := DEM_Gtif s; verbose := verbose s; trace := trace s |}.
Definition set_tifs v s := {| files := files s; mallocs := mallocs s; heap := heap s; tifs := v; next := next s; DEM_Gtif := DEM_Gtif s; verbose := verbose s; trace := trace s |}.
Definition set_next v s := {| files := files s; mallocs := mallocs s; heap := heap s; tifs := tifs s; next := v; DEM_Gtif := DEM_Gtif s; verbose := verbose s; trace := trace s |}.
Definition set_DEM_Gtif v s := {| files := files s; mallocs := mallocs s; heap := heap s; tifs := tifs s; next := next s; DEM_Gtif := v; verbose := verbose s; trace := trace s |}.
Definition set_verbose v s := {| files := files s; mallocs := mallocs s; heap := heap s; tifs := tifs s; next := next s; DEM_Gtif := DEM_Gtif s; verbose := v; trace := trace s |}.
Definition log (e : event) s := {| files := files s; mallocs := mallocs s; heap := heap s; tifs := tifs s; next := next s; DEM_Gtif := DEM_Gtif s; verbose := verbose s; trace := trace s ++ [e] |}.

(** ** Computations: a result, an [exit], or undefined behaviour *)

Inductive outcome (A : Type) : Type :=
  | Ret (a : A) (s : state)
  | Exit (status : Z) (s : state)
  | Undefined.
Arguments Ret {A} a s.
Arguments Exit {A} status s.
Arguments Undefined {A}.

Definition M (A : Type) : Type := state -> outcome A.

Definition ret {A} (a : A) : M A := fun s => Ret a s.
Definition bind {A B} (c : M A) (k : A -> M B) : M B :=
  fun s => match c s with
           | Ret a s' => k a s'
           | Exit n s' => Exit n s'
           | Undefined => Undefined
           end.
Definition exit {A} (status : Z) : M A := fun s => Exit status s.
Definition undefined {A} : M A := fun _ => Undefined.
Definition emit (e : event) : M unit := fun s => Ret tt (log e s).
Definition eprint (d : diagnostic) : M unit := emit (EvStderr d).
Definition print (r : report) : M unit := emit (EvStdout r).
Definition when (b : bool) (c : M unit) : M unit := if b then c else ret tt.

Notation "x <- c ;; k" := (bind c (fun x => k))
  (at level 100, c at next level, right associativity).
Notation "c ;;; k" := (bind c (fun _ => k))
  (at level 100, right associativity).

(** ** The C library *)

(** [malloc(n)], with [n] already converted to [size_t]: a request above
    [PTRDIFF_MAX] (what a negative [int] becomes) is refused, any other
    succeeds or not as the environment decides. *)
Definition granted (s : state) : bool :=
  match mallocs s with [] => true | b :: _ => b end.

Definition malloc (n : Z) : M ptr := fun s =>
  let s1 := set_mallocs (tail (mallocs s)) s in
  if (0 <=? n) && (n <? 2 ^ 63) && granted s then
    let b := next s in
    Ret (Ptr b)
        (log (EvMalloc n (Ptr b))
             (set_next (S b) (set_heap (<[b := fresh_block n]> (heap s)) s1)))
  else Ret NULL (log (EvMalloc n NULL) s1).

(** [free(p)]: nothing for a null pointer; releasing a block that is not
    live is undefined. *)
Definition free (p : ptr) : M unit := fun s =>
  match p with
  | NULL => Ret tt s
  | Ptr b =>
      match heap s !! b with
      | Some _ => Ret tt (log (EvFree b) (set_heap (delete b (heap s)) s))
      | None => Undefined
      end
  end.

Section Abi.
(** The size of a data pointer. *)
Variable sizeof_ptr : Z.

(** [p[i] = q] for [p] of type [uint16 **]. *)
Definition store_ptr (p : ptr) (i : Z) (q : ptr) : M unit := fun s =>
  match p with
  | NULL => Undefined
  | Ptr b =>
      match heap s !! b with
      | Some blk =>
          if (0 <=? i) && ((i + 1) * sizeof_ptr <=? bsize blk) then
            Ret tt (set_heap (<[b := {| bsize := bsize blk;
                                        bptrs := <[Z.to_nat i := q]> (bptrs blk);
                                        bsamples := bsamples blk |}]> (heap s)) s)
          else Undefined
      | None => Undefined
      end
  end.
End Abi.

(** [p[i]] for [p] of type [uint16 **]. *)
Definition load_ptr (p : ptr) (i : Z) : M ptr := fun s =>
  match p with
  | NULL => Undefined
  | Ptr b =>
      match heap s !! b with
      | Some blk =>
          if 0 <=? i then
            match bptrs blk !! Z.to_nat i with
            | Some q => Ret q s
            | None => Undefined
            end
          else Undefined
      | None => Undefined
      end
  end.

(** [p[i]] for [p] of type [uint16 *]. *)
Definition load_sample (p : ptr) (i : Z) : M Z := fun s =>
  match p with
  | NULL => Undefined
  | Ptr b =>
      match heap s !! b with
      | Some blk =>
          if 0 <=? i then
            match bsamples blk !! Z.to_nat i with
            | Some v => Ret v s
            | None => Undefined
            end
          else Undefined
      | None => Undefined
      end
  end.

(** ** libtiff *)

Definition TIFFOpen (name : string) : M ptr := fun s =>
  match files s name with
  | Some f =>
      let h := next s in
      Ret (Ptr h) (log (EvOpen name (Ptr h))
                       (set_next (S h) (set_tifs (<[h := f]> (tifs s)) s)))
  | None => Ret NULL (log (EvOpen name NULL) s)
  end.

(** [TIFFGetField(tif, tag, &v)]: the value when the file has the tag. *)
Definition TIFFGetField {A} (t : ptr) (tag : TiffFile -> option A) : M (option A) := fun s =>
  match t with
  | NULL => Undefined
  | Ptr h =>
      match tifs s !! h with
      | Some f => Ret (tag f) s
      | None => Undefined
      end
  end.

(** [TIFFReadScanline(tif, buf, row, 0)]: the decoded row is written to
    [buf], which has to hold it; the result is 1, or -1 on failure. *)
Definition TIFFReadScanline (t buf : ptr) (row : Z) : M Z := fun s =>
  match t, buf with
  | Ptr h, Ptr b =>
      match tifs s !! h, heap s !! b with
      | Some f, Some blk =>
          match scanline f row with
          | Some l =>
              if 2 * Z.of_nat (length l) <=? bsize blk then
                Ret 1 (log (EvReadScanline h row true)
                           (set_heap (<[b := {| bsize := bsize blk;
                                                bptrs := bptrs blk;
                                                bsamples := l |}]> (heap s)) s))
              else Undefined
          | None => Ret (-1) (log (EvReadScanline h row false) s)
          end
      | _, _ => Undefined
      end
  | _, _ => Undefined
  end.

Definition TIFFClose (t : ptr) : M unit := fun s =>
  match t with
  | NULL => Undefined
  | Ptr h =>
      match tifs s !! h with
      | Some _ => Ret tt (log (EvClose h) (set_tifs (delete h (tifs s)) s))
      | None => Undefined
      end
  end.

(** ** Pointers to the session record

    [main] has one [Gtif] object and passes its address around. *)
Inductive GtifPtr : Type :=
  | GtifNULL
  | AddrOf_DEM_Gtif.

Definition deref (g : GtifPtr) : M Gtif := fun s =>
  match g with
  | GtifNULL => Undefined
  | AddrOf_DEM_Gtif => Ret (DEM_Gtif s) s
  end.

Definition assign (g : GtifPtr) (f : Gtif -> Gtif) : M unit := fun s =>
  match g with
  | GtifNULL => Undefined
  | AddrOf_DEM_Gtif => Ret tt (set_DEM_Gtif (f (DEM_Gtif s)) s)
  end.

End Machine.

(* ===================================================================== *)
(** * The program *)
(* ===================================================================== *)

Module Dem.
Import Fp Machine.

Section Program.

(** The size of a data pointer on the target. *)
Variable sizeof_ptr : Z.

(** Modelled from the spec: [jpgWidth] and [jpgHeight] are declared in
    the absent header; the specification (section 4.2) calls them a fixed
    reference image size, so they are taken as two integers. *)
Variables jpgWidth jpgHeight : Z.

Definition LITTLE_ENDIAN : Z := 1234.

(** Conversions between the 32-bit integer types. *)
Definition to_uint32 (z : Z) : Z := z mod 2 ^ 32.
Definition to_int32 (z : Z) : Z :=
  let r := z mod 2 ^ 32 in if r <? 2 ^ 31 then r else r - 2 ^ 32.

(** [a * b] on [int]; overflow is undefined. *)
Definition int_mul (a b : Z) : option Z :=
  let p := a * b in
  if (INT_MIN <=? p) && (p <=? INT_MAX) then Some p else None.

(** ** [setupGtif] *)

(** Lines 168-169. *)
Definition normalizeBitsPerSample (g : Gtif) : Gtif :=
  if (8 <? bitsPerSample g) && (bitsPerSample g <=? 16)
  then set_bitsPerSample 16 g
  else g.

(** Lines 177-178. *)
Definition legacyScales (g : Gtif) : Gtif :=
  set_scaleY (ddiv (double_of_Z (height g)) (double_of_Z jpgHeight))
    (set_scaleX (ddiv (double_of_Z (width g)) (double_of_Z jpgWidth)) g).

(** Lines 187-190; [None] where [(int)(scaleY+1)] is undefined. *)
Definition bufferGeometry (g : Gtif) : option Gtif :=
  match int_of_double (dadd (scaleY g) (double_of_Z 1)) with
  | Some w =>
      Some (set_lineNo (-1)
             (set_byteOrder LITTLE_ENDIAN
               (set_scanlineSize (to_int32 (width g * (bitsPerSample g ÷ 8)))
                 (set_windowSize w g))))
  | None => None
  end.

(** Lines 202-210: the iterations [i, i+1, ...] of the loop, [n] of them. *)
Fixpoint allocScanlines (n : nat) (i : Z) (gtif : GtifPtr) : M unit :=
  match n with
  | O => ret tt
  | S n' =>
      g <- deref gtif ;;
      p <- malloc (scanlineSize g) ;;
      store_ptr sizeof_ptr (scanlines g) i p ;;;
      if is_null p
      then eprint (CannotAllocateScanline (i + 1)) ;;; exit 13
      else allocScanlines n' (i + 1) gtif
  end.

(** Lines 192-229: tie points, scanline buffers, sample depth, summary. *)
Definition setupBuffers (gtif : GtifPtr) (name : string) (t : ptr) : M bool :=
  tp <- TIFFGetField t GTIFF_TIEPOINTS ;;
  match tp with
  | None => eprint CannotExtractTiePoints ;;; exit 11
  | Some points =>
      assign gtif (set_tiePoints points) ;;;
      g <- deref gtif ;;
      match int_mul (scanlineSize g) (windowSize g) with
      | None => undefined
      | Some bytes =>
          pool <- malloc bytes ;;
          assign gtif (set_scanlines pool) ;;;
          allocScanlines (Z.to_nat (windowSize g)) 0 gtif ;;;
          g <- deref gtif ;;
          if negb (bitsPerSample g =? 16)
          then
            eprint (UnsupportedBitsPerSample (bitsPerSample g)) ;;;
            exit 11
          else
            v <- (fun s => Ret (verbose s) s) ;;
            when v
              (print (ParamValuesFrom name) ;;;
               print (SamplesAndBits (samplesPerPixel g) (bitsPerSample g)) ;;;
               print (Dimensions (width g) (height g) (scanlineSize g))) ;;;
            ret true
      end
  end.

Definition setupGtif (gtif : GtifPtr) (fileName : option string) : M bool :=
  match fileName with
  | None => ret false
  | Some name =>
      assign gtif (set_tif NULL) ;;;
      t <- TIFFOpen name ;;
      assign gtif (set_tif t) ;;;
      if is_null t
      then eprint (CannotOpenFile name) ;;; ret false
      else
        spp <- TIFFGetField t SAMPLESPERPIXEL ;;
        assign gtif (fun g => from_option (fun v => set_samplesPerPixel v g) g spp) ;;;
        bps <- TIFFGetField t BITSPERSAMPLE ;;
        match bps with
        | None => eprint (CannotExtractBitsPerSample name) ;;; ret false
        | Some b =>
            assign gtif (set_bitsPerSample b) ;;;
            assign gtif normalizeBitsPerSample ;;;
            w <- TIFFGetField t IMAGEWIDTH ;;
            assign gtif (fun g => from_option (fun v => set_width v g) g w) ;;;
            h <- TIFFGetField t IMAGELENGTH ;;
            assign gtif (fun g => from_option (fun v => set_height v g) g h) ;;;
            assign gtif legacyScales ;;;
            ps <- TIFFGetField t GTIFF_PIXELSCALE ;;
            match ps with
            | None => eprint CannotExtractPixelSize ;;; exit 11
            | Some scale =>
                assign gtif (set_pixelSize scale) ;;;
                g <- deref gtif ;;
                match bufferGeometry g with
                | None => undefined
                | Some g' =>
                    assign gtif (fun _ => g') ;;;
                    setupBuffers gtif name t
                end
            end
        end
  end.

(** ** [readDEMvalue] *)

Definition readDEMvalue (inGtif : GtifPtr) (LineNo PixelNo : Z) : M Z :=
  g <- deref inGtif ;;
  tmpBuf <- malloc (scanlineSize g) ;;
  r <- TIFFReadScanline (tif g) tmpBuf (to_uint32 LineNo) ;;
  if r <=? 0
  then eprint FailedReadingScanline ;;; exit 11
  else
    ElevValue <- load_sample tmpBuf PixelNo ;;
    free tmpBuf ;;;
    ret ElevValue.

(** ** [closeGtif] *)

(** Lines 239-243: the iterations [i, i+1, ...] of the loop, [n] of them. *)
Fixpoint freeScanlines (n : nat) (i : Z) (gtif : GtifPtr) : M unit :=
  match n with
  | O => ret tt
  | S n' =>
      g <- deref gtif ;;
      p <- load_ptr (scanlines g) i ;;
      when (negb (is_null p)) (free p) ;;;
      freeScanlines n' (i + 1) gtif
  end.

Definition closeGtif (gtif : GtifPtr) : M unit :=
  match gtif with
  | GtifNULL => ret tt
  | _ =>
      g <- deref gtif ;;
      freeScanlines (Z.to_nat (windowSize g)) 0 gtif ;;;
      free (scanlines g) ;;;
      when (negb (is_null (tif g))) (TIFFClose (tif g))
  end.

(** ** [usage] *)

Definition usage : M unit := print Usage ;;; exit 12.

(** ** [toTimeString] *)

(** [sprintf(buf, ...)] once the format has been expanded to [text]: the
    characters and the terminating null go to [buf], which has to hold
    them.  The blocks of this model keep no characters, so the text
    written is the result. *)
Definition sprintf (buf : ptr) (text : string) : M string := fun s =>
  match buf with
  | NULL => Undefined
  | Ptr b =>
      match heap s !! b with
      | Some blk =>
          if Z.of_nat (String.length text) + 1 <=? bsize blk then Ret text s else Undefined
      | None => Undefined
      end
  end.

(** Lines 309-331.  [duration] is a [long]; the three fields are [int]s.
    The result is the buffer together with the text it holds. *)
Definition toTimeString (duration : Z) : M (ptr * string) :=
  let hours := to_int32 (duration ÷ 3600) in
  let total_seconds := Z.rem duration 3600 in
  let minutes := to_int32 (total_seconds ÷ 60) in
  let seconds := to_int32 (Z.rem total_seconds 60) in
  timeString <- malloc (10 * 1) ;;
  text <- (if hours =? 0 then
             if (minutes =? 0) && (seconds =? 0)
             then sprintf timeString ("< " +:+ pretty 1 +:+ " second")
             else sprintf timeString (pretty minutes +:+ "m:" +:+ pretty seconds +:+ "s")
           else
             sprintf timeString
               (pretty hours +:+ "h:" +:+ pretty minutes +:+ "m:" +:+ pretty seconds +:+ "s")) ;;
  ret (timeString, text).

(** ** [main] *)

(** Lines 45-62: the corner coordinates and scales the program assumes. *)
Definition assumedBox (g : Gtif) : Gtif :=
  set_scaleY (double_of_Z 1)
    (set_scaleX (double_of_Z 1)
      (set_LR (double_lit 15799999999 100000000, double_of_Z (-48), double_of_Z 0)
        (set_UR (double_lit 15799999999 100000000, double_of_Z (-8), double_of_Z 0)
          (set_LL (double_of_Z 108, double_of_Z (-48), double_of_Z 0)
            (set_UL (double_of_Z 108, double_of_Z (-8), double_of_Z 0) g))))).

(** Lines 65 and 69: the two conditions under which [main] gives up. *)
Definition latOutside (Lat : spec_float) (g : Gtif) : bool :=
  dgt (double_of_float Lat) (c1 (UL g)) || dlt (double_of_float Lat) (c1 (LR g)).
Definition longOutside (Long : spec_float) (g : Gtif) : bool :=
  dlt (double_of_float Long) (c0 (UL g)) || dgt (double_of_float Long) (c0 (LR g)).

(** Lines 64-72. *)
Definition checkLatLong (Lat Long : spec_float) : M unit :=
  g <- deref AddrOf_DEM_Gtif ;;
  if latOutside Lat g
  then eprint (LatOutOfRange Lat) ;;; exit 1
  else
    if longOutside Long g
    then eprint (LongOutOfRange Long) ;;; exit 1
    else ret tt.

(** Lines 80-81; [None] where a conversion to [int] is undefined. *)
Definition calcLineNo (Lat : spec_float) (g : Gtif) : option Z :=
  int_of_double (dneg (dsub (double_of_float Lat) (c1 (UL g)))).
Definition calcPixelNo (Long : spec_float) (g : Gtif) : option Z :=
  int_of_double (dsub (double_of_float Long) (c0 (LL g))).

(** Lines 83 and 87. *)
Definition lineOutside (LineNo : Z) (g : Gtif) : bool :=
  (LineNo <? 0) || (LineNo >? height g).
Definition pixelOutside (PixelNo : Z) (g : Gtif) : bool :=
  (PixelNo <? 0) || (PixelNo >? width g).

(** Lines 83-90. *)
Definition checkLinePixel (LineNo PixelNo : Z) : M unit :=
  g <- deref AddrOf_DEM_Gtif ;;
  if lineOutside LineNo g
  then eprint (LineNoOutOfRange LineNo (height g)) ;;; exit 1
  else
    if pixelOutside PixelNo g
    then eprint (PixelNoOutOfRange PixelNo (width g)) ;;; exit 1
    else ret tt.

(** Lines 64-110: what [main] does once the session record is filled in.
    [elapsed] is the number of seconds
    [difftime(time(NULL), startTimer)] gives, as the [long] that
    [toTimeString] takes; the string returned goes into the timing line
    and is not freed. *)
Definition lookupElevation (elapsed : Z) (Lat Long : spec_float) : M unit :=
  checkLatLong Lat Long ;;;
  g <- deref AddrOf_DEM_Gtif ;;
  match calcLineNo Lat g, calcPixelNo Long g with
  | Some LineNo, Some PixelNo =>
      checkLinePixel LineNo PixelNo ;;;
      v <- (fun s => Ret (verbose s) s) ;;
      when v (toTimeString elapsed ;;; print TotalCpuTime) ;;;
      ElevVal <- readDEMvalue AddrOf_DEM_Gtif LineNo PixelNo ;;
      print (DemValue LineNo PixelNo ElevVal) ;;;
      closeGtif AddrOf_DEM_Gtif ;;;
      exit 0
  | _, _ => undefined
  end.

(** [argv1] is the file name; [Lat] and [Long] are the two [float]s
    [sscanf] has read from the other arguments; [elapsed] is what the
    clock reports at line 97. *)
Definition main (elapsed : Z) (argv1 : string) (Lat Long : spec_float) : M unit :=
  (fun s => Ret tt (set_verbose true s)) ;;;
  _ <- setupGtif AddrOf_DEM_Gtif (Some argv1) ;;
  assign AddrOf_DEM_Gtif assumedBox ;;;
  lookupElevation elapsed Lat Long.

End Program.

(** ** The vocabulary of the specification *)

(** The error taxonomy of section 7, and the diagnostics it groups. *)
Inductive ErrorKind : Type :=
  | FileOpenError
  | MetadataError
  | UnsupportedFormatError
  | AllocationError
  | OutOfRangeError
  | ScanlineReadError.

Definition error_kind (d : diagnostic) : ErrorKind :=
  match d with
  | CannotOpenFile _ => FileOpenError
  | CannotExtractBitsPerSample _ => MetadataError
  | CannotExtractPixelSize => MetadataError
  | CannotExtractTiePoints => MetadataError
  | CannotAllocateScanline _ => AllocationError
  | UnsupportedBitsPerSample _ => UnsupportedFormatError
  | LatOutOfRange _ => OutOfRangeError
  | LongOutOfRange _ => OutOfRangeError
  | LineNoOutOfRange _ _ => OutOfRangeError
  | PixelNoOutOfRange _ _ => OutOfRangeError
  | FailedReadingScanline => ScanlineReadError
  end.

(** A computation fails with an error of kind [k] and exit status [n]:
    it exits with [n], and the last thing it did was to print a
    diagnostic of that kind. *)
Definition fails_with {A} (o : outcome A) (k : ErrorKind) (n : Z) : Prop :=
  exists s d, o = Exit n s /\ last (trace s) = Some (EvStderr d) /\ error_kind d = k.

(** Section 4.3: a latitude/longitude pair lies outside the hardcoded
    envelope of section 6. *)
Definition outsideBox (lat long : xreal) : Prop :=
  xlt (Xfin (-8)) lat \/ xlt lat (Xfin (-48))
  \/ xlt long (Xfin 108) \/ xlt (Xfin (15799999999 # 100000000)) long.

(** A scanline read was attempted. *)
Definition read_attempted (t : list event) : Prop :=
  exists h r ok, EvReadScanline h r ok ∈ t.

(** The state [main] starts in: nothing allocated, nothing open, nothing
    printed; [g0] is whatever the uninitialised session record holds. *)
Definition initial (fs : string -> option TiffFile) (oracle : list bool) (g0 : Gtif) : state :=
  {| files := fs; mallocs := oracle; heap := ∅; tifs := ∅; next := 0%nat;
     DEM_Gtif := g0; verbose := false; trace := [] |}.

(** ** Relations between states, and the shapes a session takes *)

(** Every state a computation can end in is related to the one it
    started in. *)
Definition preserves {A} (R : relation state) (c : M A) : Prop :=
  forall s, match c s with
            | Ret _ s' | Exit _ s' => R s s'
            | Undefined => True
            end.

(** The session record is the same. *)
Definition same_session : relation state := fun s s' => DEM_Gtif s' = DEM_Gtif s.
(** No scanline read has been added to the trace. *)
Definition no_new_read : relation state :=
  fun s s' => read_attempted (trace s') -> read_attempted (trace s).
(** Both. *)
Definition quiet : relation state := fun s s' => same_session s s' /\ no_new_read s s'.

(** One field of the session record is the same. *)
Definition same_on {F} (proj : Gtif -> F) : relation state :=
  fun s s' => proj (DEM_Gtif s') = proj (DEM_Gtif s).

(** The heap after the blocks [l] have been released. *)
Definition released (l : list nat) (m : gmap nat block) : gmap nat block :=
  foldl (fun m b => delete b m) m l.

(** A session as [setupGtif] leaves it: the pool [pb] holds the
    addresses of the live scanline buffers [bufs], and [h] is open. *)
Definition open_session (s : state) (pb : nat) (bufs : list nat) (h : nat) : Prop :=
  scanlines (DEM_Gtif s) = Ptr pb
  /\ windowSize (DEM_Gtif s) = Z.of_nat (length bufs)
  /\ tif (DEM_Gtif s) = Ptr h
  /\ is_Some (tifs s !! h)
  /\ (exists blk, heap s !! pb = Some blk
                  /\ forall (j : nat) b, bufs !! j = Some b -> bptrs blk !! j = Some (Ptr b))
  /\ (forall b, b ∈ bufs -> is_Some (heap s !! b))
  /\ NoDup (pb :: bufs).

(** Lines 153-173: the session record once the handle [t] is stored and
    the sample format and the dimensions of [f] have been read, with [b]
    the bits-per-sample tag. *)
Definition sessionWithTags (g : Gtif) (t : ptr) (f : TiffFile) (b : Z) : Gtif :=
  let g1 := set_tif t (set_tif NULL g) in
  let g2 := from_option (fun v => set_samplesPerPixel v g1) g1 (SAMPLESPERPIXEL f) in
  let g3 := normalizeBitsPerSample (set_bitsPerSample b g2) in
  let g4 := from_option (fun v => set_width v g3) g3 (IMAGEWIDTH f) in
  from_option (fun v => set_height v g4) g4 (IMAGELENGTH f).

(** The state once [TIFFOpen] has succeeded and the session record has
    become [g]. *)
Definition opened (s : state) (name : string) (f : TiffFile) (g : Gtif) : state :=
  {| files := files s; mallocs := mallocs s; heap := heap s;
     tifs := <[next s := f]> (tifs s); next := S (next s);
     DEM_Gtif := g; verbose := verbose s;
     trace := trace s ++ [EvOpen name (Ptr (next s))] |}.

(** The blocks [malloc] hands out from state [s] on: [n] in a row. *)
Definition handed_out (s : state) (n : nat) : list nat := seq (next s) n.

End Dem.

(** * Sample rasters and runs *)
Module Examples.
Import Fp Machine Dem.

Definition zero3 : spec_float * spec_float * spec_float :=
  (S754_zero false, S754_zero false, S754_zero false).

(** A session record holding zeroes. *)
Definition zeroed : Gtif :=
  {| tif := NULL; samplesPerPixel := 0; bitsPerSample := 0; width := 0; height := 0;
     scaleX := S754_zero false; scaleY := S754_zero false;
     pixelSize := []; tiePoints := [];
     UL := zero3; LL := zero3; UR := zero3; LR := zero3;
     windowSize := 0; scanlineSize := 0; byteOrder := 0; lineNo := 0;
     scanlines := NULL |}.

(** A session record holding what an earlier use of the stack left:
    dimensions of 100 by 100 and no handle. *)
Definition stale : Gtif := set_height 100 (set_width 100 zeroed).

(** A 50 by 40 raster of 16-bit samples, all zero but for the elevation
    1234 at row 5, column 10. *)
Definition dem16 : TiffFile :=
  {| SAMPLESPERPIXEL := Some 1; BITSPERSAMPLE := Some 16;
     IMAGEWIDTH := Some 50; IMAGELENGTH := Some 40;
     GTIFF_PIXELSCALE := Some [double_of_Z 1; double_of_Z 1; double_of_Z 0];
     GTIFF_TIEPOINTS := Some [];
     scanline := fun r =>
       if (0 <=? r) && (r <? 40)
       then Some (if r =? 5 then <[10%nat := 1234]> (replicate 50 0) else replicate 50 0)
       else None |}.

(** The same raster with 8-bit samples. *)
Definition dem8 : TiffFile :=
  {| SAMPLESPERPIXEL := Some 1; BITSPERSAMPLE := Some 8;
     IMAGEWIDTH := Some 50; IMAGELENGTH := Some 40;
     GTIFF_PIXELSCALE := Some [double_of_Z 1; double_of_Z 1; double_of_Z 0];
     GTIFF_TIEPOINTS := Some [];
     scanline := fun r => if (0 <=? r) && (r <? 40) then Some (replicate 50 0) else None |}.

(** An 8-bit raster that is a plain TIFF: it carries no pixel-scale and
    no tie-point tag. *)
Definition plain8 : TiffFile :=
  {| SAMPLESPERPIXEL := Some 1; BITSPERSAMPLE := Some 8;
     IMAGEWIDTH := Some 50; IMAGELENGTH := Some 40;
     GTIFF_PIXELSCALE := None; GTIFF_TIEPOINTS := None;
     scanline := fun r => if (0 <=? r) && (r <? 40) then Some (replicate 50 0) else None |}.

Definition disk (name : string) : option TiffFile :=
  if String.eqb name "dem.tif" then Some dem16
  else if String.eqb name "dem8.tif" then Some dem8
  else if String.eqb name "plain8.tif" then Some plain8
  else None.

(** The process at its start, with every allocation granted. *)
Definition boot : state := initial disk [] zeroed.
Definition boot_stale : state := initial disk [] stale.

(** The raster with 4-bit samples, and the process at its start when
    this raster is all the disk holds. *)
Definition dem4 : TiffFile :=
  {| SAMPLESPERPIXEL := Some 1; BITSPERSAMPLE := Some 4;
     IMAGEWIDTH := Some 50; IMAGELENGTH := Some 40;
     GTIFF_PIXELSCALE := Some [double_of_Z 1; double_of_Z 1; double_of_Z 0];
     GTIFF_TIEPOINTS := Some [];
     scanline := fun r => if (0 <=? r) && (r <? 40) then Some (replicate 50 0) else None |}.
Definition boot4 : state := initial (fun _ => Some dem4) [] zeroed.

(** The state a computation ends in. *)
Definition final_state {A} (o : outcome A) (default : state) : state :=
  match o with Ret _ s => s | Exit _ s => s | Undefined => default end.

(** The session once ["dem.tif"] is set up: pointers of 8 bytes, a
    legacy output size of 800 by 800. *)
Definition ready : state :=
  final_state
    (setupGtif 8 800 800 AddrOf_DEM_Gtif (Some "dem.tif") (set_verbose true boot)) boot.


End Examples.

(** * The stage timers *)

Module Timing.
Import Fp Machine Dem.

(** Lines 289-304.  [prevTimer] is the global the two functions share.
    The clock is the environment's: [time_at k] is what the call number
    [k] of [time(NULL)] returns, a [time_t] taken as an integer number
    of seconds. *)
Record timers : Type := {
  time_at : nat -> Z;
  calls : nat;
  prevTimer : Z
}.

Definition time_NULL (c : timers) : Z * timers :=
  (time_at c (calls c),
   {| time_at := time_at c; calls := S (calls c); prevTimer := prevTimer c |}).

(** [difftime(time1, time0)]: the difference in seconds, as the nearest
    [double]. *)
Definition difftime (time1 time0 : Z) : spec_float := double_of_Z (time1 - time0).

Definition LONG_MIN : Z := - 2 ^ 63.
Definition LONG_MAX : Z := 2 ^ 63 - 1.

(** [(long) x], undefined ([None]) when the integral part does not fit. *)
Definition long_of_double (x : spec_float) : option Z :=
  match x with
  | S754_zero _ => Some 0
  | S754_finite s m e =>
      let t := cond_Zopp s (Z.shiftl (Zpos m) e) in
      if (LONG_MIN <=? t) && (t <=? LONG_MAX) then Some t else None
  | _ => None
  end.

(** Lines 290-293. *)
Definition setCPUTimer (c : timers) : timers :=
  let (t, c1) := time_NULL c in
  {| time_at := time_at c1; calls := calls c1; prevTimer := t |}.

(** Lines 296-304; [None] where the conversion to [long] is undefined. *)
Definition getStageTime (c : timers) : option (Z * timers) :=
  let (thisTimer, c1) := time_NULL c in
  let duration := difftime thisTimer (prevTimer c1) in
  let c2 := {| time_at := time_at c1; calls := calls c1; prevTimer := thisTimer |} in
  match long_of_double duration with
  | Some d => Some (d, c2)
  | None => None
  end.

End Timing.

(** * Outcomes, traces and blocks *)

Module Properties.
Import Fp Machine Dem Timing.

(** The exit statuses a computation can end the process with. *)
Definition stops_in {A} (codes : list Z) (c : M A) : Prop :=
  forall s, match c s with
            | Exit n _ => n ∈ codes
            | _ => True
            end.

(** A computation that ends the process or is undefined, whatever the
    state: control never comes back from it. *)
Definition never_returns {A} (c : M A) : Prop :=
  forall s, match c s with
            | Ret _ _ => False
            | _ => True
            end.

(** The status the program ends with after a failure of each kind:
    lines 67, 71, 85 and 89 for the range checks, 130, 183, 195 and 216
    for the reads, tags and sample depth, 208 for the buffers.  A file
    that cannot be opened has none: [setupGtif] returns. *)
Definition status_of (k : ErrorKind) : option Z :=
  match k with
  | FileOpenError => None
  | MetadataError | UnsupportedFormatError | ScanlineReadError => Some 11
  | AllocationError => Some 13
  | OutOfRangeError => Some 1
  end.

(** When the computation ends the process with a status other than 0,
    the last thing written is the diagnostic that status stands for. *)
Definition loud {A} (c : M A) : Prop :=
  forall s, match c s with
            | Exit n s' =>
                n = 0 \/ exists d, last (trace s') = Some (EvStderr d)
                                   /\ status_of (error_kind d) = Some n
            | _ => True
            end.

(** The line that reports the elevation was printed. *)
Definition printed_result (t : list event) : Prop :=
  exists l p v, EvStdout (DemValue l p v) ∈ t.

(** Any event but that line. *)
Definition not_result (e : event) : Prop :=
  forall l p v, e <> EvStdout (DemValue l p v).

(** The trace has grown, by events other than the result line. *)
Definition adds_no_result : relation state :=
  fun s s' => exists l, trace s' = trace s ++ l /\ Forall not_result l.

(** A Hoare triple with one postcondition for a return and one for an
    [exit]; undefined behaviour satisfies it. *)
Definition triple {A} (P : state -> Prop) (c : M A)
    (Q : A -> state -> Prop) (E : Z -> state -> Prop) : Prop :=
  forall s, P s -> match c s with
                   | Ret a s' => Q a s'
                   | Exit n s' => E n s'
                   | Undefined => True
                   end.

(** The trace from [s0] on: nothing of the result yet, or the result
    line exactly once. *)
Definition no_result_since (s0 s : state) : Prop := adds_no_result s0 s.
Definition one_result_since (s0 s : state) : Prop :=
  exists pre l p v post,
    trace s = trace s0 ++ pre ++ [EvStdout (DemValue l p v)] ++ post
    /\ Forall not_result pre /\ Forall not_result post.

(** What an [exit] of [main] looks like, for a run started in [s0]. *)
Definition exit_shape (s0 : state) (n : Z) (s : state) : Prop :=
  (n <> 0 /\ no_result_since s0 s) \/ (n = 0 /\ one_result_since s0 s).

(** Every block that is live in [s'] was live in [s] or has been handed
    out since. *)
Definition block_growth : relation state :=
  fun s s' =>
    (next s <= next s')%nat
    /\ forall b, is_Some (heap s' !! b) ->
                 is_Some (heap s !! b) \/ (next s <= b < next s')%nat.

(** Lines 80-81 on the values: the row and the column of a coordinate. *)
Definition row_of (Lat : spec_float) : Z := Qtrunc (- (SF2Q Lat - (-8))).
Definition col_of (Long : spec_float) : Z := Qtrunc (SF2Q Long - 108).

(** The text of lines 320-328 for a duration that is not negative. *)
Definition time_text (d : Z) : string :=
  if d =? 0 then "< 1 second"
  else if d <? 3600 then pretty (d mod 3600 / 60) +:+ "m:" +:+ pretty (d mod 60) +:+ "s"
  else pretty (d / 3600) +:+ "h:" +:+ pretty (d mod 3600 / 60) +:+ "m:"
         +:+ pretty (d mod 60) +:+ "s".

(** The state once [toTimeString] has allocated its buffer. *)
Definition timed (s : state) : state :=
  log (EvMalloc 10 (Ptr (next s)))
    (set_next (S (next s))
       (set_heap (<[next s := fresh_block 10]> (heap s))
          (set_mallocs (tail (mallocs s)) s))).

(** [n] stages timed one after the other: the durations
    [getStageTime] returns, oldest first. *)
Fixpoint stages (n : nat) (c : timers) : option (list Z * timers) :=
  match n with
  | O => Some ([], c)
  | S n' =>
      match getStageTime c with
      | Some (d, c1) =>
          match stages n' c1 with
          | Some (ds, c2) => Some (d :: ds, c2)
          | None => None
          end
      | None => None
      end
  end.

(** What [prevTimer] holds before stage [k] of a run started in [c]. *)
Definition before (c : timers) (k : nat) : Z :=
  match k with
  | O => prevTimer c
  | S j => time_at c (calls c + j)
  end.

End Properties.

(** * More sample rasters and runs *)

Module Samples.
Import Fp Machine Dem Examples Timing Properties.

(** A 16-bit raster that carries the pixel scale but no tie points. *)
Definition untied16 : TiffFile :=
  {| SAMPLESPERPIXEL := Some 1; BITSPERSAMPLE := Some 16;
     IMAGEWIDTH := Some 50; IMAGELENGTH := Some 40;
     GTIFF_PIXELSCALE := Some [double_of_Z 1; double_of_Z 1; double_of_Z 0];
     GTIFF_TIEPOINTS := None;
     scanline := fun r => if (0 <=? r) && (r <? 40) then Some (replicate 50 0) else None |}.

(** The process at its start when that raster is all the disk holds. *)
Definition untied_boot : state := initial (fun _ => Some untied16) [] zeroed.

(** The process at its start when the first allocation is granted and
    the second is refused. *)
Definition scarce : state := initial disk [true; false] zeroed.

(** The session of ["dem.tif"] once [main] has written the assumed box
    into it. *)
Definition located : state := set_DEM_Gtif (assumedBox (DEM_Gtif ready)) ready.

(** The same, when the next allocation is refused. *)
Definition starved : state := set_mallocs [false] located.

(** The run on ["dem.tif"] at 13 degrees south, 118 degrees east, when
    the clock reports five seconds. *)
Definition sample_run : outcome unit :=
  main 8 800 800 5 "dem.tif" (float_of_Z (-13)) (float_of_Z 118) boot.

(** A clock that starts at 1000 seconds and gains three seconds from
    one reading to the next. *)
Definition ticking : timers :=
  {| time_at := fun k => 1000 + 3 * Z.of_nat k; calls := 0; prevTimer := 0 |}.

End Samples.

(** * Theorems *)

(** ** Floating-point arithmetic on [spec_float] *)
Module FpFacts.
Import Fp Machine Dem Examples.

Lemma digits2_pos_bounds (p : positive) :
  2 ^ (Zpos (digits2_pos p) - 1) <= Zpos p < 2 ^ Zpos (digits2_pos p).
Proof.
  induction p as [p IH | p IH |]; cbn [digits2_pos].
  - rewrite Pos2Z.inj_succ, Z.pow_succ_r by lia.
    replace (Z.succ (Zpos (digits2_pos p)) - 1) with (Z.succ (Zpos (digits2_pos p) - 1)) by lia.
    rewrite Z.pow_succ_r by lia. lia.
  - rewrite Pos2Z.inj_succ, Z.pow_succ_r by lia.
    replace (Z.succ (Zpos (digits2_pos p)) - 1) with (Z.succ (Zpos (digits2_pos p) - 1)) by lia.
    rewrite Z.pow_succ_r by lia. lia.
  - cbn. lia.
Qed.

Lemma pow2_le_mono (a b : Z) : 0 <= a <= b -> 2 ^ a <= 2 ^ b.
Proof. intros H. apply Z.pow_le_mono_r; lia. Qed.

Lemma pow2_pos (a : Z) : 0 <= a -> 0 < 2 ^ a.
Proof. intros H. apply Z.pow_pos_nonneg; lia. Qed.

Lemma digits2_pos_unique (p : positive) (d : Z) :
  0 < d -> 2 ^ (d - 1) <= Zpos p < 2 ^ d -> Zpos (digits2_pos p) = d.
Proof.
  intros Hd [Hl Hu]. pose proof (digits2_pos_bounds p) as [Bl Bu].
  destruct (Z.lt_trichotomy (Zpos (digits2_pos p)) d) as [H | [H | H]]; [|exact H|].
  - pose proof (pow2_le_mono (Zpos (digits2_pos p)) (d - 1)). lia.
  - pose proof (pow2_le_mono d (Zpos (digits2_pos p) - 1)). lia.
Qed.

Lemma iter_xO (p n : positive) : Zpos (Pos.iter xO p n) = Zpos p * 2 ^ Zpos n.
Proof.
  induction n as [|n IH] using Pos.peano_ind.
  - cbn. lia.
  - rewrite Pos.iter_succ, Pos2Z.inj_xO, IH, Pos2Z.inj_succ, Z.pow_succ_r by lia. lia.
Qed.

Lemma digits2_pos_shift (p : positive) (k : Z) (q : positive) :
  0 <= k -> Zpos q = Zpos p * 2 ^ k -> Zpos (digits2_pos q) = Zpos (digits2_pos p) + k.
Proof.
  intros Hk Hq. pose proof (digits2_pos_bounds p) as [Bl Bu].
  apply digits2_pos_unique; [lia|]. rewrite Hq.
  replace (Zpos (digits2_pos p) + k - 1) with ((Zpos (digits2_pos p) - 1) + k) by lia.
  rewrite !Z.pow_add_r by lia. pose proof (pow2_pos k Hk). nia.
Qed.

Lemma iter_pos_iter {A} (f : A -> A) (n : positive) (x : A) :
  SpecFloat.iter_pos f n x = Pos.iter f x n.
Proof.
  revert x. induction n as [n IH | n IH |]; intros x; cbn [SpecFloat.iter_pos Pos.iter].
  - rewrite !IH. now rewrite <- !Pos.iter_swap.
  - now rewrite !IH.
  - reflexivity.
Qed.

Lemma shr_1_m (r : shr_record) : 0 <= shr_m r -> shr_m (shr_1 r) = shr_m r / 2.
Proof.
  destruct r as [m rb sb]. cbn [shr_m]. intros Hm. rewrite <- Z.div2_div.
  destruct m as [|[p|p|]|p]; try reflexivity. lia.
Qed.

Lemma shr_1_exact (q : Z) :
  0 <= q -> shr_1 (Build_shr_record (2 * q) false false) = Build_shr_record q false false.
Proof. intros Hq. destruct q as [|p|p]; [reflexivity|reflexivity|lia]. Qed.

Lemma shr_iter_m (n : positive) (r : shr_record) :
  0 <= shr_m r -> shr_m (SpecFloat.iter_pos shr_1 n r) = shr_m r / 2 ^ Zpos n.
Proof.
  intros Hm. rewrite iter_pos_iter.
  induction n as [|n IH] using Pos.peano_ind.
  - cbn [Pos.iter]. now rewrite shr_1_m.
  - rewrite Pos.iter_succ, shr_1_m, IH.
    + rewrite Pos2Z.inj_succ, Z.pow_succ_r by lia.
      rewrite Z.div_div by (pose proof (pow2_pos (Zpos n)); lia). f_equal. lia.
    + rewrite IH. apply Z.div_pos; [lia|]. apply pow2_pos. lia.
Qed.

Lemma shr_iter_exact (n : positive) (q : Z) :
  0 <= q ->
  SpecFloat.iter_pos shr_1 n (Build_shr_record (q * 2 ^ Zpos n) false false)
  = Build_shr_record q false false.
Proof.
  rewrite iter_pos_iter. revert q.
  induction n as [|n IH] using Pos.peano_ind; intros q Hq.
  - cbn [Pos.iter]. replace (q * 2 ^ 1) with (2 * q) by lia. now apply shr_1_exact.
  - rewrite Pos.iter_succ, Pos2Z.inj_succ, Z.pow_succ_r by lia.
    replace (q * (2 * 2 ^ Zpos n)) with ((2 * q) * 2 ^ Zpos n) by lia.
    rewrite IH by lia. now apply shr_1_exact.
Qed.

Lemma fexp_double (x : Z) : fexp 53 1024 x = Z.max (x - 53) (-1074).
Proof. reflexivity. Qed.

Lemma binary_round_aux_canonical (s : bool) (m : positive) (e : Z) :
  bounded 53 1024 m e = true ->
  binary_round_aux 53 1024 s (Zpos m) e loc_Exact = S754_finite s m e.
Proof.
  unfold bounded, canonical_mantissa. intros H.
  apply andb_prop in H as [Hc He]. apply Z.eqb_eq in Hc.
  unfold binary_round_aux, shr_fexp. cbn [Zdigits2 shr_record_of_loc].
  rewrite Hc, Z.sub_diag. cbn [shr shr_m loc_of_shr_record round_nearest_even Zdigits2].
  rewrite Hc, Z.sub_diag. cbn [shr shr_m]. now rewrite He.
Qed.

Lemma binary_round_aux_shift (s : bool) (m q : positive) (e n : Z) :
  0 < n -> Zpos m = Zpos q * 2 ^ n ->
  bounded 53 1024 q (e + n) = true ->
  binary_round_aux 53 1024 s (Zpos m) e loc_Exact = S754_finite s q (e + n).
Proof.
  intros Hn Hm H. unfold bounded, canonical_mantissa in H.
  apply andb_prop in H as [Hc He]. apply Z.eqb_eq in Hc.
  assert (Hd : Zpos (digits2_pos m) = Zpos (digits2_pos q) + n)
    by (apply (digits2_pos_shift q n m); lia).
  unfold binary_round_aux, shr_fexp. cbn [Zdigits2 shr_record_of_loc].
  rewrite Hd. replace (Zpos (digits2_pos q) + n + e) with (Zpos (digits2_pos q) + (e + n)) by lia.
  rewrite Hc. replace (e + n - e) with n by lia.
  destruct n as [|n|n]; try lia. cbn [shr].
  rewrite Hm, shr_iter_exact by lia.
  cbn [shr_m loc_of_shr_record round_nearest_even Zdigits2 shr_record_of_loc].
  rewrite Hc, Z.sub_diag. cbn [shr shr_m]. now rewrite He.
Qed.

(** A positive integer [p] at exponent [e] that fits the format is
    rounded to itself: the result is the canonical mantissa [q] at
    exponent [e'] with [q * 2^e' = p * 2^e]. *)
Lemma binary_round_exact (s : bool) (p : positive) (e : Z) :
  let e' := fexp 53 1024 (Zpos (digits2_pos p) + e) in
  e' <= 971 ->
  (e' <= e \/ exists q : Z, Zpos p = q * 2 ^ (e' - e)) ->
  exists q : positive,
    binary_round 53 1024 s p e = S754_finite s q e'
    /\ bounded 53 1024 q e' = true
    /\ Zpos q * 2 ^ (e' - Z.min e e') = Zpos p * 2 ^ (e - Z.min e e').
Proof.
  intros e' Hmax Hrep. unfold binary_round. fold e'. unfold shl_align.
  assert (He' : fexp 53 1024 (Zpos (digits2_pos p) + e) = e') by reflexivity.
  clearbody e'.
  destruct (e' - e) as [|n|n] eqn:Hn.
  - (* already aligned *)
    replace e' with e in * by lia.
    assert (Hb : bounded 53 1024 p e = true).
    { unfold bounded, canonical_mantissa. rewrite He', Z.eqb_refl. cbn. now apply Z.leb_le. }
    exists p. rewrite binary_round_aux_canonical by exact Hb.
    split; [reflexivity|]. split; [exact Hb|]. now rewrite Z.min_id, Z.sub_diag.
  - (* the mantissa has to lose its [n] low zeros *)
    destruct Hrep as [Hrep | [q Hq]]; [lia|]. try rewrite Hn in Hq.
    assert (Hqpos : 0 < q) by (pose proof (pow2_pos (Zpos n)); nia).
    destruct q as [|q|q]; try lia.
    assert (Hd : Zpos (digits2_pos p) = Zpos (digits2_pos q) + Zpos n)
      by (apply (digits2_pos_shift q (Zpos n) p); lia).
    assert (Hb : bounded 53 1024 q (e + Zpos n) = true).
    { unfold bounded, canonical_mantissa.
      replace (Zpos (digits2_pos q) + (e + Zpos n)) with (Zpos (digits2_pos p) + e) by lia.
      rewrite He'. replace (e + Zpos n) with e' by lia. rewrite Z.eqb_refl. cbn. now apply Z.leb_le. }
    exists q. replace e' with (e + Zpos n) by lia.
    rewrite (binary_round_aux_shift s p q e (Zpos n)) by (try exact Hb; lia).
    split; [reflexivity|]. split; [exact Hb|].
    rewrite Z.min_l by lia. replace (e + Zpos n - e) with (Zpos n) by lia.
    rewrite Z.sub_diag. lia.
  - (* the mantissa is shifted left to the canonical exponent *)
    assert (Hm : Zpos (Pos.iter xO p n) = Zpos p * 2 ^ Zpos n) by apply iter_xO.
    assert (Hd : Zpos (digits2_pos (Pos.iter xO p n)) = Zpos (digits2_pos p) + Zpos n)
      by (apply (digits2_pos_shift p (Zpos n)); lia).
    assert (Hb : bounded 53 1024 (Pos.iter xO p n) e' = true).
    { unfold bounded, canonical_mantissa. rewrite Hd.
      replace (Zpos (digits2_pos p) + Zpos n + e') with (Zpos (digits2_pos p) + e) by lia.
      rewrite He', Z.eqb_refl. cbn. now apply Z.leb_le. }
    exists (Pos.iter xO p n). rewrite binary_round_aux_canonical by exact Hb.
    split; [reflexivity|]. split; [exact Hb|].
    rewrite Z.min_r by lia. rewrite Z.sub_diag, Hm. replace (e - e') with (Zpos n) by lia. lia.
Qed.

(** ** Powers of two in Q *)
Lemma Qpow2_pos (e : Z) : (0 < Qpow2 e)%Q.
Proof. unfold Qpow2. apply Qpower_0_lt. reflexivity. Qed.

Lemma Qpow2_add (a b : Z) : (Qpow2 (a + b) == Qpow2 a * Qpow2 b)%Q.
Proof. unfold Qpow2. apply Qpower_plus. discriminate. Qed.

Lemma Qpow2_inject (n : Z) : 0 <= n -> (inject_Z (2 ^ n) == Qpow2 n)%Q.
Proof. intros H. unfold Qpow2. now rewrite Zpower_Qpower. Qed.

(** [a * 2^n] at exponent [e] is [a] at exponent [e + n]. *)
Lemma Qscale (a n e : Z) :
  0 <= n -> (inject_Z (a * 2 ^ n) * Qpow2 e == inject_Z a * Qpow2 (e + n))%Q.
Proof.
  intros H. rewrite inject_Z_mult, Qpow2_inject by exact H.
  rewrite (Qpow2_add e n). ring.
Qed.

Lemma Qscaled_lt (a b k : Z) :
  (inject_Z a * Qpow2 k < inject_Z b * Qpow2 k)%Q <-> a < b.
Proof.
  split; intros H.
  - apply Qmult_lt_r in H; [|apply Qpow2_pos]. rewrite Zlt_Qlt. exact H.
  - apply Qmult_lt_r; [apply Qpow2_pos|]. rewrite <- Zlt_Qlt. exact H.
Qed.

Lemma Qscaled_eq (a b k : Z) :
  (inject_Z a * Qpow2 k == inject_Z b * Qpow2 k)%Q <-> a = b.
Proof.
  split; intros H.
  - apply Qmult_inj_r in H.
    + apply inject_Z_injective. exact H.
    + intros E. pose proof (Qpow2_pos k) as P. rewrite E in P. discriminate.
  - now subst.
Qed.

(** Two scaled integers compared at a common exponent [k]. *)
Lemma Qscaled_lt_at (k a ea b eb : Z) :
  k <= ea -> k <= eb ->
  (inject_Z a * Qpow2 ea < inject_Z b * Qpow2 eb)%Q
  <-> a * 2 ^ (ea - k) < b * 2 ^ (eb - k).
Proof.
  intros Ha Hb. rewrite <- (Qscaled_lt _ _ k).
  rewrite !Qscale by lia.
  replace (k + (ea - k)) with ea by lia. replace (k + (eb - k)) with eb by lia. reflexivity.
Qed.

Lemma Qscaled_eq_at (k a ea b eb : Z) :
  k <= ea -> k <= eb ->
  (inject_Z a * Qpow2 ea == inject_Z b * Qpow2 eb)%Q
  <-> a * 2 ^ (ea - k) = b * 2 ^ (eb - k).
Proof.
  intros Ha Hb. rewrite <- (Qscaled_eq _ _ k).
  rewrite !Qscale by lia.
  replace (k + (ea - k)) with ea by lia. replace (k + (eb - k)) with eb by lia. reflexivity.
Qed.

Lemma cond_Zopp_mul (s : bool) (a b : Z) : cond_Zopp s a * b = cond_Zopp s (a * b).
Proof. destruct s; cbn; lia. Qed.

(** ** Truncation *)
Lemma Qtrunc_comp (p q : Q) : (p == q)%Q -> Qtrunc p = Qtrunc q.
Proof.
  destruct p as [a b], q as [c d]. unfold Qeq, Qtrunc. cbn [Qnum Qden]. intros H.
  rewrite <- (Z.quot_mul_cancel_r a (Zpos b) (Zpos d)) by lia.
  rewrite H, (Z.mul_comm (Zpos b) (Zpos d)).
  now rewrite Z.quot_mul_cancel_r by lia.
Qed.

Lemma Qtrunc_inject (z : Z) : Qtrunc (inject_Z z) = z.
Proof. unfold Qtrunc. cbn. apply Z.quot_1_r. Qed.

Lemma Qtrunc_scaled (a n : Z) :
  0 <= n -> Qtrunc (inject_Z a * Qpow2 (- n)) = Z.quot a (2 ^ n).
Proof.
  intros Hn. pose proof (pow2_pos n Hn) as Hp.
  assert (E : (inject_Z a * Qpow2 (- n) == a # Z.to_pos (2 ^ n))%Q).
  { assert (I : (Qpow2 (- n) == / inject_Z (2 ^ n))%Q).
    { unfold Qpow2. rewrite Qpower_opp. fold (Qpow2 n). now rewrite <- Qpow2_inject by lia. }
    rewrite I. destruct (2 ^ n) as [|w|w] eqn:Ew; try lia.
    unfold Qeq. cbn. lia. }
  rewrite (Qtrunc_comp _ _ E). unfold Qtrunc. cbn [Qnum Qden]. now rewrite Z2Pos.id by lia.
Qed.

Lemma digits2_pos_le (p : positive) (n : Z) :
  0 <= n -> Zpos p < 2 ^ n -> Zpos (digits2_pos p) <= n.
Proof.
  intros Hn Hp. pose proof (digits2_pos_bounds p) as [Bl _].
  destruct (Z_le_gt_dec (Zpos (digits2_pos p)) n) as [H | H]; [exact H|].
  pose proof (pow2_le_mono n (Zpos (digits2_pos p) - 1)). lia.
Qed.

Lemma bounded_double (m : positive) (e : Z) :
  bounded 53 1024 m e = true ->
  -1074 <= e <= 971 /\ Zpos (digits2_pos m) <= 53
  /\ (-1074 < e -> Zpos (digits2_pos m) = 53).
Proof.
  unfold bounded, canonical_mantissa. rewrite fexp_double. intros H.
  apply andb_prop in H as [Hc He]. apply Z.eqb_eq in Hc. apply Z.leb_le in He. lia.
Qed.

Lemma bounded_float (m : positive) (e : Z) :
  bounded 24 128 m e = true ->
  -149 <= e <= 104 /\ Zpos (digits2_pos m) <= 24
  /\ (-149 < e -> Zpos (digits2_pos m) = 24).
Proof.
  unfold bounded, canonical_mantissa, fexp, emin. intros H.
  apply andb_prop in H as [Hc He]. apply Z.eqb_eq in Hc. apply Z.leb_le in He. lia.
Qed.

Lemma SF2Q_finite (s : bool) (m : positive) (e : Z) :
  SF2Q (S754_finite s m e) = (inject_Z (cond_Zopp s (Zpos m)) * Qpow2 e)%Q.
Proof. reflexivity. Qed.

Lemma SF2Q_opp (x : spec_float) : (SF2Q (SFopp x) == - SF2Q x)%Q.
Proof.
  destruct x as [s | s | | s m e]; cbn [SFopp SF2Q]; try reflexivity.
  destruct s; cbn [negb cond_Zopp]; rewrite ?inject_Z_opp; ring.
Qed.

(** An integer [M = a * 2^k] with [|a| < 2^53], at an exponent [e] inside
    the format, is normalized without rounding. *)
Lemma binary_normalize_exact (M e a k : Z) (sz : bool) :
  M = a * 2 ^ k -> 0 <= k -> Z.abs a < 2 ^ 53 -> -1074 <= e -> e + k <= 971 ->
  is_double (binary_normalize 53 1024 M e sz)
  /\ is_finite (binary_normalize 53 1024 M e sz) = true
  /\ (SF2Q (binary_normalize 53 1024 M e sz) == inject_Z M * Qpow2 e)%Q.
Proof.
  intros HM Hk Ha He Hek. pose proof (pow2_pos k Hk) as Hpk.
  assert (Hgen : forall (s : bool) (p : positive),
             Zpos p = Z.abs a * 2 ^ k ->
             is_double (binary_round 53 1024 s p e)
             /\ is_finite (binary_round 53 1024 s p e) = true
             /\ (SF2Q (binary_round 53 1024 s p e)
                 == inject_Z (cond_Zopp s (Zpos p)) * Qpow2 e)%Q).
  { intros s p Hp.
    assert (Hapos : 0 < Z.abs a) by nia.
    destruct (Z.abs a) as [|pa|pa] eqn:Eabs; try lia.
    assert (Hd : Zpos (digits2_pos p) = Zpos (digits2_pos pa) + k)
      by (apply (digits2_pos_shift pa k p); lia).
    assert (Hda : Zpos (digits2_pos pa) <= 53) by (apply digits2_pos_le; lia).
    destruct (binary_round_exact s p e) as (q & Hq & Hb & Hv).
    - rewrite fexp_double. lia.
    - rewrite fexp_double.
      destruct (Z_le_gt_dec (Z.max (Zpos (digits2_pos p) + e - 53) (-1074)) e) as [L | G];
        [now left | right].
      replace (Z.max (Zpos (digits2_pos p) + e - 53) (-1074) - e)
        with (Zpos (digits2_pos pa) + k - 53) by lia.
      exists (Zpos pa * 2 ^ (53 - Zpos (digits2_pos pa))).
      rewrite Hp, <- Z.mul_assoc, <- Z.pow_add_r by lia. f_equal. f_equal. lia.
    - rewrite Hq. split; [exact Hb|]. split; [reflexivity|].
      rewrite SF2Q_finite.
      apply (Qscaled_eq_at (Z.min e (fexp 53 1024 (Zpos (digits2_pos p) + e)))); try lia.
      rewrite !cond_Zopp_mul. now rewrite Hv. }
  destruct M as [|p|p]; cbn [binary_normalize].
  - split; [reflexivity|]. split; [reflexivity|]. cbn [SF2Q]. ring.
  - apply (Hgen false p). lia.
  - apply (Hgen true p). lia.
Qed.

Lemma shl_align_fst (mx : positive) (ex ez : Z) :
  ez <= ex -> Zpos (fst (shl_align mx ex ez)) = Zpos mx * 2 ^ (ex - ez).
Proof.
  intros H. unfold shl_align.
  destruct (ez - ex) as [|d|d] eqn:E; cbn [fst].
  - replace (ex - ez) with 0 by lia. lia.
  - lia.
  - rewrite iter_xO. f_equal. f_equal. lia.
Qed.

(** The integer the sum or difference of two finite doubles is formed
    on, at the smaller of the two exponents. *)
Lemma aligned_value (s : bool) (m : positive) (e ez : Z) :
  ez <= e ->
  (inject_Z (cond_Zopp s (Zpos (fst (shl_align m e ez)))) * Qpow2 ez
   == SF2Q (S754_finite s m e))%Q.
Proof.
  intros H. rewrite shl_align_fst by exact H. rewrite <- cond_Zopp_mul.
  rewrite Qscale by lia. replace (ez + (e - ez)) with e by lia. reflexivity.
Qed.

(** A sum or difference that lies on a grid [2^k] with fewer than 53
    significant bits is computed exactly. *)
Lemma binary_normalize_grid (M ez a k : Z) :
  (inject_Z M * Qpow2 ez == inject_Z a * Qpow2 k)%Q ->
  Z.abs a < 2 ^ 53 -> -1074 <= ez <= 971 -> k <= 971 ->
  is_double (binary_normalize 53 1024 M ez false)
  /\ is_finite (binary_normalize 53 1024 M ez false) = true
  /\ (SF2Q (binary_normalize 53 1024 M ez false) == inject_Z a * Qpow2 k)%Q.
Proof.
  intros HQ Ha Hez Hk. rewrite <- HQ.
  destruct (Z_le_gt_dec ez k) as [L | G].
  - apply (Qscaled_eq_at ez) in HQ; try lia. rewrite Z.sub_diag, Z.mul_1_r in HQ.
    apply (binary_normalize_exact M ez a (k - ez)); lia.
  - apply (Qscaled_eq_at k) in HQ; try lia. rewrite Z.sub_diag, Z.mul_1_r in HQ.
    pose proof (pow2_pos (ez - k)).
    apply (binary_normalize_exact M ez M 0); try lia; nia.
Qed.

Lemma dsub_exact (sx sy : bool) (mx my : positive) (ex ey a b k : Z) :
  let x := S754_finite sx mx ex in
  let y := S754_finite sy my ey in
  bounded 53 1024 mx ex = true -> bounded 53 1024 my ey = true ->
  (SF2Q x == inject_Z a * Qpow2 k)%Q -> (SF2Q y == inject_Z b * Qpow2 k)%Q ->
  Z.abs (a - b) < 2 ^ 53 -> k <= 971 ->
  is_double (dsub x y) /\ is_finite (dsub x y) = true
  /\ (SF2Q (dsub x y) == SF2Q x - SF2Q y)%Q.
Proof.
  intros x y Hbx Hby Hx Hy Hab Hk.
  apply bounded_double in Hbx as (Hex & _). apply bounded_double in Hby as (Hey & _).
  assert (E : (SF2Q x - SF2Q y == inject_Z (a - b) * Qpow2 k)%Q).
  { rewrite Hx, Hy. unfold Z.sub. rewrite inject_Z_plus, inject_Z_opp. ring. }
  rewrite E. unfold dsub, x, y. cbn [SFsub].
  apply binary_normalize_grid; try lia.
  rewrite <- E. subst x y. unfold Z.sub at 1. rewrite inject_Z_plus, inject_Z_opp.
  rewrite <- (aligned_value sx mx ex (Z.min ex ey)), <- (aligned_value sy my ey (Z.min ex ey)) by lia.
  ring.
Qed.

Lemma dadd_exact (sx sy : bool) (mx my : positive) (ex ey a b k : Z) :
  let x := S754_finite sx mx ex in
  let y := S754_finite sy my ey in
  bounded 53 1024 mx ex = true -> bounded 53 1024 my ey = true ->
  (SF2Q x == inject_Z a * Qpow2 k)%Q -> (SF2Q y == inject_Z b * Qpow2 k)%Q ->
  Z.abs (a + b) < 2 ^ 53 -> k <= 971 ->
  is_double (dadd x y) /\ is_finite (dadd x y) = true
  /\ (SF2Q (dadd x y) == SF2Q x + SF2Q y)%Q.
Proof.
  intros x y Hbx Hby Hx Hy Hab Hk.
  apply bounded_double in Hbx as (Hex & _). apply bounded_double in Hby as (Hey & _).
  assert (E : (SF2Q x + SF2Q y == inject_Z (a + b) * Qpow2 k)%Q).
  { rewrite Hx, Hy. rewrite inject_Z_plus. ring. }
  rewrite E. unfold dadd, x, y. cbn [SFadd].
  apply binary_normalize_grid; try lia.
  rewrite <- E. subst x y. rewrite inject_Z_plus.
  rewrite <- (aligned_value sx mx ex (Z.min ex ey)), <- (aligned_value sy my ey (Z.min ex ey)) by lia.
  ring.
Qed.

(** ** Conversions *)

Lemma int_of_double_trunc (s : bool) (m : positive) (e : Z) :
  cond_Zopp s (Z.shiftl (Zpos m) e) = Qtrunc (SF2Q (S754_finite s m e)).
Proof.
  rewrite SF2Q_finite. destruct (Z_le_gt_dec 0 e) as [L | G].
  - rewrite Z.shiftl_mul_pow2 by lia.
    assert (E : (inject_Z (cond_Zopp s (Zpos m)) * Qpow2 e
                 == inject_Z (cond_Zopp s (Zpos m) * 2 ^ e))%Q).
    { rewrite inject_Z_mult, Qpow2_inject by lia. reflexivity. }
    rewrite (Qtrunc_comp _ _ E), Qtrunc_inject. now rewrite cond_Zopp_mul.
  - rewrite Z.shiftl_div_pow2 by lia.
    replace e with (- (- e)) at 2 by lia. rewrite Qtrunc_scaled by lia.
    pose proof (pow2_pos (- e)).
    destruct s; cbn [cond_Zopp].
    + rewrite Z.quot_opp_l by lia. now rewrite Z.quot_div_nonneg by lia.
    + now rewrite Z.quot_div_nonneg by lia.
Qed.

(** [(int) x] is the truncation of the value of [x], when that fits. *)
Lemma int_of_double_spec (x : spec_float) :
  is_finite x = true ->
  int_of_double x =
    if (INT_MIN <=? Qtrunc (SF2Q x)) && (Qtrunc (SF2Q x) <=? INT_MAX)
    then Some (Qtrunc (SF2Q x)) else None.
Proof.
  destruct x as [s | s | | s m e]; cbn [is_finite]; try discriminate; intros _.
  - reflexivity.
  - unfold int_of_double. now rewrite int_of_double_trunc.
Qed.

Lemma Qtrunc_nonneg (q : Q) : (0 <= q)%Q -> Qtrunc q = Qfloor q.
Proof.
  destruct q as [a b]. unfold Qle, Qtrunc, Qfloor. cbn [Qnum Qden]. intros H.
  apply Z.quot_div_nonneg; lia.
Qed.

Lemma Qtrunc_bounds (q : Q) (n : Z) :
  (0 <= q)%Q -> (q <= inject_Z n)%Q -> 0 <= Qtrunc q <= n.
Proof.
  intros H0 Hn. rewrite Qtrunc_nonneg by exact H0. split.
  - rewrite <- (Qfloor_Z 0). now apply Qfloor_resp_le.
  - rewrite <- (Qfloor_Z n). now apply Qfloor_resp_le.
Qed.

(** A finite [float] converts to the [double] of the same value. *)
Lemma double_of_float_finite (s : bool) (m : positive) (e : Z) :
  bounded 24 128 m e = true ->
  exists (q : positive) (e' : Z),
    double_of_float (S754_finite s m e) = S754_finite s q e'
    /\ bounded 53 1024 q e' = true
    /\ e' = Zpos (digits2_pos m) + e - 53
    /\ Zpos q = Zpos m * 2 ^ (e - e').
Proof.
  intros Hb. apply bounded_float in Hb as (He & Hd & _).
  pose proof (Pos2Z.is_pos (digits2_pos m)) as Hd0.
  destruct (binary_round_exact s m e) as (q & Hq & Hbq & Hv).
  - rewrite fexp_double. lia.
  - left. rewrite fexp_double. lia.
  - rewrite fexp_double in Hq, Hbq, Hv.
    replace (Z.max (Zpos (digits2_pos m) + e - 53) (-1074))
      with (Zpos (digits2_pos m) + e - 53) in Hq, Hbq, Hv by lia.
    exists q, (Zpos (digits2_pos m) + e - 53). cbn [double_of_float].
    split; [exact Hq|]. split; [exact Hbq|]. split; [reflexivity|].
    rewrite Z.min_r, Z.sub_diag in Hv by lia. lia.
Qed.

Lemma xeq_refl (a : xreal) : xeq a a.
Proof. destruct a; cbn; reflexivity || exact I. Qed.

Lemma double_of_float_x (x : spec_float) :
  is_float x -> is_double (double_of_float x) /\ xeq (SF2X (double_of_float x)) (SF2X x).
Proof.
  destruct x as [s | s | | s m e]; intros Hx; try (split; [reflexivity | apply xeq_refl]).
  destruct (double_of_float_finite s m e Hx) as (q & e' & Hq & Hb & He' & Hv).
  rewrite Hq. split; [exact Hb|]. cbn [SF2X xeq SF2Q].
  apply bounded_float in Hx as (He & Hd & _).
  apply (Qscaled_eq_at e'); try lia.
  rewrite Z.sub_diag, Z.mul_1_r, cond_Zopp_mul. now rewrite Hv.
Qed.

(** ** Order *)

Lemma Qzero_scaled (e : Z) : (0 == inject_Z 0 * Qpow2 e)%Q.
Proof. ring. Qed.

Lemma SF2Q_pos (s : bool) (m : positive) (e : Z) :
  (0 < SF2Q (S754_finite s m e))%Q <-> s = false.
Proof.
  rewrite SF2Q_finite, (Qzero_scaled e), Qscaled_lt.
  destruct s; cbn [cond_Zopp]; split; intros H; try lia; discriminate.
Qed.

Lemma SF2Q_neg (s : bool) (m : positive) (e : Z) :
  (SF2Q (S754_finite s m e) < 0)%Q <-> s = true.
Proof.
  rewrite SF2Q_finite, (Qzero_scaled e), Qscaled_lt.
  destruct s; cbn [cond_Zopp]; split; intros H; try lia; discriminate.
Qed.

Lemma mantissa_range (m : positive) (e : Z) :
  bounded 53 1024 m e = true ->
  Zpos m < 2 ^ 53 /\ (-1074 < e -> 2 ^ 52 <= Zpos m).
Proof.
  intros H. apply bounded_double in H as (He & Hd & Hn).
  pose proof (digits2_pos_bounds m) as [Bl Bu]. split.
  - pose proof (pow2_le_mono (Zpos (digits2_pos m)) 53). lia.
  - intros L. rewrite (Hn L) in Bl. exact Bl.
Qed.

(** On valid doubles the comparison of the bit patterns is the
    comparison of the values. *)
Lemma SFltb_finite (s1 s2 : bool) (m1 m2 : positive) (e1 e2 : Z) :
  bounded 53 1024 m1 e1 = true -> bounded 53 1024 m2 e2 = true ->
  SFltb (S754_finite s1 m1 e1) (S754_finite s2 m2 e2) = true
  <-> (SF2Q (S754_finite s1 m1 e1) < SF2Q (S754_finite s2 m2 e2))%Q.
Proof.
  intros H1 H2.
  pose proof (mantissa_range m1 e1 H1) as [U1 N1].
  pose proof (mantissa_range m2 e2 H2) as [U2 N2].
  apply bounded_double in H1 as (He1 & _). apply bounded_double in H2 as (He2 & _).
  rewrite !SF2Q_finite, (Qscaled_lt_at (Z.min e1 e2)) by lia.
  unfold SFltb, SFcompare. fold (Pos.compare m1 m2).
  destruct (Z.compare_spec e1 e2) as [E | L | G].
  - subst e2. rewrite Z.min_id, Z.sub_diag, !Z.mul_1_r.
    destruct s1, s2; cbn [cond_Zopp]; try (split; [discriminate | lia]);
      try (split; [lia | reflexivity]).
    + rewrite <- (Pos.compare_antisym m1 m2).
      destruct (Pos.compare_spec m2 m1); split; intros; try discriminate; try lia; reflexivity.
    + destruct (Pos.compare_spec m1 m2); split; intros; try discriminate; try lia; reflexivity.
  - rewrite Z.min_l, Z.sub_diag, Z.mul_1_r by lia.
    pose proof (pow2_le_mono 1 (e2 - e1)). change (2 ^ 1) with 2 in *.
    destruct s1, s2; cbn [cond_Zopp]; split; intros; try discriminate; try reflexivity; nia.
  - rewrite Z.min_r, Z.sub_diag, Z.mul_1_r by lia.
    pose proof (pow2_le_mono 1 (e1 - e2)). change (2 ^ 1) with 2 in *.
    destruct s1, s2; cbn [cond_Zopp]; split; intros; try discriminate; try reflexivity; nia.
Qed.

Lemma SFltb_spec (x y : spec_float) :
  is_double x -> is_double y ->
  SFltb x y = true <-> xlt (SF2X x) (SF2X y).
Proof.
  intros Hx Hy.
  destruct x as [sx | sx | | sx mx ex], y as [sy | sy | | sy my ey];
    try (now apply SFltb_finite);
    cbn [SF2X xlt]; unfold SFltb; cbn [SFcompare];
    try (destruct sx); try (destruct sy);
    try (split; [discriminate | exact (fun H : False => match H with end)]);
    try (split; [intros _; exact I | reflexivity]).
  all: try (change (SF2Q (S754_zero true)) with 0%Q);
       try (change (SF2Q (S754_zero false)) with 0%Q);
       rewrite ?SF2Q_pos, ?SF2Q_neg;
       try (split; [discriminate | intros H; try discriminate H; now apply Qlt_irrefl in H]);
       try (split; reflexivity).
Qed.

End FpFacts.

(** ** The bounding box and the pixel address *)
Module Envelope.
Import Fp Machine Dem Examples FpFacts.

Lemma Qscaled_le_at (k a ea b eb : Z) :
  k <= ea -> k <= eb ->
  (inject_Z a * Qpow2 ea <= inject_Z b * Qpow2 eb)%Q
  <-> a * 2 ^ (ea - k) <= b * 2 ^ (eb - k).
Proof.
  intros Ha Hb. split; intros H.
  - apply Z.le_ngt. intros C. apply (Qscaled_lt_at k) in C; try lia.
    now apply Qlt_not_le in C.
  - apply Qnot_lt_le. intros C. apply (Qscaled_lt_at k) in C; try lia.
Qed.

Lemma Qint (z : Z) : (inject_Z z == inject_Z z * Qpow2 0)%Q.
Proof. unfold Qpow2. cbn. ring. Qed.

Lemma xlt_compat (a a' b b' : xreal) :
  xeq a a' -> xeq b b' -> xlt a b <-> xlt a' b'.
Proof.
  destruct a as [|sa|p], a' as [|sa'|p'], b as [|sb|q], b' as [|sb'|q'];
    cbn [xeq xlt]; intros Ha Hb; try contradiction; subst; try reflexivity.
  now rewrite Ha, Hb.
Qed.

(** The constants of the bounding box. *)
Lemma const_m8 : double_of_Z (-8) = S754_finite true 4503599627370496 (-49).
Proof. reflexivity. Qed.
Lemma const_m48 : double_of_Z (-48) = S754_finite true 6755399441055744 (-47).
Proof. reflexivity. Qed.
Lemma const_108 : double_of_Z 108 = S754_finite false 7599824371187712 (-46).
Proof. reflexivity. Qed.
Lemma const_158 : double_lit 15799999999 100000000 = S754_finite false 5559130789683612 (-45).
Proof. vm_compute. reflexivity. Qed.

Lemma value_m8 : (SF2Q (double_of_Z (-8)) == -8)%Q.
Proof. vm_compute. reflexivity. Qed.
Lemma value_m48 : (SF2Q (double_of_Z (-48)) == -48)%Q.
Proof. vm_compute. reflexivity. Qed.
Lemma value_108 : (SF2Q (double_of_Z 108) == 108)%Q.
Proof. vm_compute. reflexivity. Qed.
Lemma value_158 :
  (inject_Z (158 * 2 ^ 16 - 1) * Qpow2 (-16) < SF2Q (double_lit 15799999999 100000000))%Q
  /\ (SF2Q (double_lit 15799999999 100000000) < inject_Z 158 * Qpow2 0)%Q.
Proof. split; vm_compute; reflexivity. Qed.

Lemma decimal_158 :
  (inject_Z (158 * 2 ^ 16 - 1) * Qpow2 (-16) < 15799999999 # 100000000)%Q
  /\ (15799999999 # 100000000 < inject_Z 158 * Qpow2 0)%Q.
Proof. split; vm_compute; reflexivity. Qed.

Lemma mantissa_range_float (m : positive) (e : Z) :
  bounded 24 128 m e = true ->
  Zpos m < 2 ^ 24 /\ (-149 < e -> 2 ^ 23 <= Zpos m).
Proof.
  intros H. apply bounded_float in H as (He & Hd & Hn).
  pose proof (digits2_pos_bounds m) as [Bl Bu]. split.
  - pose proof (pow2_le_mono (Zpos (digits2_pos m)) 24). lia.
  - intros L. rewrite (Hn L) in Bl. exact Bl.
Qed.

(** No [float] lies strictly between [158 - 2^-16] and [158]. *)
Lemma float_gap_158 (s : bool) (m : positive) (e : Z) :
  bounded 24 128 m e = true ->
  (SF2Q (S754_finite s m e) <= inject_Z (158 * 2 ^ 16 - 1) * Qpow2 (-16))%Q
  \/ (inject_Z 158 * Qpow2 0 <= SF2Q (S754_finite s m e))%Q.
Proof.
  intros Hb. pose proof (mantissa_range_float m e Hb) as [Hu Hn].
  apply bounded_float in Hb as (He & _). rewrite SF2Q_finite.
  destruct s; cbn [cond_Zopp].
  - left. pose proof (pow2_pos (e - Z.min e (-16))). pose proof (pow2_pos (-16 - Z.min e (-16))).
    change (158 * 2 ^ 16 - 1) with 10354687.
    apply (Qscaled_le_at (Z.min e (-16))); try lia; nia.
  - change (2 ^ 24) with 16777216 in Hu. change (2 ^ 23) with 8388608 in Hn.
    change (158 * 2 ^ 16 - 1) with 10354687.
    destruct (Z_le_gt_dec e (-17)) as [L | G].
    + left. pose proof (pow2_le_mono 1 (-16 - e)). change (2 ^ 1) with 2 in *.
      apply (Qscaled_le_at e); try lia; rewrite Z.sub_diag, Z.mul_1_r; nia.
    + destruct (Z.eq_dec e (-16)) as [E | N].
      * subst e. destruct (Z_le_gt_dec (Zpos m) 10354687) as [L' | G'].
        -- left. apply (Qscaled_le_at (-16)); lia.
        -- right. apply (Qscaled_le_at (-16)); try lia; change (2 ^ (0 - -16)) with 65536; lia.
      * right. pose proof (pow2_le_mono 1 (e - -16)). change (2 ^ 1) with 2 in *.
        apply (Qscaled_le_at (-16)); try lia; change (2 ^ (0 - -16)) with 65536; nia.
Qed.

Lemma gap_switch (lo hi c v : Q) :
  (lo < c)%Q -> (c < hi)%Q -> (v <= lo)%Q \/ (hi <= v)%Q -> (c < v)%Q <-> (hi <= v)%Q.
Proof.
  intros Hlo Hhi [H | H]; split; intros K.
  - exfalso. apply (Qlt_irrefl c). apply Qlt_le_trans with v; [exact K|].
    apply Qle_trans with lo; [exact H|]. now apply Qlt_le_weak.
  - exfalso. apply (Qlt_irrefl hi). apply Qle_lt_trans with v; [exact K|].
    apply Qle_lt_trans with lo; [exact H|]. now apply Qlt_trans with c.
  - exact H.
  - now apply Qlt_le_trans with hi.
Qed.

(** For a [float], being above the [double] nearest to 157.99999999 and
    being above 157.99999999 itself are the same: both mean "at least 158". *)
Lemma above_158 (x : spec_float) :
  is_float x ->
  xlt (Xfin (SF2Q (double_lit 15799999999 100000000))) (SF2X x)
  <-> xlt (Xfin (15799999999 # 100000000)) (SF2X x).
Proof.
  intros Hx. destruct x as [s | s | | s m e]; cbn [SF2X xlt]; try reflexivity.
  pose proof (float_gap_158 s m e Hx) as G.
    destruct value_158 as [A1 A2]. destruct decimal_158 as [B1 B2].
    rewrite (gap_switch _ _ _ _ A1 A2 G), (gap_switch _ _ _ _ B1 B2 G). reflexivity.
Qed.

Lemma latOutside_spec (Lat : spec_float) (g : Gtif) :
  is_float Lat ->
  latOutside Lat (assumedBox g) = true
  <-> xlt (Xfin (-8)) (SF2X Lat) \/ xlt (SF2X Lat) (Xfin (-48)).
Proof.
  intros HL. destruct (double_of_float_x Lat HL) as [Hd Hv].
  unfold latOutside, dgt, dlt.
  change (c1 (UL (assumedBox g))) with (double_of_Z (-8)).
  change (c1 (LR (assumedBox g))) with (double_of_Z (-48)).
  rewrite orb_true_iff, !SFltb_spec by (exact Hd || reflexivity).
  rewrite (xlt_compat (SF2X (double_of_Z (-8))) (Xfin (-8)) _ (SF2X Lat)) by (exact Hv || exact value_m8).
  rewrite (xlt_compat _ (SF2X Lat) (SF2X (double_of_Z (-48))) (Xfin (-48))) by (exact Hv || exact value_m48).
  reflexivity.
Qed.

Lemma longOutside_spec (Long : spec_float) (g : Gtif) :
  is_float Long ->
  longOutside Long (assumedBox g) = true
  <-> xlt (SF2X Long) (Xfin 108) \/ xlt (Xfin (15799999999 # 100000000)) (SF2X Long).
Proof.
  intros HL. destruct (double_of_float_x Long HL) as [Hd Hv].
  unfold longOutside, dgt, dlt.
  change (c0 (UL (assumedBox g))) with (double_of_Z 108).
  change (c0 (LR (assumedBox g))) with (double_lit 15799999999 100000000).
  rewrite orb_true_iff, !SFltb_spec by (exact Hd || (rewrite ?const_158; reflexivity)).
  rewrite (xlt_compat _ (SF2X Long) (SF2X (double_of_Z 108)) (Xfin 108)) by (exact Hv || exact value_108).
  rewrite <- (above_158 Long HL).
  rewrite (xlt_compat (SF2X (double_lit 15799999999 100000000))
             (Xfin (SF2Q (double_lit 15799999999 100000000))) _ (SF2X Long)).
  - reflexivity.
  - rewrite const_158. cbn [SF2X xeq]. reflexivity.
  - exact Hv.
Qed.

Lemma outsideBox_spec (Lat Long : spec_float) (g : Gtif) :
  is_float Lat -> is_float Long ->
  latOutside Lat (assumedBox g) || longOutside Long (assumedBox g) = true
  <-> outsideBox (SF2X Lat) (SF2X Long).
Proof.
  intros HLat HLong. unfold outsideBox.
  rewrite orb_true_iff, latOutside_spec, longOutside_spec by assumption. tauto.
Qed.

Lemma fails_with_exit {A} (n : Z) (s : state) (d : diagnostic) :
  fails_with (@Exit A n (log (EvStderr d) s)) (error_kind d) n.
Proof. exists (log (EvStderr d) s), d. cbn [log trace]. now rewrite last_snoc. Qed.

Lemma checkLatLong_run (Lat Long : spec_float) (s : state) :
  checkLatLong Lat Long s =
    if latOutside Lat (DEM_Gtif s) then Exit 1 (log (EvStderr (LatOutOfRange Lat)) s)
    else if longOutside Long (DEM_Gtif s) then Exit 1 (log (EvStderr (LongOutOfRange Long)) s)
    else Ret tt s.
Proof.
  unfold checkLatLong, bind, deref.
  destruct (latOutside Lat (DEM_Gtif s)); [reflexivity|].
  destruct (longOutside Long (DEM_Gtif s)); reflexivity.
Qed.

Lemma main_after_setup (sizeof_ptr jw jh elapsed : Z) (argv1 : string)
    (Lat Long : spec_float) (s0 s1 : state) (b : bool) :
  setupGtif sizeof_ptr jw jh AddrOf_DEM_Gtif (Some argv1) (set_verbose true s0) = Ret b s1 ->
  main sizeof_ptr jw jh elapsed argv1 Lat Long s0 =
    lookupElevation elapsed Lat Long (set_DEM_Gtif (assumedBox (DEM_Gtif s1)) s1).
Proof.
  intros H. unfold main. unfold bind at 1. unfold bind at 1. rewrite H.
  unfold bind at 1. unfold assign at 1. reflexivity.
Qed.

Lemma lookupElevation_exit (elapsed : Z) (Lat Long : spec_float) (s s' : state) (n : Z) :
  checkLatLong Lat Long s = Exit n s' -> lookupElevation elapsed Lat Long s = Exit n s'.
Proof. intros H. unfold lookupElevation. unfold bind at 1. now rewrite H. Qed.

(** C4: the geographic range check fails, as an out-of-range error that
    ends the process with status 1, exactly when the latitude is above
    -8 or below -48, or the longitude is below 108 or above
    157.99999999; the corner (-8, 108) is accepted.  [Lat] and [Long]
    are the [float]s read from the command line, and the session is the
    one [main] has after [setupGtif] returned. *)
Theorem geographic_range_check (sizeof_ptr jw jh elapsed : Z) (argv1 : string)
    (Lat Long : spec_float) (s0 s1 : state) (b : bool) :
  is_float Lat -> is_float Long ->
  setupGtif sizeof_ptr jw jh AddrOf_DEM_Gtif (Some argv1) (set_verbose true s0) = Ret b s1 ->
  let s := set_DEM_Gtif (assumedBox (DEM_Gtif s1)) s1 in
  (fails_with (checkLatLong Lat Long s) OutOfRangeError 1
   <-> outsideBox (SF2X Lat) (SF2X Long))
  /\ (outsideBox (SF2X Lat) (SF2X Long) ->
      fails_with (main sizeof_ptr jw jh elapsed argv1 Lat Long s0) OutOfRangeError 1)
  /\ (~ outsideBox (SF2X Lat) (SF2X Long) -> checkLatLong Lat Long s = Ret tt s)
  /\ ~ outsideBox (SF2X (float_of_Z (-8))) (SF2X (float_of_Z 108)).
Proof.
  intros HLat HLong Hsetup s.
  pose proof (outsideBox_spec Lat Long (DEM_Gtif s1) HLat HLong) as Hspec.
  assert (Hrun := checkLatLong_run Lat Long s).
  change (DEM_Gtif s) with (assumedBox (DEM_Gtif s1)) in Hrun.
  assert (Hout : outsideBox (SF2X Lat) (SF2X Long) ->
                 fails_with (checkLatLong Lat Long s) OutOfRangeError 1).
  { intros Ho. apply Hspec in Ho. rewrite Hrun.
    destruct (latOutside Lat (assumedBox (DEM_Gtif s1))).
    - apply (fails_with_exit 1 s (LatOutOfRange Lat)).
    - cbn [orb] in Ho. rewrite Ho. apply (fails_with_exit 1 s (LongOutOfRange Long)). }
  assert (Hin : ~ outsideBox (SF2X Lat) (SF2X Long) -> checkLatLong Lat Long s = Ret tt s).
  { intros Hn. rewrite Hrun.
    destruct (latOutside Lat (assumedBox (DEM_Gtif s1))) eqn:E1;
      [exfalso; apply Hn, Hspec; reflexivity|].
    destruct (longOutside Long (assumedBox (DEM_Gtif s1))) eqn:E2;
      [exfalso; apply Hn, Hspec; reflexivity|].
    reflexivity. }
  split; [|split; [|split]].
  - split; [|exact Hout]. intros (s' & d & He & _).
    destruct (latOutside Lat (assumedBox (DEM_Gtif s1)) || longOutside Long (assumedBox (DEM_Gtif s1))) eqn:E.
    + now apply Hspec.
    + rewrite Hin in He; [discriminate|]. intros Ho. apply Hspec in Ho. congruence.
  - intros Ho. rewrite (main_after_setup _ _ _ _ _ _ _ _ _ _ Hsetup). fold s.
    destruct (Hout Ho) as (s' & d & He & Hl & Hk).
    rewrite (lookupElevation_exit _ _ _ _ _ _ He). exists s', d. auto.
  - exact Hin.
  - intros Ho. apply (outsideBox_spec _ _ (DEM_Gtif s1)) in Ho; [discriminate Ho | reflexivity | reflexivity].
Qed.

Lemma int_of_double_small (r : spec_float) (q : Q) (n : Z) :
  is_finite r = true -> (SF2Q r == q)%Q -> (0 <= q)%Q -> (q <= inject_Z n)%Q ->
  n <= INT_MAX -> int_of_double r = Some (Qtrunc q).
Proof.
  intros Hf Hq H0 Hn Hmax. rewrite (int_of_double_spec r Hf), (Qtrunc_comp _ _ Hq).
  pose proof (Qtrunc_bounds q n H0 Hn) as [B0 Bn].
  unfold INT_MIN, INT_MAX in *.
  replace (- 2 ^ 31 <=? Qtrunc q) with true by (symmetry; apply Z.leb_le; lia).
  replace (Qtrunc q <=? 2 ^ 31 - 1) with true by (symmetry; apply Z.leb_le; lia).
  reflexivity.
Qed.

(** A [float] minus a [double] constant on the same grid [2^k] is exact. *)
Lemma dsub_float_const (s sc : bool) (m mc : positive) (e ec k a b : Z) :
  bounded 24 128 m e = true -> bounded 53 1024 mc ec = true ->
  (SF2Q (S754_finite s m e) == inject_Z a * Qpow2 k)%Q ->
  (SF2Q (S754_finite sc mc ec) == inject_Z b * Qpow2 k)%Q ->
  Z.abs (a - b) < 2 ^ 53 -> k <= 971 ->
  let r := dsub (double_of_float (S754_finite s m e)) (S754_finite sc mc ec) in
  is_finite r = true
  /\ (SF2Q r == SF2Q (S754_finite s m e) - SF2Q (S754_finite sc mc ec))%Q.
Proof.
  intros Hb Hbc Ha Hc Hab Hk r.
  destruct (double_of_float_x (S754_finite s m e) Hb) as [_ Hv].
  destruct (double_of_float_finite s m e Hb) as (q & e' & Hq & Hbq & _ & _).
  subst r. rewrite Hq in *. cbn [SF2X xeq] in Hv.
  destruct (dsub_exact s sc q mc e' ec a b k) as (_ & Hf & Hs); try assumption.
  - now rewrite Hv.
  - split; [exact Hf|]. now rewrite Hs, Hv.
Qed.

(** A [float] of magnitude at least [2^(k+24)] is a multiple of [2^k]. *)
Lemma float_on_grid (s : bool) (m : positive) (e k : Z) :
  bounded 24 128 m e = true ->
  (inject_Z (2 ^ 24) * Qpow2 k <= inject_Z (Zpos m) * Qpow2 e)%Q ->
  k <= e /\ (SF2Q (S754_finite s m e)
             == inject_Z (cond_Zopp s (Zpos m) * 2 ^ (e - k)) * Qpow2 k)%Q.
Proof.
  intros Hb Hle. pose proof (mantissa_range_float m e Hb) as [Hu _].
  assert (Hk : k <= e).
  { destruct (Z_le_gt_dec k e) as [L | G]; [exact L | exfalso].
    apply (Qscaled_le_at e) in Hle; try lia. rewrite Z.sub_diag, Z.mul_1_r in Hle.
    pose proof (pow2_le_mono 0 (k - e)). change (2 ^ 0) with 1 in *. nia. }
  split; [exact Hk|]. rewrite SF2Q_finite, Qscale by lia.
  now replace (k + (e - k)) with e by lia.
Qed.

Lemma calcLineNo_exact (Lat : spec_float) (g0 : Gtif) :
  is_float Lat -> Lat <> S754_nan ->
  latOutside Lat (assumedBox g0) = false ->
  calcLineNo Lat (assumedBox g0)
  = Some (Qtrunc (- (SF2Q Lat - SF2Q (c1 (UL (assumedBox g0)))))).
Proof.
  intros HL Hnan Hin.
  assert (Hspec := latOutside_spec Lat g0 HL).
  assert (Hin' : ~ (xlt (Xfin (-8)) (SF2X Lat) \/ xlt (SF2X Lat) (Xfin (-48))))
    by (rewrite <- Hspec, Hin; discriminate).
  unfold calcLineNo. change (c1 (UL (assumedBox g0))) with (double_of_Z (-8)).
  destruct Lat as [s | s | | s m e].
  - exfalso. apply Hin'. left. cbn. reflexivity.
  - exfalso. apply Hin'. destruct s; [right | left]; exact I.
  - congruence.
  - cbn [SF2X xlt] in Hin'.
    assert (Hhi : (SF2Q (S754_finite s m e) <= -8)%Q) by (apply Qnot_lt_le; tauto).
    assert (Hlo : (-48 <= SF2Q (S754_finite s m e))%Q) by (apply Qnot_lt_le; tauto).
    assert (Hs : s = true).
    { apply (proj1 (SF2Q_neg s m e)). apply Qle_lt_trans with (-8)%Q; [exact Hhi | reflexivity]. }
    subst s.
    destruct (float_on_grid true m e (-21) HL) as [Hk Hgrid].
    { rewrite SF2Q_finite in Hhi. cbn [cond_Zopp] in Hhi.
      change (Z.neg m) with (- Zpos m) in Hhi. rewrite inject_Z_opp in Hhi.
      assert (E : (inject_Z (2 ^ 24) * Qpow2 (-21) == 8)%Q) by (vm_compute; reflexivity).
      rewrite E. lra. }
    set (a := cond_Zopp true (Zpos m) * 2 ^ (e - -21)) in *.
    assert (Hc : (SF2Q (S754_finite true 4503599627370496 (-49))
                  == inject_Z (-8 * 2 ^ 21) * Qpow2 (-21))%Q) by (vm_compute; reflexivity).
    assert (Ha : -48 * 2 ^ 21 <= a <= -8 * 2 ^ 21).
    { split.
      - assert (H : (inject_Z (-48) * Qpow2 0 <= inject_Z a * Qpow2 (-21))%Q)
          by (rewrite <- Hgrid, <- Qint; exact Hlo).
        apply (Qscaled_le_at (-21)) in H; lia.
      - assert (H : (inject_Z a * Qpow2 (-21) <= inject_Z (-8) * Qpow2 0)%Q)
          by (rewrite <- Hgrid, <- Qint; exact Hhi).
        apply (Qscaled_le_at (-21)) in H; lia. }
    rewrite const_m8.
    destruct (dsub_float_const true true m 4503599627370496 e (-49) (-21) a (-8 * 2 ^ 21))
      as [Hf Hv]; try assumption; try reflexivity; try lia.
    eapply (int_of_double_small _ _ 40).
    + destruct (dsub _ _); try discriminate; reflexivity.
    + unfold dneg. rewrite SF2Q_opp, Hv. reflexivity.
    + assert (E : (SF2Q (S754_finite true 4503599627370496 (-49)) == -8)%Q) by (vm_compute; reflexivity).
      rewrite E. lra.
    + assert (E : (SF2Q (S754_finite true 4503599627370496 (-49)) == -8)%Q) by (vm_compute; reflexivity).
      rewrite E. change (inject_Z 40) with 40%Q. lra.
    + unfold INT_MAX. lia.
Qed.

Lemma calcPixelNo_exact (Long : spec_float) (g0 : Gtif) :
  is_float Long -> Long <> S754_nan ->
  longOutside Long (assumedBox g0) = false ->
  calcPixelNo Long (assumedBox g0)
  = Some (Qtrunc (SF2Q Long - SF2Q (c0 (LL (assumedBox g0))))).
Proof.
  intros HL Hnan Hin.
  assert (Hspec := longOutside_spec Long g0 HL).
  assert (Hin' : ~ (xlt (SF2X Long) (Xfin 108)
                    \/ xlt (Xfin (15799999999 # 100000000)) (SF2X Long)))
    by (rewrite <- Hspec, Hin; discriminate).
  unfold calcPixelNo. change (c0 (LL (assumedBox g0))) with (double_of_Z 108).
  destruct Long as [s | s | | s m e].
  - exfalso. apply Hin'. left. cbn. reflexivity.
  - exfalso. apply Hin'. destruct s; [left | right]; exact I.
  - congruence.
  - cbn [SF2X xlt] in Hin'.
    assert (Hlo : (108 <= SF2Q (S754_finite s m e))%Q) by (apply Qnot_lt_le; tauto).
    assert (Hhi : (SF2Q (S754_finite s m e) <= 158)%Q).
    { apply Qle_trans with (15799999999 # 100000000)%Q; [apply Qnot_lt_le; tauto|].
      vm_compute. discriminate. }
    assert (Hs : s = false).
    { apply (proj1 (SF2Q_pos s m e)). apply Qlt_le_trans with 108%Q; [reflexivity | exact Hlo]. }
    subst s.
    destruct (float_on_grid false m e (-18) HL) as [Hk Hgrid].
    { rewrite SF2Q_finite in Hlo. cbn [cond_Zopp] in Hlo.
      assert (E : (inject_Z (2 ^ 24) * Qpow2 (-18) == 64)%Q) by (vm_compute; reflexivity).
      rewrite E. lra. }
    set (a := cond_Zopp false (Zpos m) * 2 ^ (e - -18)) in *.
    assert (Ha : 108 * 2 ^ 18 <= a <= 158 * 2 ^ 18).
    { split.
      - assert (H : (inject_Z 108 * Qpow2 0 <= inject_Z a * Qpow2 (-18))%Q)
          by (rewrite <- Hgrid, <- Qint; exact Hlo).
        apply (Qscaled_le_at (-18)) in H; lia.
      - assert (H : (inject_Z a * Qpow2 (-18) <= inject_Z 158 * Qpow2 0)%Q)
          by (rewrite <- Hgrid, <- Qint; exact Hhi).
        apply (Qscaled_le_at (-18)) in H; lia. }
    rewrite const_108.
    assert (E : (SF2Q (S754_finite false 7599824371187712 (-46)) == 108)%Q)
      by (vm_compute; reflexivity).
    destruct (dsub_float_const false false m 7599824371187712 e (-46) (-18) a (108 * 2 ^ 18))
      as [Hf Hv]; try assumption; try reflexivity; try lia.
    apply (int_of_double_small _ _ 50).
    + exact Hf.
    + exact Hv.
    + rewrite E. lra.
    + rewrite E. change (inject_Z 50) with 50%Q. lra.
    + unfold INT_MAX. lia.
Qed.

(** A NaN has no row and no column: its conversion to [int] is
    undefined. *)
Lemma calcLineNo_nan (g0 : Gtif) : calcLineNo S754_nan (assumedBox g0) = None.
Proof. reflexivity. Qed.
Lemma calcPixelNo_nan (g0 : Gtif) : calcPixelNo S754_nan (assumedBox g0) = None.
Proof. reflexivity. Qed.

(** C1, amended: for every pair of numbers that passes the geographic
    range check, the row is the truncation toward zero of
    [-(lat - upper-left latitude)] and the column the truncation toward
    zero of [long - lower-left longitude]; (-8, 108) gives row 0, column
    0, and (-9, 109) gives row 1, column 1.  A NaN fails no comparison
    of the range check, and has no row or column: its conversion to
    [int] is undefined. *)
Theorem pixel_address (Lat Long : spec_float) (g0 : Gtif) :
  let g := assumedBox g0 in
  is_float Lat -> is_float Long ->
  ~ outsideBox (SF2X Lat) (SF2X Long) ->
  (Lat <> S754_nan -> Long <> S754_nan ->
   calcLineNo Lat g = Some (Qtrunc (- (SF2Q Lat - SF2Q (c1 (UL g)))))
   /\ calcPixelNo Long g = Some (Qtrunc (SF2Q Long - SF2Q (c0 (LL g)))))
  /\ (latOutside S754_nan g = false /\ longOutside S754_nan g = false)
  /\ (Lat = S754_nan -> calcLineNo Lat g = None)
  /\ (Long = S754_nan -> calcPixelNo Long g = None)
  /\ (calcLineNo (float_of_Z (-8)) g = Some 0 /\ calcPixelNo (float_of_Z 108) g = Some 0)
  /\ (calcLineNo (float_of_Z (-9)) g = Some 1 /\ calcPixelNo (float_of_Z 109) g = Some 1).
Proof.
  intros g HLat HLong Hin.
  assert (Hb : latOutside Lat g || longOutside Long g = false).
  { destruct (latOutside Lat g || longOutside Long g) eqn:E; [|reflexivity].
    exfalso. apply Hin. now apply (outsideBox_spec Lat Long g0). }
  apply orb_false_elim in Hb as [H1 H2].
  split; [|split; [|split; [|split; [|split; split]]]].
  - intros NLat NLong. split.
    + now apply calcLineNo_exact.
    + now apply calcPixelNo_exact.
  - split; reflexivity.
  - intros ->. apply calcLineNo_nan.
  - intros ->. apply calcPixelNo_nan.
  - reflexivity.
  - reflexivity.
  - reflexivity.
  - reflexivity.
Qed.

End Envelope.

(** ** The pixel bounds and the scanline read *)
Module Reader.
Import Fp Machine Dem Examples FpFacts Envelope.

(** Lines 83-90 as one equation. *)
Lemma checkLinePixel_run (LineNo PixelNo : Z) (s : state) :
  checkLinePixel LineNo PixelNo s =
    if lineOutside LineNo (DEM_Gtif s)
    then Exit 1 (log (EvStderr (LineNoOutOfRange LineNo (height (DEM_Gtif s)))) s)
    else if pixelOutside PixelNo (DEM_Gtif s)
    then Exit 1 (log (EvStderr (PixelNoOutOfRange PixelNo (width (DEM_Gtif s)))) s)
    else Ret tt s.
Proof.
  unfold checkLinePixel, bind, deref.
  destruct (lineOutside LineNo (DEM_Gtif s)); [reflexivity|].
  destruct (pixelOutside PixelNo (DEM_Gtif s)); reflexivity.
Qed.

(** C2: the pixel-bounds check fails, as an out-of-range error with
    status 1, exactly when the row is negative or greater than the image
    height, or the column is negative or greater than the image width; a
    row equal to the height and a column equal to the width pass. *)
Theorem pixel_bounds_check (LineNo PixelNo : Z) (s : state) :
  let g := DEM_Gtif s in
  (fails_with (checkLinePixel LineNo PixelNo s) OutOfRangeError 1
   <-> LineNo < 0 \/ LineNo > height g \/ PixelNo < 0 \/ PixelNo > width g)
  /\ (checkLinePixel LineNo PixelNo s = Ret tt s
      <-> 0 <= LineNo <= height g /\ 0 <= PixelNo <= width g)
  /\ (LineNo = height g -> PixelNo = width g -> 0 <= LineNo -> 0 <= PixelNo ->
      checkLinePixel LineNo PixelNo s = Ret tt s).
Proof.
  intros g. rewrite checkLinePixel_run. fold g. unfold lineOutside, pixelOutside.
  destruct (Z.ltb_spec LineNo 0) as [L0 | L0];
  destruct (Z.gtb_spec LineNo (height g)) as [L1 | L1];
  destruct (Z.ltb_spec PixelNo 0) as [P0 | P0];
  destruct (Z.gtb_spec PixelNo (width g)) as [P1 | P1];
  cbn [orb];
  (split; [split | split; [split|]]);
  try (intros; apply (fails_with_exit 1 s (LineNoOutOfRange LineNo (height g))));
  try (intros; apply (fails_with_exit 1 s (PixelNoOutOfRange PixelNo (width g))));
  try (intros (s' & d & He & _); discriminate He);
  try discriminate; try reflexivity; try lia.
Qed.

(** A granted allocation. *)
Lemma malloc_ok (n : Z) (s : state) :
  0 <= n < 2 ^ 63 -> granted s = true ->
  malloc n s =
    Ret (Ptr (next s))
        (log (EvMalloc n (Ptr (next s)))
             (set_next (S (next s))
                (set_heap (<[next s := fresh_block n]> (heap s))
                   (set_mallocs (tail (mallocs s)) s)))).
Proof.
  intros Hn Hg. unfold malloc. rewrite Hg.
  replace (0 <=? n) with true by (symmetry; apply Z.leb_le; lia).
  replace (n <? 2 ^ 63) with true by (symmetry; apply Z.ltb_lt; lia).
  reflexivity.
Qed.

(** What one call of [readDEMvalue] does, once the handle is open and the
    temporary buffer has been granted. *)
Lemma readDEMvalue_run (LineNo PixelNo : Z) (s : state) (h : nat) (f : TiffFile) :
  let g := DEM_Gtif s in
  let b := next s in
  let row := to_uint32 LineNo in
  let s1 := log (EvMalloc (scanlineSize g) (Ptr b))
              (set_next (S b)
                 (set_heap (<[b := fresh_block (scanlineSize g)]> (heap s))
                    (set_mallocs (tail (mallocs s)) s))) in
  tif g = Ptr h -> tifs s !! h = Some f ->
  0 <= scanlineSize g < 2 ^ 63 -> granted s = true ->
  readDEMvalue AddrOf_DEM_Gtif LineNo PixelNo s =
    match scanline f row with
    | None =>
        Exit 11 (log (EvStderr FailedReadingScanline) (log (EvReadScanline h row false) s1))
    | Some l =>
        if 2 * Z.of_nat (length l) <=? scanlineSize g then
          let s2 := log (EvReadScanline h row true)
                      (set_heap (<[b := {| bsize := scanlineSize g; bptrs := ∅;
                                           bsamples := l |}]> (heap s1)) s1) in
          if 0 <=? PixelNo then
            match l !! Z.to_nat PixelNo with
            | Some v => Ret v (log (EvFree b) (set_heap (delete b (heap s2)) s2))
            | None => Undefined
            end
          else Undefined
        else Undefined
    end.
Proof.
  intros g b row s1 Ht Hf Hsz Hg.
  unfold readDEMvalue. unfold bind at 1. unfold deref at 1. fold g.
  unfold bind at 1. rewrite (malloc_ok _ _ Hsz Hg), Ht. fold b row s1.
  unfold bind at 1. unfold TIFFReadScanline.
  replace (tifs s1 !! h) with (Some f) by (symmetry; exact Hf).
  replace (heap s1 !! b) with (Some (fresh_block (scanlineSize g)))
    by (symmetry; apply lookup_insert_eq).
  cbn [fresh_block bsize bptrs bsamples].
  destruct (scanline f row) as [l|]; [|reflexivity].
  destruct (2 * Z.of_nat (length l) <=? scanlineSize g); [|reflexivity].
  change (1 <=? 0) with false. cbv beta iota.
  unfold bind at 1. unfold load_sample.
  set (s2 := log (EvReadScanline h row true) _).
  replace (heap s2 !! b)
    with (Some {| bsize := scanlineSize g; bptrs := ∅; bsamples := l |})
    by (symmetry; apply lookup_insert_eq).
  cbn [bsamples]. destruct (0 <=? PixelNo); [|reflexivity].
  destruct (l !! Z.to_nat PixelNo) as [v|]; [|reflexivity].
  unfold bind, free.
  replace (heap s2 !! b)
    with (Some {| bsize := scanlineSize g; bptrs := ∅; bsamples := l |})
    by (symmetry; apply lookup_insert_eq).
  reflexivity.
Qed.


End Reader.

(** ** What a step leaves alone *)
Module Frames.
Import Fp Machine Dem Examples FpFacts Envelope Reader.

Section Preserves.
Context (R : relation state) `{!PreOrder R}.

Lemma preserves_ret {A} (a : A) : preserves R (ret a).
Proof. intros s. cbn. reflexivity. Qed.
Lemma preserves_exit {A} (n : Z) : preserves R (@exit A n).
Proof. intros s. cbn. reflexivity. Qed.
Lemma preserves_undefined {A} : preserves R (@undefined A).
Proof. intros s. exact I. Qed.
Lemma preserves_bind {A B} (c : M A) (k : A -> M B) :
  preserves R c -> (forall a, preserves R (k a)) -> preserves R (bind c k).
Proof.
  intros Hc Hk s. unfold bind. specialize (Hc s).
  destruct (c s) as [a s1 | n s1 |]; [|exact Hc|exact I].
  specialize (Hk a s1). destruct (k a s1); [| |exact I]; now transitivity s1.
Qed.
Lemma preserves_when (b : bool) (c : M unit) : preserves R c -> preserves R (when b c).
Proof. intros H. destruct b; [exact H | apply preserves_ret]. Qed.
End Preserves.

#[export] Instance same_session_preorder : PreOrder same_session.
Proof. split; [intros s; reflexivity | intros a b c H1 H2; unfold same_session in *; congruence]. Qed.
#[export] Instance no_new_read_preorder : PreOrder no_new_read.
Proof. split; [intros s H; exact H | intros a b c H1 H2 H; auto]. Qed.
#[export] Instance quiet_preorder : PreOrder quiet.
Proof.
  split.
  - intros s. split; reflexivity.
  - intros a b c [H1 H2] [K1 K2]. split; etransitivity; eassumption.
Qed.

Lemma preserves_weaken {A} (R R' : relation state) (c : M A) :
  (forall s s', R s s' -> R' s s') -> preserves R c -> preserves R' c.
Proof. intros HR H s. specialize (H s). destruct (c s); auto. Qed.

Lemma quiet_same (s s' : state) : quiet s s' -> same_session s s'.
Proof. now intros [H _]. Qed.
Lemma quiet_no_read (s s' : state) : quiet s s' -> no_new_read s s'.
Proof. now intros [_ H]. Qed.

(** A step that only appends an event other than a read is quiet. *)
Lemma quiet_log (e : event) (s s' : state) :
  (forall h r ok, e <> EvReadScanline h r ok) ->
  DEM_Gtif s' = DEM_Gtif s -> trace s' = trace s ++ [e] -> quiet s s'.
Proof.
  intros He Hg Ht. split; [exact Hg|]. intros (h & r & ok & Hin).
  rewrite Ht in Hin. apply elem_of_app in Hin as [Hin | Hin]; [now exists h, r, ok|].
  apply list_elem_of_singleton in Hin. symmetry in Hin. now apply He in Hin.
Qed.

Lemma quiet_silent (s s' : state) :
  DEM_Gtif s' = DEM_Gtif s -> trace s' = trace s -> quiet s s'.
Proof. intros Hg Ht. split; [exact Hg|]. unfold no_new_read. now rewrite Ht. Qed.

Lemma quiet_emit (e : event) :
  (forall h r ok, e <> EvReadScanline h r ok) -> preserves quiet (emit e).
Proof. intros He s. now apply (quiet_log e). Qed.
Lemma quiet_eprint (d : diagnostic) : preserves quiet (eprint d).
Proof. apply quiet_emit. discriminate. Qed.
Lemma quiet_print (r : report) : preserves quiet (print r).
Proof. apply quiet_emit. discriminate. Qed.
Lemma quiet_deref (g : GtifPtr) : preserves quiet (deref g).
Proof. intros s. destruct g; cbn; [exact I | reflexivity]. Qed.
Lemma quiet_verbose : preserves quiet (fun s => Ret (verbose s) s).
Proof. intros s. reflexivity. Qed.
Lemma quiet_malloc (n : Z) : preserves quiet (malloc n).
Proof.
  intros s. unfold malloc. destruct (_ && _);
    (eapply quiet_log; [|reflexivity|reflexivity]); discriminate.
Qed.
Lemma quiet_free (p : ptr) : preserves quiet (free p).
Proof.
  intros s. unfold free. destruct p; [reflexivity|]. destruct (heap s !! b); [|exact I].
  eapply quiet_log; [|reflexivity|reflexivity]. discriminate.
Qed.
Lemma quiet_store_ptr (sz : Z) (p : ptr) (i : Z) (q : ptr) : preserves quiet (store_ptr sz p i q).
Proof.
  intros s. unfold store_ptr. destruct p; [exact I|]. destruct (heap s !! b); [|exact I].
  destruct (_ && _); [|exact I]. now apply quiet_silent.
Qed.
Lemma quiet_load_ptr (p : ptr) (i : Z) : preserves quiet (load_ptr p i).
Proof.
  intros s. unfold load_ptr. destruct p; [exact I|]. destruct (heap s !! b); [|exact I].
  destruct (0 <=? i); [|exact I]. destruct (_ !! _); [reflexivity | exact I].
Qed.
Lemma quiet_load_sample (p : ptr) (i : Z) : preserves quiet (load_sample p i).
Proof.
  intros s. unfold load_sample. destruct p; [exact I|]. destruct (heap s !! b); [|exact I].
  destruct (0 <=? i); [|exact I]. destruct (_ !! _); [reflexivity | exact I].
Qed.
Lemma quiet_TIFFOpen (name : string) : preserves quiet (TIFFOpen name).
Proof.
  intros s. unfold TIFFOpen. destruct (files s name);
    (eapply quiet_log; [|reflexivity|reflexivity]); discriminate.
Qed.
Lemma quiet_TIFFGetField {A} (t : ptr) (tag : TiffFile -> option A) :
  preserves quiet (TIFFGetField t tag).
Proof.
  intros s. unfold TIFFGetField. destruct t; [exact I|].
  destruct (tifs s !! b); [reflexivity | exact I].
Qed.
Lemma quiet_TIFFClose (t : ptr) : preserves quiet (TIFFClose t).
Proof.
  intros s. unfold TIFFClose. destruct t; [exact I|]. destruct (tifs s !! b); [|exact I].
  eapply quiet_log; [|reflexivity|reflexivity]. discriminate.
Qed.
Lemma same_session_TIFFReadScanline (t buf : ptr) (row : Z) :
  preserves same_session (TIFFReadScanline t buf row).
Proof.
  intros s. unfold TIFFReadScanline. destruct t; [exact I|]. destruct buf; [exact I|].
  destruct (tifs s !! b); [|exact I]. destruct (heap s !! b0); [|exact I].
  destruct (scanline t _); [|reflexivity]. destruct (_ <=? _); [reflexivity | exact I].
Qed.
Lemma no_new_read_assign (g : GtifPtr) (f : Gtif -> Gtif) : preserves no_new_read (assign g f).
Proof. intros s. destruct g; cbn; [exact I|]. intros H. exact H. Qed.

Lemma quiet_sprintf (buf : ptr) (text : string) : preserves quiet (sprintf buf text).
Proof.
  intros s. unfold sprintf. destruct buf; [exact I|]. destruct (heap s !! b); [|exact I].
  destruct (_ <=? _); [reflexivity | exact I].
Qed.

Create HintDb quiet.
#[export] Hint Resolve quiet_eprint quiet_print quiet_deref quiet_verbose quiet_malloc
  quiet_free quiet_store_ptr quiet_load_ptr quiet_load_sample quiet_TIFFOpen
  quiet_TIFFGetField quiet_TIFFClose quiet_sprintf : quiet.

(** Decompose a computation along its binds and case distinctions and
    close the leaves with the lemmas on the primitives. *)
Ltac preserves_step :=
  first
    [ apply preserves_bind; [typeclasses eauto| |intros ?]
    | apply preserves_ret; typeclasses eauto
    | apply preserves_exit; typeclasses eauto
    | apply preserves_undefined
    | apply preserves_when; [typeclasses eauto|]
    | solve [auto with quiet]
    | solve [apply (preserves_weaken quiet same_session); [exact quiet_same | auto with quiet]]
    | solve [apply (preserves_weaken quiet no_new_read); [exact quiet_no_read | auto with quiet]]
    | apply same_session_TIFFReadScanline
    | apply no_new_read_assign
    | match goal with
      | |- preserves _ (if ?b then _ else _) => destruct b
      | |- preserves _ (match ?x with _ => _ end) => destruct x
      end ].
Ltac preserves := repeat preserves_step.

Lemma same_session_readDEMvalue (g : GtifPtr) (l p : Z) :
  preserves same_session (readDEMvalue g l p).
Proof. unfold readDEMvalue. preserves. Qed.

Lemma quiet_freeScanlines (n : nat) (i : Z) (g : GtifPtr) : preserves quiet (freeScanlines n i g).
Proof.
  revert i. induction n as [|n IH]; intros i; cbn [freeScanlines]; preserves.
Qed.

Lemma quiet_allocScanlines (sz : Z) (n : nat) (i : Z) (g : GtifPtr) :
  preserves quiet (allocScanlines sz n i g).
Proof.
  revert i. induction n as [|n IH]; intros i; cbn [allocScanlines]; preserves.
Qed.

#[export] Hint Resolve quiet_freeScanlines quiet_allocScanlines : quiet.

Lemma quiet_closeGtif (g : GtifPtr) : preserves quiet (closeGtif g).
Proof. unfold closeGtif. preserves. Qed.

Lemma quiet_checkLatLong (Lat Long : spec_float) : preserves quiet (checkLatLong Lat Long).
Proof. unfold checkLatLong. preserves. Qed.

Lemma quiet_checkLinePixel (l p : Z) : preserves quiet (checkLinePixel l p).
Proof. unfold checkLinePixel. preserves. Qed.

Lemma no_new_read_setupBuffers (sz : Z) (g : GtifPtr) (name : string) (t : ptr) :
  preserves no_new_read (setupBuffers sz g name t).
Proof. unfold setupBuffers. preserves. Qed.

Lemma no_new_read_setupGtif (sz jw jh : Z) (g : GtifPtr) (name : option string) :
  preserves no_new_read (setupGtif sz jw jh g name).
Proof. unfold setupGtif. preserves. Qed.

Lemma quiet_toTimeString (duration : Z) : preserves quiet (toTimeString duration).
Proof. unfold toTimeString. cbv zeta. preserves. Qed.

#[export] Hint Resolve quiet_toTimeString : quiet.

(** [toTimeString] never ends the process: it returns, with the session
    record as it was, or its behaviour is undefined. *)
Lemma toTimeString_cases (duration : Z) (s : state) :
  toTimeString duration s = Undefined
  \/ exists p text s',
       toTimeString duration s = Ret (p, text) s' /\ DEM_Gtif s' = DEM_Gtif s.
Proof.
  pose proof (quiet_toTimeString duration s) as Q.
  destruct (toTimeString duration s) as [[p text] s' | n s' |] eqn:E; [right | exfalso | now left].
  - exists p, text, s'. split; [reflexivity | exact (proj1 Q)].
  - unfold toTimeString in E. cbv zeta in E. unfold bind at 1 in E.
    destruct (malloc (10 * 1) s) as [q s1 | m s1 |] eqn:Em.
    + unfold bind in E.
      repeat match type of E with
             | context [if ?c then _ else _] => destruct c
             end;
        unfold sprintf in E; destruct q; try discriminate E;
        destruct (heap s1 !! b); try discriminate E;
        destruct (_ <=? _); discriminate E.
    + unfold malloc in Em. destruct (_ && _); discriminate Em.
    + discriminate E.
Qed.

Lemma same_session_lookupElevation (elapsed : Z) (Lat Long : spec_float) :
  preserves same_session (lookupElevation elapsed Lat Long).
Proof.
  unfold lookupElevation.
  repeat first
    [ apply (preserves_weaken quiet same_session); [exact quiet_same | apply quiet_toTimeString]
    | preserves_step ].
Qed.

Lemma bind_Ret {A B} (c : M A) (k : A -> M B) (s s' : state) (b : B) :
  bind c k s = Ret b s' -> exists a s1, c s = Ret a s1 /\ k a s1 = Ret b s'.
Proof.
  unfold bind. destruct (c s) as [a s1 | n s1 |]; try discriminate. eauto.
Qed.

Lemma bind_Exit {A B} (c : M A) (k : A -> M B) (s s' : state) (n : Z) :
  bind c k s = Exit n s' ->
  c s = Exit n s' \/ exists a s1, c s = Ret a s1 /\ k a s1 = Exit n s'.
Proof.
  unfold bind. destruct (c s) as [a s1 | m s1 |]; try discriminate.
  - intros H. right. exists a, s1. split; [reflexivity | exact H].
  - intros H. left. injection H as -> ->. reflexivity.
Qed.

#[export] Instance same_on_preorder {F} (proj : Gtif -> F) : PreOrder (same_on proj).
Proof. split; [intros s; reflexivity | intros a b c H1 H2; unfold same_on in *; congruence]. Qed.

Lemma quiet_same_on {F} (proj : Gtif -> F) (s s' : state) : quiet s s' -> same_on proj s s'.
Proof. intros [H _]. unfold same_on. now rewrite H. Qed.

Lemma same_on_assign {F} (proj : Gtif -> F) (g : GtifPtr) (f : Gtif -> Gtif) :
  (forall x, proj (f x) = proj x) -> preserves (same_on proj) (assign g f).
Proof. intros H s. destruct g; cbn; [exact I | apply H]. Qed.

Lemma same_on_setupBuffers {F} (proj : Gtif -> F) (sz : Z) (g : GtifPtr) (name : string) (t : ptr) :
  (forall v x, proj (set_tiePoints v x) = proj x) ->
  (forall v x, proj (set_scanlines v x) = proj x) ->
  preserves (same_on proj) (setupBuffers sz g name t).
Proof.
  intros H1 H2. unfold setupBuffers.
  repeat first
    [ apply preserves_bind; [typeclasses eauto| |intros ?]
    | apply same_on_assign; solve [auto]
    | apply preserves_undefined
    | solve [apply (preserves_weaken quiet (same_on proj)); [apply quiet_same_on | auto with quiet]]
    | apply preserves_ret; typeclasses eauto
    | apply preserves_exit; typeclasses eauto
    | apply preserves_when; [typeclasses eauto|]
    | match goal with
      | |- preserves _ (if ?b then _ else _) => destruct b
      | |- preserves _ (match ?x with _ => _ end) => destruct x
      end ].
Qed.

Lemma bufferGeometry_lineNo (g g' : Gtif) : bufferGeometry g = Some g' -> lineNo g' = -1.
Proof.
  unfold bufferGeometry. destruct (int_of_double _); [|discriminate].
  intros E. injection E as <-. reflexivity.
Qed.

Ltac inv_bind H :=
  let a := fresh "a" in let s1 := fresh "s" in let E := fresh "E" in
  apply bind_Ret in H as (a & s1 & E & H).

Ltac inv_run H :=
  repeat first
    [ discriminate H
    | progress (cbv [ret undefined exit] in H)
    | match type of H with
      | bind _ _ _ = Ret _ _ => inv_bind H
      | (if ?b then _ else _) _ = Ret _ _ => destruct b eqn:?
      | (match ?x with Some _ => _ | None => _ end) _ = Ret _ _ => destruct x eqn:?
      end ].

Lemma setupGtif_lineNo (sz jw jh : Z) (gtif : GtifPtr) (name : option string) (s s' : state) :
  setupGtif sz jw jh gtif name s = Ret true s' -> lineNo (DEM_Gtif s') = -1.
Proof.
  unfold setupGtif. destruct name as [name|]; [|discriminate]. intros H.
  inv_run H.
  match goal with
  | K : setupBuffers _ _ _ ?t ?s1 = Ret true _ |- _ =>
      pose proof (same_on_setupBuffers lineNo sz gtif name t (fun _ _ => eq_refl) (fun _ _ => eq_refl) s1) as P;
      rewrite K in P; unfold same_on in P; rewrite P
  end.
  match goal with
  | G : bufferGeometry _ = Some ?g', E : assign _ (fun _ => ?g') _ = Ret _ _ |- _ =>
      apply bufferGeometry_lineNo in G; destruct gtif; cbn in E; [discriminate E|];
      inversion E; subst; exact G
  end.
Qed.

Lemma main_session (sz jw jh elapsed : Z) (argv1 : string) (Lat Long : spec_float)
    (s0 s1 s_end : state) (b : bool) (n : Z) :
  setupGtif sz jw jh AddrOf_DEM_Gtif (Some argv1) (set_verbose true s0) = Ret b s1 ->
  main sz jw jh elapsed argv1 Lat Long s0 = Exit n s_end ->
  DEM_Gtif s_end = assumedBox (DEM_Gtif s1).
Proof.
  intros Hs Hm. rewrite (main_after_setup _ _ _ _ _ _ _ _ _ _ Hs) in Hm.
  pose proof (same_session_lookupElevation elapsed Lat Long
                (set_DEM_Gtif (assumedBox (DEM_Gtif s1)) s1)) as K.
  rewrite Hm in K. exact K.
Qed.

(** C10: [readDEMvalue] leaves the session record as it is: it reads
    into a buffer of its own, allocated on entry and freed before it
    returns, and writes to no other block, so the pool of scanline
    buffers is untouched; the index of the buffered scanline, set to -1
    by setup, is still -1 when the run ends. *)
Theorem session_untouched_by_reader (sz jw jh elapsed : Z) (argv1 : string)
    (Lat Long : spec_float) (s0 s1 : state) :
  setupGtif sz jw jh AddrOf_DEM_Gtif (Some argv1) (set_verbose true s0) = Ret true s1 ->
  lineNo (DEM_Gtif s1) = -1
  /\ (forall n s_end,
        main sz jw jh elapsed argv1 Lat Long s0 = Exit n s_end -> lineNo (DEM_Gtif s_end) = -1)
  /\ (forall LineNo PixelNo s,
        heap s !! next s = None ->
        match readDEMvalue AddrOf_DEM_Gtif LineNo PixelNo s with
        | Ret v s' =>
            DEM_Gtif s' = DEM_Gtif s /\ heap s' = heap s
            /\ exists h row,
                 trace s' = trace s ++ [EvMalloc (scanlineSize (DEM_Gtif s)) (Ptr (next s));
                                        EvReadScanline h row true;
                                        EvFree (next s)]
        | Exit n s' =>
            DEM_Gtif s' = DEM_Gtif s
            /\ forall b blk, heap s !! b = Some blk -> heap s' !! b = Some blk
        | Undefined => True
        end).
Proof.
  intros Hs. pose proof (setupGtif_lineNo _ _ _ _ _ _ _ Hs) as H1.
  split; [exact H1|]. split.
  - intros n s_end Hm. rewrite (main_session _ _ _ _ _ _ _ _ _ _ _ _ Hs Hm). exact H1.
  - intros LineNo PixelNo s Hfresh.
    pose proof (same_session_readDEMvalue AddrOf_DEM_Gtif LineNo PixelNo s) as K.
    destruct (readDEMvalue AddrOf_DEM_Gtif LineNo PixelNo s) as [v s' | n s' |] eqn:E;
      [| |exact I]; (split; [exact K|]).
    + unfold readDEMvalue in E. unfold bind at 1 in E. unfold deref at 1 in E.
      unfold bind at 1 in E. unfold malloc at 1 in E.
      destruct ((0 <=? scanlineSize (DEM_Gtif s)) && (scanlineSize (DEM_Gtif s) <? 2 ^ 63)
                && granted s).
      2: { unfold bind, TIFFReadScanline in E. destruct (tif (DEM_Gtif s)); discriminate E. }
      unfold bind at 1 in E. unfold TIFFReadScanline in E.
      destruct (tif (DEM_Gtif s)) as [|h]; [discriminate E|].
      cbn [log set_next set_heap set_mallocs tifs heap] in E.
      destruct (tifs s !! h) as [f|]; [|discriminate E].
      rewrite lookup_insert_eq in E. cbn [fresh_block bsize bptrs bsamples] in E.
      destruct (scanline f (to_uint32 LineNo)) as [l|].
      2: { unfold bind, eprint, emit, exit in E. discriminate E. }
      destruct (2 * Z.of_nat (length l) <=? scanlineSize (DEM_Gtif s)); [|discriminate E].
      change (1 <=? 0) with false in E. cbv beta iota in E.
      unfold bind at 1 in E. unfold load_sample in E.
      cbn [log set_next set_heap set_mallocs tifs heap] in E.
      rewrite lookup_insert_eq in E. cbn [bsamples] in E.
      destruct (0 <=? PixelNo); [|discriminate E].
      destruct (l !! Z.to_nat PixelNo) as [v'|]; [|discriminate E].
      unfold bind, free, ret in E.
      cbn [log set_next set_heap set_mallocs tifs heap] in E.
      rewrite lookup_insert_eq in E. inversion E; subst; clear E.
      cbn [log set_next set_heap set_mallocs tifs heap trace DEM_Gtif].
      split.
      * rewrite !delete_insert_eq. now apply delete_id.
      * exists h, (to_uint32 LineNo). now rewrite <- !app_assoc.
    + intros b blk Hb.
      assert (Hne : next s <> b) by (intros Eq; rewrite Eq in Hfresh; congruence).
      unfold readDEMvalue in E. unfold bind at 1 in E. unfold deref at 1 in E.
      unfold bind at 1 in E. unfold malloc at 1 in E.
      destruct ((0 <=? scanlineSize (DEM_Gtif s)) && (scanlineSize (DEM_Gtif s) <? 2 ^ 63)
                && granted s).
      2: { unfold bind, TIFFReadScanline in E. destruct (tif (DEM_Gtif s)); discriminate E. }
      unfold bind at 1 in E. unfold TIFFReadScanline in E.
      destruct (tif (DEM_Gtif s)) as [|h]; [discriminate E|].
      cbn [log set_next set_heap set_mallocs tifs heap] in E.
      destruct (tifs s !! h) as [f|]; [|discriminate E].
      rewrite lookup_insert_eq in E. cbn [fresh_block bsize bptrs bsamples] in E.
      destruct (scanline f (to_uint32 LineNo)) as [l|].
      * destruct (2 * Z.of_nat (length l) <=? scanlineSize (DEM_Gtif s)); [|discriminate E].
        change (1 <=? 0) with false in E. cbv beta iota in E.
        unfold bind at 1 in E. unfold load_sample in E.
        cbn [log set_next set_heap set_mallocs tifs heap] in E.
        rewrite lookup_insert_eq in E. cbn [bsamples] in E.
        destruct (0 <=? PixelNo); [|discriminate E].
        destruct (l !! Z.to_nat PixelNo) as [v'|]; [|discriminate E].
        unfold bind, free, ret in E.
        cbn [log set_next set_heap set_mallocs tifs heap] in E.
        rewrite lookup_insert_eq in E. discriminate E.
      * unfold bind, eprint, emit, exit in E. inversion E; subst; clear E.
        cbn [log set_next set_heap set_mallocs tifs heap].
        now rewrite lookup_insert_ne.
Qed.

End Frames.

(** ** Releasing a session *)
Module Close.
Import Fp Machine Dem Examples FpFacts Envelope Reader Frames.

Lemma lookup_released (l : list nat) (m : gmap nat block) (b : nat) :
  released l m !! b = if decide (b ∈ l) then None else m !! b.
Proof.
  revert m. induction l as [|a l IH]; intros m; cbn [released foldl].
  - destruct (decide (b ∈ [])) as [H|H]; [|reflexivity]. now apply elem_of_nil in H.
  - fold (released l (delete a m)). rewrite IH.
    destruct (decide (b ∈ l)) as [H|H].
    + rewrite decide_True by (apply elem_of_cons; now right). reflexivity.
    + destruct (decide (b = a)) as [->|Hne].
      * rewrite lookup_delete_eq. rewrite decide_True by (apply elem_of_cons; now left). reflexivity.
      * rewrite lookup_delete_ne by congruence.
        rewrite decide_False; [reflexivity|]. intros K. apply elem_of_cons in K as [K|K]; tauto.
Qed.

Lemma freeScanlines_run (bufs : list nat) :
  forall (i : nat) (s : state) (pb : nat) (blk : block),
    scanlines (DEM_Gtif s) = Ptr pb ->
    heap s !! pb = Some blk ->
    (forall (j : nat) b, bufs !! j = Some b -> bptrs blk !! (i + j)%nat = Some (Ptr b)) ->
    (forall b, b ∈ bufs -> is_Some (heap s !! b)) ->
    NoDup (pb :: bufs) ->
    freeScanlines (length bufs) (Z.of_nat i) AddrOf_DEM_Gtif s
    = Ret tt {| files := files s; mallocs := mallocs s;
                heap := released bufs (heap s); tifs := tifs s; next := next s;
                DEM_Gtif := DEM_Gtif s; verbose := verbose s;
                trace := trace s ++ (EvFree <$> bufs) |}.
Proof.
  induction bufs as [|b bufs IH]; intros i s pb blk Hp Hblk Hslots Hlive Hnd.
  - cbn. rewrite app_nil_r. now destruct s.
  - cbn [length freeScanlines]. unfold bind at 1. unfold deref at 1.
    unfold bind at 1. unfold load_ptr. rewrite Hp, Hblk.
    replace (0 <=? Z.of_nat i) with true by (symmetry; apply Z.leb_le; lia).
    rewrite Nat2Z.id. specialize (Hslots 0%nat b eq_refl) as Hb.
    rewrite Nat.add_0_r in Hb. rewrite Hb.
    unfold bind at 1. cbn [is_null negb when]. unfold free.
    destruct (Hlive b) as [blkb Hblkb]; [apply elem_of_cons; now left|]. rewrite Hblkb.
    apply NoDup_cons in Hnd as [Hpb Hnd]. apply NoDup_cons in Hnd as [Hb' Hnd].
    assert (Hne : b <> pb) by (intros ->; apply Hpb, elem_of_cons; now left).
    replace (Z.of_nat i + 1) with (Z.of_nat (S i)) by lia.
    rewrite (IH (S i) _ pb blk).
    + cbn [log set_heap files mallocs heap tifs next DEM_Gtif verbose trace released foldl fmap list_fmap].
      now rewrite <- app_assoc.
    + exact Hp.
    + cbn [log set_heap heap]. now rewrite lookup_delete_ne.
    + intros j b0 Hj. replace (S i + j)%nat with (i + S j)%nat by lia. now apply Hslots.
    + intros b0 Hb0. cbn [log set_heap heap]. rewrite lookup_delete_ne; [apply Hlive, elem_of_cons; now right|].
      intros ->. contradiction.
    + apply NoDup_cons. split; [|exact Hnd]. intros K. apply Hpb, elem_of_cons. now right.
Qed.

(** C9, amended: [closeGtif] does nothing on a null session; on an open
    session it frees every scanline buffer exactly once, then the pool,
    then closes the file handle, and leaves the session record as it
    was. *)
Theorem closeGtif_releases_once (s : state) (pb : nat) (bufs : list nat) (h : nat) :
  closeGtif GtifNULL s = Ret tt s
  /\ (open_session s pb bufs h ->
      exists s',
        closeGtif AddrOf_DEM_Gtif s = Ret tt s'
        /\ trace s' = trace s ++ (EvFree <$> bufs) ++ [EvFree pb; EvClose h]
        /\ NoDup (EvFree <$> (bufs ++ [pb]))
        /\ (forall b, heap s' !! b = if decide (b ∈ pb :: bufs) then None else heap s !! b)
        /\ tifs s' = delete h (tifs s)
        /\ DEM_Gtif s' = DEM_Gtif s).
Proof.
  split; [reflexivity|].
  intros (Hp & Hw & Ht & [f Hf] & (blk & Hblk & Hslots) & Hlive & Hnd).
  unfold closeGtif. unfold bind at 1. unfold deref at 1. rewrite Hw, Nat2Z.id.
  unfold bind at 1.
  pose proof (freeScanlines_run bufs 0 s pb blk Hp Hblk Hslots Hlive Hnd) as R.
  change (Z.of_nat 0) with 0 in R. rewrite R. clear R.
  unfold bind at 1. unfold free. rewrite Hp. cbn [heap].
  assert (Hpool : released bufs (heap s) !! pb = Some blk).
  { rewrite lookup_released. apply NoDup_cons in Hnd as [Hpb _].
    now rewrite decide_False. }
  rewrite Hpool, Ht. cbn [is_null negb when]. unfold TIFFClose.
  cbn [log set_heap tifs]. rewrite Hf.
  eexists. split; [reflexivity|].
  cbn [log set_heap set_tifs trace heap tifs DEM_Gtif].
  split; [now rewrite <- !app_assoc|]. split; [|split; [|split; reflexivity]].
  - apply NoDup_fmap_2; [intros x y E; now injection E|].
    apply NoDup_app. apply NoDup_cons in Hnd as [Hpb Hnd]. split; [exact Hnd|].
    split; [|apply NoDup_singleton].
    intros x Hx Hx'. apply list_elem_of_singleton in Hx'. subst x. contradiction.
  - intros b. destruct (decide (b = pb)) as [->|Hne].
    + rewrite lookup_delete_eq. rewrite decide_True by (apply elem_of_cons; now left). reflexivity.
    + rewrite lookup_delete_ne by congruence. rewrite lookup_released.
      destruct (decide (b ∈ bufs)) as [H|H].
      * rewrite decide_True by (apply elem_of_cons; now right). reflexivity.
      * rewrite decide_False; [reflexivity|]. intros K. apply elem_of_cons in K as [K|K]; tauto.
Qed.

End Close.

(** ** Opening a session *)
Module Setup.
Import Fp Machine Dem Examples FpFacts Envelope Reader Frames Close.

Lemma setupGtif_opened (sz jw jh : Z) (name : string) (f : TiffFile) (b : Z) (s : state) :
  files s name = Some f -> BITSPERSAMPLE f = Some b ->
  let g := legacyScales jw jh (sessionWithTags (DEM_Gtif s) (Ptr (next s)) f b) in
  setupGtif sz jw jh AddrOf_DEM_Gtif (Some name) s =
    match GTIFF_PIXELSCALE f with
    | None => Exit 11 (log (EvStderr CannotExtractPixelSize) (opened s name f g))
    | Some ps =>
        match bufferGeometry (set_pixelSize ps g) with
        | None => Undefined
        | Some g' => setupBuffers sz AddrOf_DEM_Gtif name (Ptr (next s)) (opened s name f g')
        end
    end.
Proof.
  intros Hf Hb g. unfold setupGtif.
  unfold bind at 1. unfold assign at 1.
  unfold bind at 1. unfold TIFFOpen. cbn [files set_DEM_Gtif]. rewrite Hf.
  unfold bind at 1. unfold assign at 1. cbn [is_null].
  unfold bind at 1. unfold TIFFGetField at 1.
  cbn [tifs log set_next set_tifs set_DEM_Gtif]. rewrite lookup_insert_eq.
  unfold bind at 1. unfold assign at 1.
  unfold bind at 1. unfold TIFFGetField at 1.
  cbn [tifs log set_next set_tifs set_DEM_Gtif]. rewrite lookup_insert_eq, Hb.
  unfold bind at 1. unfold assign at 1.
  unfold bind at 1. unfold assign at 1.
  unfold bind at 1. unfold TIFFGetField at 1.
  cbn [tifs log set_next set_tifs set_DEM_Gtif]. rewrite lookup_insert_eq.
  unfold bind at 1. unfold assign at 1.
  unfold bind at 1. unfold TIFFGetField at 1.
  cbn [tifs log set_next set_tifs set_DEM_Gtif]. rewrite lookup_insert_eq.
  unfold bind at 1. unfold assign at 1.
  unfold bind at 1. unfold assign at 1.
  unfold bind at 1. unfold TIFFGetField at 1.
  cbn [tifs log set_next set_tifs set_DEM_Gtif]. rewrite lookup_insert_eq.
  destruct (GTIFF_PIXELSCALE f) as [ps|]; [|reflexivity].
  unfold bind at 1. unfold assign at 1.
  unfold bind at 1. unfold deref at 1.
  cbn [DEM_Gtif log set_next set_tifs set_DEM_Gtif].
  match goal with
  | |- context [bufferGeometry ?x] => change x with (set_pixelSize ps g)
  end.
  destruct (bufferGeometry (set_pixelSize ps g)) as [g'|]; [|reflexivity].
  unfold bind at 1. unfold assign at 1. reflexivity.
Qed.

Lemma allocScanlines_run (sz : Z) (n : nat) :
  forall (i : nat) (s : state) (pb : nat) (blk : block),
    0 <= sz ->
    scanlines (DEM_Gtif s) = Ptr pb ->
    heap s !! pb = Some blk ->
    Z.of_nat (i + n) * sz <= bsize blk ->
    mallocs s = [] ->
    0 <= scanlineSize (DEM_Gtif s) < 2 ^ 63 ->
    (pb < next s)%nat ->
    exists s' blk',
      allocScanlines sz n (Z.of_nat i) AddrOf_DEM_Gtif s = Ret tt s'
      /\ DEM_Gtif s' = DEM_Gtif s /\ tifs s' = tifs s /\ verbose s' = verbose s
      /\ mallocs s' = [] /\ next s' = (next s + n)%nat
      /\ trace s' = trace s
                    ++ ((fun b => EvMalloc (scanlineSize (DEM_Gtif s)) (Ptr b))
                          <$> handed_out s n)
      /\ heap s' !! pb = Some blk' /\ bsize blk' = bsize blk
      /\ (forall j b, handed_out s n !! j = Some b -> bptrs blk' !! (i + j)%nat = Some (Ptr b))
      /\ (forall k, (k < i)%nat -> bptrs blk' !! k = bptrs blk !! k)
      /\ (forall b, b ∈ handed_out s n -> is_Some (heap s' !! b))
      /\ (forall b, is_Some (heap s !! b) -> is_Some (heap s' !! b)).
Proof.
  induction n as [|n IH]; intros i s pb blk Hsz Hp Hblk Hcap Hm Hsize Hlt.
  - exists s, blk. cbn [allocScanlines handed_out seq fmap list_fmap].
    rewrite app_nil_r, Nat.add_0_r. repeat split; try reflexivity; try assumption.
    + intros j b Hj. discriminate Hj.
    + intros b Hb. now apply elem_of_nil in Hb.
    + intros b Hb. exact Hb.
  - cbn [allocScanlines]. unfold bind at 1. unfold deref at 1.
    unfold bind at 1.
    assert (Hg : granted s = true) by (unfold granted; now rewrite Hm).
    rewrite (malloc_ok _ _ Hsize Hg).
    unfold bind at 1. unfold store_ptr. rewrite Hp.
    cbn [log set_next set_heap set_mallocs heap].
    rewrite lookup_insert_ne by lia. rewrite Hblk.
    replace (0 <=? Z.of_nat i) with true by (symmetry; apply Z.leb_le; lia).
    replace ((Z.of_nat i + 1) * sz <=? bsize blk) with true by (symmetry; apply Z.leb_le; nia).
    cbn [andb is_null]. rewrite Nat2Z.id.
    replace (Z.of_nat i + 1) with (Z.of_nat (S i)) by lia.
    set (blk1 := {| bsize := bsize blk; bptrs := <[i := Ptr (next s)]> (bptrs blk);
                    bsamples := bsamples blk |}).
    set (s1 := set_heap _ _).
    destruct (IH (S i) s1 pb blk1) as (s' & blk' & Hrun & Hg' & Ht & Hv & Hm' & Hn & Htr & Hb' & Hbs & Hslots & Hold & Hlive & Hmono).
    + exact Hsz.
    + exact Hp.
    + subst s1. cbn [set_heap heap]. apply lookup_insert_eq.
    + cbn [blk1 bsize]. replace (S i + n)%nat with (i + S n)%nat by lia. exact Hcap.
    + subst s1. cbn. now rewrite Hm.
    + exact Hsize.
    + subst s1. cbn. lia.
    + exists s', blk'. rewrite Hrun.
      assert (Hn1 : next s1 = S (next s)) by reflexivity.
      assert (Hh : handed_out s (S n) = next s :: handed_out s1 n) by reflexivity.
      split; [reflexivity|]. split; [exact Hg'|]. split; [exact Ht|]. split; [exact Hv|].
      split; [exact Hm'|]. split; [rewrite Hn, Hn1; lia|].
      split; [rewrite Htr, Hh; subst s1; cbn [set_heap log trace DEM_Gtif set_next set_mallocs];
              cbn [fmap list_fmap]; now rewrite <- app_assoc|].
      split; [exact Hb'|]. split; [exact Hbs|]. split; [|split; [|split]].
      * intros j b. rewrite Hh. destruct j as [|j]; cbn [lookup list_lookup].
        -- intros E. injection E as <-. rewrite Nat.add_0_r, (Hold i) by lia.
           cbn [blk1 bptrs]. apply lookup_insert_eq.
        -- intros Hj. replace (i + S j)%nat with (S i + j)%nat by lia. now apply Hslots.
      * intros k Hk. rewrite (Hold k) by lia. cbn [blk1 bptrs].
        apply lookup_insert_ne. lia.
      * intros b. rewrite Hh. intros Hb. apply elem_of_cons in Hb as [-> | Hb]; [|now apply Hlive].
        apply Hmono. subst s1. cbn [set_heap heap].
        rewrite lookup_insert_ne by lia. rewrite lookup_insert_eq. eauto.
      * intros b Hb. apply Hmono. subst s1. cbn [set_heap heap].
        destruct (decide (b = pb)) as [->|Hne]; [rewrite lookup_insert_eq; eauto|].
        rewrite lookup_insert_ne by congruence.
        destruct (decide (b = next s)) as [->|Hne']; [rewrite lookup_insert_eq; eauto|].
        now rewrite lookup_insert_ne by congruence.
Qed.

(** [setupBuffers] on a file with tie points, when every allocation is
    granted and the pool is large enough for its pointers: the buffers
    are in place when the sample depth is examined. *)
Lemma setupBuffers_run (sz : Z) (name : string) (h : nat) (f : TiffFile)
    (tp : list spec_float) (bytes : Z) (s1 : state) :
  let g' := DEM_Gtif s1 in
  let pb := next s1 in
  let bufs := seq (S pb) (Z.to_nat (windowSize g')) in
  tifs s1 !! h = Some f -> tif g' = Ptr h ->
  GTIFF_TIEPOINTS f = Some tp ->
  int_mul (scanlineSize g') (windowSize g') = Some bytes ->
  0 <= windowSize g' -> 0 <= scanlineSize g' < 2 ^ 63 ->
  0 <= sz -> windowSize g' * sz <= bytes ->
  mallocs s1 = [] -> (h < next s1)%nat ->
  exists s2,
    open_session s2 pb bufs h
    /\ DEM_Gtif s2 = set_scanlines (Ptr pb) (set_tiePoints tp g')
    /\ verbose s2 = verbose s1 /\ mallocs s2 = []
    /\ setupBuffers sz AddrOf_DEM_Gtif name (Ptr h) s1 =
         if bitsPerSample g' =? 16
         then
           (when (verbose s1)
              (print (ParamValuesFrom name) ;;;
               print (SamplesAndBits (samplesPerPixel g') (bitsPerSample g')) ;;;
               print (Dimensions (width g') (height g') (scanlineSize g'))) ;;;
            ret true) s2
         else Exit 11 (log (EvStderr (UnsupportedBitsPerSample (bitsPerSample g'))) s2).
Proof.
  intros g' pb bufs Hf Ht Htp Hmul Hw Hsize Hsz Hcap Hm Hh.
  assert (Hbytes : 0 <= bytes < 2 ^ 63).
  { unfold int_mul in Hmul.
    destruct ((INT_MIN <=? scanlineSize g' * windowSize g')
              && (scanlineSize g' * windowSize g' <=? INT_MAX)) eqn:E; [|discriminate].
    injection Hmul as <-. apply andb_prop in E as [_ E]. apply Z.leb_le in E.
    unfold INT_MAX in E. split; [nia | lia]. }
  set (sC := set_DEM_Gtif (set_scanlines (Ptr pb) (set_tiePoints tp g'))
               (log (EvMalloc bytes (Ptr pb))
                  (set_next (S pb)
                     (set_heap (<[pb := fresh_block bytes]> (heap s1))
                        (set_mallocs (tail (mallocs s1))
                           (set_DEM_Gtif (set_tiePoints tp g') s1)))))).
  destruct (allocScanlines_run sz (Z.to_nat (windowSize g')) 0 sC pb (fresh_block bytes))
    as (s2 & blk' & Hrun & Hg2 & Ht2 & Hv2 & Hm2 & Hn2 & Htr2 & Hb2 & Hbs2 & Hslots & _ & Hlive & Hmono).
  { exact Hsz. }
  { reflexivity. }
  { subst sC. cbn. apply lookup_insert_eq. }
  { cbn [fresh_block bsize]. rewrite Nat.add_0_l, Z2Nat.id by lia. exact Hcap. }
  { subst sC. cbn. now rewrite Hm. }
  { exact Hsize. }
  { subst sC. cbn. lia. }
  exists s2. split; [|split; [|split; [|split]]].
  - unfold open_session. rewrite Hg2. subst sC. cbn [DEM_Gtif set_DEM_Gtif scanlines windowSize
      set_scanlines set_tiePoints tif].
    split; [reflexivity|]. split; [subst bufs; rewrite length_seq, Z2Nat.id by lia; reflexivity|].
    split; [exact Ht|]. split; [rewrite Ht2; cbn; rewrite Hf; eauto|].
    split; [exists blk'; split; [exact Hb2|]; intros j b Hj; apply (Hslots j b Hj)|].
    split; [exact Hlive|].
    apply NoDup_cons. split; [|apply NoDup_seq].
    subst bufs. intros K. apply elem_of_seq in K. lia.
  - exact Hg2.
  - exact Hv2.
  - exact Hm2.
  - unfold setupBuffers. unfold bind at 1. unfold TIFFGetField. rewrite Hf, Htp.
    unfold bind at 1. unfold assign at 1.
    unfold bind at 1. unfold deref at 1.
    cbn [DEM_Gtif set_DEM_Gtif scanlineSize windowSize set_tiePoints]. fold g'. rewrite Hmul.
    unfold bind at 1.
    assert (Hgr : granted (set_DEM_Gtif (set_tiePoints tp g') s1) = true)
      by (unfold granted; cbn; now rewrite Hm).
    rewrite (malloc_ok _ _ Hbytes Hgr).
    unfold bind at 1. unfold assign at 1.
    unfold bind at 1. cbn [windowSize set_tiePoints].
    change (allocScanlines sz (Z.to_nat (windowSize g')) 0 AddrOf_DEM_Gtif _)
      with (allocScanlines sz (Z.to_nat (windowSize g')) (Z.of_nat 0) AddrOf_DEM_Gtif sC).
    rewrite Hrun. unfold bind at 1. unfold deref at 1. rewrite Hg2.
    cbn [DEM_Gtif set_DEM_Gtif bitsPerSample set_scanlines set_tiePoints sC
         samplesPerPixel width height scanlineSize].
    destruct (bitsPerSample g' =? 16); cbn [negb].
    + unfold bind at 1. rewrite Hv2. reflexivity.
    + reflexivity.
Qed.

Lemma fails_with_unique {A} (o : outcome A) (k k' : ErrorKind) (n n' : Z) :
  fails_with o k n -> fails_with o k' n' -> k = k' /\ n = n'.
Proof.
  intros (s & d & He & Hl & Hk) (s' & d' & He' & Hl' & Hk').
  rewrite He in He'. injection He' as <- <-. rewrite Hl in Hl'. injection Hl' as <-.
  split; congruence.
Qed.

Lemma preserves_Ret {A} (R : relation state) (c : M A) (s s' : state) (a : A) :
  preserves R c -> c s = Ret a s' -> R s s'.
Proof. intros H E. specialize (H s). now rewrite E in H. Qed.

Lemma preserves_Exit {A} (R : relation state) (c : M A) (s s' : state) (n : Z) :
  preserves R c -> c s = Exit n s' -> R s s'.
Proof. intros H E. specialize (H s). now rewrite E in H. Qed.

(** [setupBuffers] returns only with 16 bits per sample. *)
Lemma setupBuffers_Ret (sz : Z) (gtif : GtifPtr) (name : string) (t : ptr)
    (s s' : state) (r : bool) :
  setupBuffers sz gtif name t s = Ret r s' -> bitsPerSample (DEM_Gtif s) = 16.
Proof.
  intros H.
  pose proof (preserves_Ret _ _ _ _ _
                (same_on_setupBuffers bitsPerSample sz gtif name t
                   (fun _ _ => eq_refl) (fun _ _ => eq_refl)) H) as P.
  unfold same_on in P. rewrite <- P. clear P.
  unfold setupBuffers in H. inv_run H.
  match goal with K : Ret true _ = Ret _ _ |- _ => inversion K; subst; clear K end.
  match goal with K : Ret (verbose _) _ = Ret _ _ |- _ => inversion K; subst; clear K end.
  match goal with
  | D : deref gtif _ = Ret ?a _, B : negb (bitsPerSample ?a =? 16) = false |- _ =>
      destruct gtif; cbn in D; [discriminate D|]; inversion D; subst; clear D;
      apply negb_false_iff, Z.eqb_eq in B
  end.
  match goal with
  | W : when _ _ _ = Ret _ _ |- _ =>
      apply (preserves_Ret quiet) in W; [destruct W as [W _]; unfold same_session in W; now rewrite W|]
  end.
  preserves.
Qed.

Lemma main_exits_in_setup (sz jw jh elapsed : Z) (argv1 : string) (Lat Long : spec_float)
    (s0 s1 : state) (n : Z) :
  setupGtif sz jw jh AddrOf_DEM_Gtif (Some argv1) (set_verbose true s0) = Exit n s1 ->
  main sz jw jh elapsed argv1 Lat Long s0 = Exit n s1.
Proof. intros H. unfold main. unfold bind at 1. unfold bind at 1. now rewrite H. Qed.

Lemma main_undefined_in_setup (sz jw jh elapsed : Z) (argv1 : string)
    (Lat Long : spec_float) (s0 : state) :
  setupGtif sz jw jh AddrOf_DEM_Gtif (Some argv1) (set_verbose true s0) = Undefined ->
  main sz jw jh elapsed argv1 Lat Long s0 = Undefined.
Proof. intros H. unfold main. unfold bind at 1. unfold bind at 1. now rewrite H. Qed.

Lemma normalizeBitsPerSample_bits (g : Gtif) :
  bitsPerSample (normalizeBitsPerSample g)
  = if (8 <? bitsPerSample g) && (bitsPerSample g <=? 16) then 16 else bitsPerSample g.
Proof. unfold normalizeBitsPerSample. now destruct (_ && _). Qed.

Lemma sessionWithTags_bits (g : Gtif) (t : ptr) (f : TiffFile) (b : Z) :
  bitsPerSample (sessionWithTags g t f b) = if (8 <? b) && (b <=? 16) then 16 else b.
Proof.
  unfold sessionWithTags.
  destruct (IMAGELENGTH f), (IMAGEWIDTH f); cbn [from_option set_height set_width bitsPerSample];
    rewrite normalizeBitsPerSample_bits; reflexivity.
Qed.

Lemma sessionWithTags_tif (g : Gtif) (t : ptr) (f : TiffFile) (b : Z) :
  tif (sessionWithTags g t f b) = t.
Proof.
  unfold sessionWithTags, normalizeBitsPerSample.
  destruct (IMAGELENGTH f), (IMAGEWIDTH f), (SAMPLESPERPIXEL f);
    cbn [from_option set_height set_width set_samplesPerPixel set_bitsPerSample bitsPerSample tif];
    destruct (_ && _); reflexivity.
Qed.

Lemma to_int32_range (z : Z) : - 2 ^ 31 <= to_int32 z < 2 ^ 31.
Proof.
  unfold to_int32. pose proof (Z.mod_pos_bound z (2 ^ 32) ltac:(lia)).
  destruct (Z.ltb_spec (z mod 2 ^ 32) (2 ^ 31)); lia.
Qed.

Lemma bufferGeometry_fields (g g' : Gtif) :
  bufferGeometry g = Some g' ->
  bitsPerSample g' = bitsPerSample g /\ tif g' = tif g
  /\ width g' = width g /\ height g' = height g
  /\ scanlineSize g' = to_int32 (width g * (bitsPerSample g ÷ 8))
  /\ int_of_double (dadd (scaleY g) (double_of_Z 1)) = Some (windowSize g')
  /\ lineNo g' = -1.
Proof.
  unfold bufferGeometry. destruct (int_of_double _) as [w|]; [|discriminate].
  intros E. injection E as <-. repeat split; reflexivity.
Qed.

Lemma setupBuffers_no_tiepoints (sz : Z) (name : string) (h : nat) (f : TiffFile) (s : state) :
  tifs s !! h = Some f -> GTIFF_TIEPOINTS f = None ->
  setupBuffers sz AddrOf_DEM_Gtif name (Ptr h) s
  = Exit 11 (log (EvStderr CannotExtractTiePoints) s).
Proof.
  intros Hf Ht. unfold setupBuffers. unfold bind at 1. unfold TIFFGetField.
  now rewrite Hf, Ht.
Qed.

(** The loop of lines 202-210 when the pool is too small for the [n]
    pointers still to be stored: one of the stores lands beyond it. *)
Lemma allocScanlines_overrun (sz : Z) (n : nat) :
  forall (i : nat) (s : state) (pb : nat) (blk : block),
    0 < sz ->
    scanlines (DEM_Gtif s) = Ptr pb ->
    heap s !! pb = Some blk ->
    (0 < n)%nat -> bsize blk < Z.of_nat (i + n) * sz ->
    mallocs s = [] ->
    0 <= scanlineSize (DEM_Gtif s) < 2 ^ 63 ->
    (pb < next s)%nat ->
    allocScanlines sz n (Z.of_nat i) AddrOf_DEM_Gtif s = Undefined.
Proof.
  induction n as [|n IH]; intros i s pb blk Hsz Hp Hblk Hn Hcap Hm Hsize Hlt; [lia|].
  cbn [allocScanlines]. unfold bind at 1. unfold deref at 1. unfold bind at 1.
  assert (Hg : granted s = true) by (unfold granted; now rewrite Hm).
  rewrite (malloc_ok _ _ Hsize Hg).
  unfold bind at 1. unfold store_ptr. rewrite Hp.
  cbn [log set_next set_heap set_mallocs heap].
  rewrite lookup_insert_ne by lia. rewrite Hblk.
  replace (0 <=? Z.of_nat i) with true by (symmetry; apply Z.leb_le; lia).
  destruct (Z.leb_spec ((Z.of_nat i + 1) * sz) (bsize blk)) as [Hfit | Hover];
    [|reflexivity].
  cbn [andb is_null]. rewrite Nat2Z.id.
  replace (Z.of_nat i + 1) with (Z.of_nat (S i)) by lia.
  set (blk1 := {| bsize := bsize blk; bptrs := <[i := Ptr (next s)]> (bptrs blk);
                  bsamples := bsamples blk |}).
  set (s1 := set_heap _ _).
  apply (IH (S i) s1 pb blk1).
  - exact Hsz.
  - exact Hp.
  - subst s1. cbn [set_heap heap]. apply lookup_insert_eq.
  - destruct n as [|n']; [|lia]. exfalso. rewrite Nat.add_1_r in Hcap. lia.
  - cbn [blk1 bsize]. replace (S i + n)%nat with (i + S n)%nat by lia. exact Hcap.
  - subst s1. cbn. now rewrite Hm.
  - exact Hsize.
  - subst s1. cbn. lia.
Qed.

(** [setupBuffers] on a file with tie points, when every allocation is
    granted and the pool is too small for its pointers. *)
Lemma setupBuffers_overrun (sz : Z) (name : string) (h : nat) (f : TiffFile)
    (tp : list spec_float) (bytes : Z) (s1 : state) :
  let g' := DEM_Gtif s1 in
  tifs s1 !! h = Some f ->
  GTIFF_TIEPOINTS f = Some tp ->
  int_mul (scanlineSize g') (windowSize g') = Some bytes ->
  0 < windowSize g' -> 0 <= scanlineSize g' < 2 ^ 63 ->
  0 < sz -> bytes < windowSize g' * sz ->
  mallocs s1 = [] ->
  setupBuffers sz AddrOf_DEM_Gtif name (Ptr h) s1 = Undefined.
Proof.
  intros g' Hf Htp Hmul Hw Hsize Hsz Hcap Hm.
  assert (Hbytes : 0 <= bytes < 2 ^ 63).
  { unfold int_mul in Hmul.
    destruct ((INT_MIN <=? scanlineSize g' * windowSize g')
              && (scanlineSize g' * windowSize g' <=? INT_MAX)) eqn:E; [|discriminate].
    injection Hmul as <-. apply andb_prop in E as [_ E]. apply Z.leb_le in E.
    unfold INT_MAX in E. split; [nia | lia]. }
  unfold setupBuffers. unfold bind at 1. unfold TIFFGetField. rewrite Hf, Htp.
  unfold bind at 1. unfold assign at 1.
  unfold bind at 1. unfold deref at 1.
  cbn [DEM_Gtif set_DEM_Gtif scanlineSize windowSize set_tiePoints]. fold g'. rewrite Hmul.
  unfold bind at 1.
  assert (Hgr : granted (set_DEM_Gtif (set_tiePoints tp g') s1) = true)
    by (unfold granted; cbn; now rewrite Hm).
  rewrite (malloc_ok _ _ Hbytes Hgr).
  unfold bind at 1. unfold assign at 1.
  unfold bind at 1. cbn [windowSize set_tiePoints].
  match goal with
  | |- context [allocScanlines sz ?n 0 AddrOf_DEM_Gtif ?x] =>
      change (allocScanlines sz n 0 AddrOf_DEM_Gtif x)
        with (allocScanlines sz n (Z.of_nat 0) AddrOf_DEM_Gtif x);
      rewrite (allocScanlines_overrun sz n 0 x (next s1) (fresh_block bytes))
  end.
  - reflexivity.
  - exact Hsz.
  - reflexivity.
  - cbn. apply lookup_insert_eq.
  - lia.
  - cbn [fresh_block bsize]. rewrite Nat.add_0_l, Z2Nat.id by lia. exact Hcap.
  - cbn. now rewrite Hm.
  - exact Hsize.
  - cbn. lia.
Qed.

(** C5, amended: a run on a raster whose bits-per-sample is not in
    (8, 16], hence not 16 after normalisation, never reads a scanline.
    The depth is tested after the tags have been read and the buffers
    allocated: a missing pixel-scale or tie-point tag ends the run
    first, with the metadata error.  With both tags and every
    allocation granted, the run fails with the unsupported-format error,
    status 11, when the pool holds its pointers; when it does not, as
    for any depth below 8 bits, where a scanline has no bytes, a buffer
    address is stored beyond the pool and the behaviour is undefined. *)
Theorem unsupported_depth (sz jw jh elapsed : Z) (argv1 : string) (f : TiffFile) (b : Z)
    (Lat Long : spec_float) (s0 : state) :
  files s0 argv1 = Some f -> BITSPERSAMPLE f = Some b -> ~ (8 < b <= 16) ->
  ~ read_attempted (trace s0) ->
  (forall n s_end,
      main sz jw jh elapsed argv1 Lat Long s0 = Exit n s_end ->
      ~ read_attempted (trace s_end))
  /\ (GTIFF_PIXELSCALE f = None ->
      fails_with (main sz jw jh elapsed argv1 Lat Long s0) MetadataError 11)
  /\ (forall ps g',
        GTIFF_PIXELSCALE f = Some ps ->
        bufferGeometry
          (set_pixelSize ps
             (legacyScales jw jh (sessionWithTags (DEM_Gtif s0) (Ptr (next s0)) f b)))
        = Some g' ->
        (GTIFF_TIEPOINTS f = None ->
         fails_with (main sz jw jh elapsed argv1 Lat Long s0) MetadataError 11)
        /\ (forall tp bytes,
              GTIFF_TIEPOINTS f = Some tp ->
              int_mul (scanlineSize g') (windowSize g') = Some bytes ->
              0 <= scanlineSize g' -> mallocs s0 = [] ->
              (0 <= windowSize g' -> 0 <= sz -> windowSize g' * sz <= bytes ->
               fails_with (main sz jw jh elapsed argv1 Lat Long s0)
                 UnsupportedFormatError 11)
              /\ (0 < windowSize g' -> 0 < sz -> bytes < windowSize g' * sz ->
                  main sz jw jh elapsed argv1 Lat Long s0 = Undefined))
        /\ (forall tp,
              GTIFF_TIEPOINTS f = Some tp -> 0 <= b < 8 ->
              0 < windowSize g' -> 0 < sz -> mallocs s0 = [] ->
              scanlineSize g' = 0
              /\ main sz jw jh elapsed argv1 Lat Long s0 = Undefined)).
Proof.
  intros Hf Hb Hdepth Hnoread.
  pose proof (setupGtif_opened sz jw jh argv1 f b (set_verbose true s0) Hf Hb) as Hrun.
  cbv zeta in Hrun. cbn [DEM_Gtif next set_verbose] in Hrun.
  assert (Hbits : forall ps g',
             bufferGeometry
               (set_pixelSize ps
                  (legacyScales jw jh (sessionWithTags (DEM_Gtif s0) (Ptr (next s0)) f b)))
             = Some g' -> bitsPerSample g' = b).
  { intros ps g' Hg. apply bufferGeometry_fields in Hg as (Hg & _).
    rewrite Hg. cbn [set_pixelSize legacyScales set_scaleX set_scaleY bitsPerSample].
    rewrite sessionWithTags_bits.
    destruct (Z.ltb_spec 8 b), (Z.leb_spec b 16); cbn [andb]; lia. }
  split; [|split].
  - intros n s_end Hm.
    destruct (setupGtif sz jw jh AddrOf_DEM_Gtif (Some argv1) (set_verbose true s0))
      as [r s1 | n1 s1 |] eqn:E.
    + exfalso. destruct (GTIFF_PIXELSCALE f) as [ps|]; [|discriminate Hrun].
      destruct (bufferGeometry _) as [g'|] eqn:Eg; [|discriminate Hrun].
      symmetry in Hrun. apply setupBuffers_Ret in Hrun. cbn [opened DEM_Gtif] in Hrun.
      rewrite (Hbits ps g' Eg) in Hrun. lia.
    + rewrite (main_exits_in_setup _ _ _ _ _ _ _ _ _ _ E) in Hm. injection Hm as <- <-.
      intros Hr. apply Hnoread.
      apply (preserves_Exit no_new_read _ _ _ _ (no_new_read_setupGtif _ _ _ _ _) E Hr).
    + rewrite (main_undefined_in_setup _ _ _ _ _ _ _ _ E) in Hm. discriminate Hm.
  - intros Hps. rewrite Hps in Hrun.
    rewrite (main_exits_in_setup _ _ _ _ _ _ _ _ _ _ Hrun).
    apply (fails_with_exit 11 _ CannotExtractPixelSize).
  - intros ps g' Hps Hg. rewrite Hps, Hg in Hrun.
    pose proof (bufferGeometry_fields _ _ Hg) as (_ & Htif & Hwd & _ & Hsl & _).
    cbn [set_pixelSize legacyScales set_scaleX set_scaleY tif] in Htif.
    rewrite sessionWithTags_tif in Htif.
    pose proof (to_int32_range
                  (width (set_pixelSize ps
                            (legacyScales jw jh
                               (sessionWithTags (DEM_Gtif s0) (Ptr (next s0)) f b)))
                   * (bitsPerSample
                        (set_pixelSize ps
                           (legacyScales jw jh
                              (sessionWithTags (DEM_Gtif s0) (Ptr (next s0)) f b))) ÷ 8)))
      as Hrange. rewrite <- Hsl in Hrange.
    assert (Hopen : tifs (opened (set_verbose true s0) argv1 f g') !! next s0 = Some f)
      by (cbn [opened tifs set_verbose next]; apply lookup_insert_eq).
    assert (Hover : forall tp bytes,
               GTIFF_TIEPOINTS f = Some tp ->
               int_mul (scanlineSize g') (windowSize g') = Some bytes ->
               0 <= scanlineSize g' -> mallocs s0 = [] ->
               0 < windowSize g' -> 0 < sz -> bytes < windowSize g' * sz ->
               main sz jw jh elapsed argv1 Lat Long s0 = Undefined).
    { intros tp bytes Htp Hmul Hs Hm Hw Hsz Hcap.
      rewrite (setupBuffers_overrun sz argv1 (next s0) f tp bytes) in Hrun;
        cbn [opened DEM_Gtif tifs next mallocs set_verbose];
        try assumption; try lia.
      exact (main_undefined_in_setup _ _ _ _ _ _ _ _ Hrun). }
    split; [|split].
    + intros Htp.
      rewrite (setupBuffers_no_tiepoints sz argv1 (next s0) f _ Hopen Htp) in Hrun.
      rewrite (main_exits_in_setup _ _ _ _ _ _ _ _ _ _ Hrun).
      apply (fails_with_exit 11 _ CannotExtractTiePoints).
    + intros tp bytes Htp Hmul Hs Hm. split; [|now apply (Hover tp bytes)].
      * intros Hw Hsz Hcap.
        destruct (setupBuffers_run sz argv1 (next s0) f tp bytes
                    (opened (set_verbose true s0) argv1 f g'))
          as (s2 & _ & _ & _ & _ & Hrun2);
          cbn [opened DEM_Gtif tifs next mallocs set_verbose];
          try assumption; try lia.
        cbn [opened DEM_Gtif] in Hrun2. rewrite Hrun2 in Hrun.
        replace (bitsPerSample g' =? 16) with false in Hrun
          by (symmetry; apply Z.eqb_neq; rewrite (Hbits ps g' Hg); lia).
        rewrite (main_exits_in_setup _ _ _ _ _ _ _ _ _ _ Hrun).
        apply (fails_with_exit 11 s2 (UnsupportedBitsPerSample (bitsPerSample g'))).
    + intros tp Htp Hlow Hw Hsz Hm.
      assert (Hzero : scanlineSize g' = 0).
      { rewrite Hsl.
        cbn [set_pixelSize legacyScales set_scaleX set_scaleY bitsPerSample width].
        rewrite sessionWithTags_bits.
        replace ((8 <? b) && (b <=? 16)) with false
          by (symmetry; apply andb_false_iff; left; apply Z.ltb_ge; lia).
        rewrite (Z.quot_small b 8) by lia. now rewrite Z.mul_0_r. }
      split; [exact Hzero|]. apply (Hover tp 0); try assumption; try lia.
      rewrite Hzero. reflexivity.
Qed.


(** Reading through a null handle. *)
Lemma readDEMvalue_null (LineNo PixelNo : Z) (s : state) :
  tif (DEM_Gtif s) = NULL -> readDEMvalue AddrOf_DEM_Gtif LineNo PixelNo s = Undefined.
Proof.
  intros H. unfold readDEMvalue. unfold bind at 1. unfold deref at 1.
  unfold bind at 1. unfold malloc. rewrite H.
  destruct (_ && _); reflexivity.
Qed.

Lemma setupGtif_unopenable (sz jw jh : Z) (name : string) (s : state) :
  files s name = None ->
  setupGtif sz jw jh AddrOf_DEM_Gtif (Some name) s
  = Ret false (log (EvStderr (CannotOpenFile name))
                 (log (EvOpen name NULL) (set_DEM_Gtif (set_tif NULL (DEM_Gtif s)) s))).
Proof.
  intros H. unfold setupGtif. unfold bind at 1. unfold assign at 1.
  unfold bind at 1. unfold TIFFOpen. cbn [files set_DEM_Gtif]. rewrite H.
  unfold bind at 1. unfold assign at 1. cbn [is_null].
  unfold bind, eprint, emit, ret. destruct s; reflexivity.
Qed.

Lemma lookupElevation_null (elapsed : Z) (Lat Long : spec_float) (s : state) :
  tif (DEM_Gtif s) = NULL ->
  fails_with (lookupElevation elapsed Lat Long s) OutOfRangeError 1
  \/ lookupElevation elapsed Lat Long s = Undefined.
Proof.
  intros H. remember (lookupElevation elapsed Lat Long s) as o eqn:Eo.
  unfold lookupElevation in Eo. unfold bind at 1 in Eo. rewrite checkLatLong_run in Eo.
  destruct (latOutside Lat (DEM_Gtif s)).
  { left. subst o. apply (fails_with_exit 1 s (LatOutOfRange Lat)). }
  destruct (longOutside Long (DEM_Gtif s)).
  { left. subst o. apply (fails_with_exit 1 s (LongOutOfRange Long)). }
  unfold bind at 1 in Eo. unfold deref at 1 in Eo.
  destruct (calcLineNo Lat (DEM_Gtif s)) as [l|]; [|now right].
  destruct (calcPixelNo Long (DEM_Gtif s)) as [p|]; [|now right].
  unfold bind at 1 in Eo. rewrite checkLinePixel_run in Eo.
  destruct (lineOutside l (DEM_Gtif s)).
  { left. subst o. apply (fails_with_exit 1 s (LineNoOutOfRange l (height (DEM_Gtif s)))). }
  destruct (pixelOutside p (DEM_Gtif s)).
  { left. subst o. apply (fails_with_exit 1 s (PixelNoOutOfRange p (width (DEM_Gtif s)))). }
  right. subst o. unfold bind at 1. unfold bind at 1.
  destruct (verbose s); cbn [when].
  - unfold bind at 1.
    destruct (toTimeString_cases elapsed s) as [E | (q & text & s' & E & Hg)]; rewrite E;
      [reflexivity|].
    unfold bind, print, emit. rewrite readDEMvalue_null; [reflexivity|].
    cbn [log DEM_Gtif]. now rewrite Hg.
  - unfold bind, ret. now rewrite readDEMvalue_null.
Qed.

(** C3: when the file cannot be opened, [setupGtif] reports it and
    returns [FALSE], but [main] does not look at the result: the run
    goes on with the session record as it is, does not end with the
    open error, and ends on an out-of-range error or in undefined
    behaviour. *)
Theorem open_failure_not_terminal (sz jw jh elapsed : Z) (argv1 : string)
    (Lat Long : spec_float) (s0 : state) :
  files s0 argv1 = None ->
  (exists s1,
      setupGtif sz jw jh AddrOf_DEM_Gtif (Some argv1) (set_verbose true s0) = Ret false s1
      /\ last (trace s1) = Some (EvStderr (CannotOpenFile argv1))
      /\ main sz jw jh elapsed argv1 Lat Long s0
         = lookupElevation elapsed Lat Long (set_DEM_Gtif (assumedBox (DEM_Gtif s1)) s1))
  /\ (forall n, ~ fails_with (main sz jw jh elapsed argv1 Lat Long s0) FileOpenError n)
  /\ (fails_with (main sz jw jh elapsed argv1 Lat Long s0) OutOfRangeError 1
      \/ main sz jw jh elapsed argv1 Lat Long s0 = Undefined).
Proof.
  intros Hf.
  pose proof (setupGtif_unopenable sz jw jh argv1 (set_verbose true s0) Hf) as Hs.
  pose proof (main_after_setup _ _ _ elapsed _ Lat Long _ _ _ Hs) as Hm.
  set (s1 := log _ _) in *.
  assert (Hnull : tif (DEM_Gtif (set_DEM_Gtif (assumedBox (DEM_Gtif s1)) s1)) = NULL)
    by reflexivity.
  pose proof (lookupElevation_null elapsed Lat Long _ Hnull) as Hl. rewrite <- Hm in Hl.
  split; [|split].
  - exists s1. split; [exact Hs|]. split; [|exact Hm]. subst s1. cbn [log trace]. apply last_snoc.
  - intros n Hfail. destruct Hl as [Hl | Hl].
    + destruct (fails_with_unique _ _ _ _ _ Hfail Hl) as [K _]. discriminate K.
    + destruct Hfail as (s' & d & He & _). rewrite Hl in He. discriminate He.
  - exact Hl.
Qed.

End Setup.

(** ** The window size *)
Module Window.
Import Fp Machine Dem Examples FpFacts Envelope Reader Frames Close Setup.

(** ** Rounding: what [binary_round_aux] returns in general *)

Lemma shr_nonpos (r : shr_record) (e n : Z) : n <= 0 -> shr r e n = (r, e).
Proof. intros H. destruct n as [|p|p]; try reflexivity. lia. Qed.

Lemma shr_record_of_loc_m (m : Z) (l : location) : shr_m (shr_record_of_loc m l) = m.
Proof. destruct l as [|[]]; reflexivity. Qed.

Lemma loc_of_shr_record_of_loc (m : Z) (l : location) :
  loc_of_shr_record (shr_record_of_loc m l) = l.
Proof. destruct l as [|[]]; reflexivity. Qed.

Lemma round_nearest_even_range (m : Z) (l : location) :
  m <= round_nearest_even m l <= m + 1
  /\ (l = loc_Exact -> round_nearest_even m l = m).
Proof.
  destruct l as [|[]]; cbn [round_nearest_even]; try (split; [lia | reflexivity || discriminate]).
  destruct (Z.even m); split; try lia; discriminate.
Qed.

Lemma Zdigits2_bounds (m : Z) :
  0 < m -> 2 ^ (Zdigits2 m - 1) <= m < 2 ^ Zdigits2 m.
Proof. destruct m as [|p|p]; try lia. intros _. apply digits2_pos_bounds. Qed.

Lemma Zdigits2_le (m n : Z) : 0 <= n -> 0 <= m < 2 ^ n -> Zdigits2 m <= n.
Proof.
  intros Hn [H0 Hm]. destruct m as [|p|p]; try lia.
  - cbn. exact Hn.
  - now apply digits2_pos_le.
Qed.

Lemma Zdigits2_pos (m : Z) : 0 < m -> 0 < Zdigits2 m.
Proof. destruct m; cbn; lia. Qed.

(** The first of the two shifts of [binary_round_aux]: the mantissa loses
    [n] bits, and nothing is flagged as lost when nothing was. *)
Lemma shr_first (mx ex n : Z) (lx : location) :
  0 <= mx -> 0 <= n ->
  let r := fst (shr (shr_record_of_loc mx lx) ex n) in
  snd (shr (shr_record_of_loc mx lx) ex n) = ex + n
  /\ shr_m r = mx / 2 ^ n
  /\ (lx = loc_Exact -> mx mod 2 ^ n = 0 -> loc_of_shr_record r = loc_Exact).
Proof.
  intros Hm Hn. destruct n as [|p|p]; try lia.
  - cbn [shr fst snd]. rewrite shr_record_of_loc_m, loc_of_shr_record_of_loc.
    rewrite Z.add_0_r, Z.pow_0_r, Z.div_1_r. auto.
  - cbn [shr fst snd]. split; [reflexivity|]. split.
    + rewrite shr_iter_m by (rewrite shr_record_of_loc_m; exact Hm).
      now rewrite shr_record_of_loc_m.
    + intros -> Hmod. cbn [shr_record_of_loc].
      pose proof (pow2_pos (Zpos p) ltac:(lia)) as Hp.
      replace mx with (mx / 2 ^ Zpos p * 2 ^ Zpos p) at 1
        by (pose proof (Z.div_mod mx (2 ^ Zpos p)); lia).
      rewrite shr_iter_exact by (apply Z.div_pos; lia). reflexivity.
Qed.

(** The second shift: a rounded mantissa of at most 53 bits is kept, and
    [2^53] is renormalized. *)
Lemma shr_second (s : bool) (c E : Z) :
  0 <= c <= 2 ^ 53 -> -1074 <= E < 971 ->
  let '(mrs, e) := shr_fexp 53 1024 c E loc_Exact in
  let r := match shr_m mrs with
           | Z0 => S754_zero s
           | Zpos m => if e <=? 1024 - 53 then S754_finite s m e else S754_infinity s
           | Zneg _ => S754_nan
           end in
  is_finite r = true /\ (SF2Q r == inject_Z (cond_Zopp s c) * Qpow2 E)%Q.
Proof.
  intros Hc HE. unfold shr_fexp. rewrite fexp_double. cbn [shr_record_of_loc].
  destruct (Z.eq_dec c (2 ^ 53)) as [-> | Hne].
  - change (Zdigits2 (2 ^ 53)) with 54.
    replace (Z.max (54 + E - 53) (-1074) - E) with 1 by lia.
    cbn [shr SpecFloat.iter_pos shr_1 shr_m]. change (2 ^ 53) with 9007199254740992.
    cbn [shr_1 shr_m].
    replace (E + 1 <=? 1024 - 53) with true by (symmetry; apply Z.leb_le; lia).
    split; [reflexivity|]. rewrite SF2Q_finite.
    apply (Qscaled_eq_at E); try lia. rewrite !cond_Zopp_mul.
    replace (E + 1 - E) with 1 by lia. rewrite Z.sub_diag. reflexivity.
  - assert (Hd : Zdigits2 c <= 53) by (apply Zdigits2_le; lia).
    rewrite shr_nonpos by lia. cbn [shr_m].
    destruct c as [|pc|pc]; try lia.
    + split; [reflexivity|]. cbn [SF2Q]. destruct s; cbn [cond_Zopp Z.opp]; apply Qzero_scaled.
    + replace (E <=? 1024 - 53) with true by (symmetry; apply Z.leb_le; lia).
      split; reflexivity.
Qed.

Lemma binary_round_aux_bracket (s : bool) (mx ex : Z) (lx : location) :
  0 < mx ->
  let E := fexp 53 1024 (Zdigits2 mx + ex) in
  ex <= E -> E < 971 ->
  exists c,
    mx / 2 ^ (E - ex) <= c <= mx / 2 ^ (E - ex) + 1
    /\ (c = mx / 2 ^ (E - ex) + 1 -> lx <> loc_Exact \/ mx mod 2 ^ (E - ex) <> 0)
    /\ is_finite (binary_round_aux 53 1024 s mx ex lx) = true
    /\ (SF2Q (binary_round_aux 53 1024 s mx ex lx)
        == inject_Z (cond_Zopp s c) * Qpow2 E)%Q.
Proof.
  intros Hm E Hn HE.
  assert (HE0 : -1074 <= E) by (unfold E; rewrite fexp_double; lia).
  pose proof (Zdigits2_bounds mx Hm) as [_ Hu].
  assert (Hd : Zdigits2 mx - (E - ex) <= 53) by (unfold E; rewrite fexp_double; lia).
  pose proof (pow2_pos (E - ex) ltac:(lia)) as Hp.
  assert (Hm1 : 0 <= mx / 2 ^ (E - ex) < 2 ^ 53).
  { split; [apply Z.div_pos; lia|]. apply Z.div_lt_upper_bound; [lia|].
    rewrite <- Z.pow_add_r by lia.
    pose proof (Zdigits2_bounds mx Hm) as [Hl _].
    assert (0 < Zdigits2 mx) by (destruct mx; cbn; lia).
    pose proof (pow2_le_mono (Zdigits2 mx) (E - ex + 53)). lia. }
  remember (binary_round_aux 53 1024 s mx ex lx) as R eqn:ER.
  unfold binary_round_aux in ER. unfold shr_fexp at 1 in ER. fold E in ER.
  destruct (shr_first mx ex (E - ex) lx ltac:(lia) ltac:(lia)) as (He & Hsm & Hex).
  destruct (shr (shr_record_of_loc mx lx) ex (E - ex)) as [mrs' e'] eqn:Eshr.
  cbn [fst snd] in He, Hsm, Hex. subst e'. replace (ex + (E - ex)) with E in ER by lia.
  pose proof (round_nearest_even_range (shr_m mrs') (loc_of_shr_record mrs')) as [Hr Hre].
  set (c := round_nearest_even (shr_m mrs') (loc_of_shr_record mrs')) in *.
  rewrite Hsm in Hr, Hre.
  exists c. split; [exact Hr|]. split.
  - intros Hc. destruct lx as [|cmp]; [|left; discriminate].
    right. intros Hmod. specialize (Hex eq_refl Hmod). specialize (Hre Hex). lia.
  - pose proof (shr_second s c E ltac:(lia) ltac:(lia)) as H2.
    destruct (shr_fexp 53 1024 c E loc_Exact) as [mrs'' e'']. cbv zeta in H2.
    subst R. exact H2.
Qed.

(** The rounded mantissa stays between two bounds on the grid of the
    result that enclose the value being rounded. *)
Lemma bracket_bounds (mx n c A B : Z) (inexact : Prop) :
  0 <= n ->
  mx / 2 ^ n <= c <= mx / 2 ^ n + 1 ->
  (c = mx / 2 ^ n + 1 -> inexact \/ mx mod 2 ^ n <> 0) ->
  A * 2 ^ n <= mx -> mx <= B * 2 ^ n -> (inexact -> mx < B * 2 ^ n) ->
  A <= c <= B.
Proof.
  intros Hn Hc Hinc HA HB Hstrict. pose proof (pow2_pos n Hn) as Hp.
  assert (HlA : A <= mx / 2 ^ n) by (apply Z.div_le_lower_bound; lia).
  split; [lia|].
  destruct (Z.eq_dec c (mx / 2 ^ n + 1)) as [E | NE].
  - assert (Hlt : mx < B * 2 ^ n).
    { destruct (Hinc E) as [Hi | Hmod]; [now apply Hstrict|].
      destruct (Z.eq_dec mx (B * 2 ^ n)) as [-> | K]; [|lia].
      exfalso. apply Hmod. apply Z.mod_mul. lia. }
    assert (mx / 2 ^ n < B) by (apply Z.div_lt_upper_bound; lia). lia.
  - assert (mx / 2 ^ n <= B) by (apply Z.div_le_upper_bound; lia). lia.
Qed.

Lemma digits_exp_le (p : positive) (e k : Z) :
  (inject_Z (Zpos p) * Qpow2 e < inject_Z 1 * Qpow2 k)%Q ->
  Zpos (digits2_pos p) + e <= k.
Proof.
  intros H. pose proof (digits2_pos_bounds p) as [Hl _].
  destruct (Z_le_gt_dec (Zpos (digits2_pos p) + e) k) as [L | G]; [exact L | exfalso].
  apply (Qscaled_lt_at (Z.min e k)) in H; try lia.
  pose proof (pow2_pos (e - Z.min e k) ltac:(lia)) as P1.
  assert (2 ^ (k - Z.min e k) <= 2 ^ (Zpos (digits2_pos p) - 1) * 2 ^ (e - Z.min e k)).
  { rewrite <- Z.pow_add_r by lia. apply pow2_le_mono. lia. }
  nia.
Qed.

(** Rounding a positive integer [p] at exponent [e]: the result lies
    between any two points of a grid [2^g] that enclose [p * 2^e], as
    long as the grid is no finer than the format allows there. *)
Lemma binary_round_between (p : positive) (e a b g : Z) :
  fexp 53 1024 (Zpos (digits2_pos p) + e) <= g -> g < 971 ->
  (inject_Z a * Qpow2 g <= inject_Z (Zpos p) * Qpow2 e)%Q ->
  (inject_Z (Zpos p) * Qpow2 e <= inject_Z b * Qpow2 g)%Q ->
  is_finite (binary_round 53 1024 false p e) = true
  /\ (inject_Z a * Qpow2 g <= SF2Q (binary_round 53 1024 false p e))%Q
  /\ (SF2Q (binary_round 53 1024 false p e) <= inject_Z b * Qpow2 g)%Q.
Proof.
  intros HE Hg Hlo Hhi. unfold binary_round.
  set (E := fexp 53 1024 (Zpos (digits2_pos p) + e)) in *.
  assert (HE0 : -1074 <= E) by (unfold E; rewrite fexp_double; lia).
  unfold shl_align. destruct (E - e) as [|n|n] eqn:En.
  - (* no shift at all *)
    pose proof (binary_round_aux_bracket false (Zpos p) e loc_Exact) as K.
    cbv zeta in K. cbn [Zdigits2] in K. fold E in K. rewrite En in K.
    destruct K as (c & Hc & Hinc & Hf & Hv); try lia.
    rewrite Z.pow_0_r, Z.div_1_r in Hc, Hinc.
    assert (c = Zpos p).
    { destruct (Z.eq_dec c (Zpos p + 1)) as [K|K]; [|lia].
      destruct (Hinc K) as [K'|K']; [congruence|]. now rewrite Z.mod_1_r in K'. }
    subst c. split; [exact Hf|]. rewrite Hv. cbn [cond_Zopp].
    replace E with e by lia. split; assumption.
  - (* the mantissa is too long: rounding *)
    pose proof (binary_round_aux_bracket false (Zpos p) e loc_Exact) as K.
    cbv zeta in K. cbn [Zdigits2] in K. fold E in K.
    destruct K as (c & Hc & Hinc & Hf & Hv); try lia.
    split; [exact Hf|]. rewrite Hv. cbn [cond_Zopp].
    apply (Qscaled_le_at e) in Hlo; try lia. apply (Qscaled_le_at e) in Hhi; try lia.
    rewrite Z.sub_diag, Z.mul_1_r in Hlo, Hhi.
    assert (Hpw : forall k, k * 2 ^ (g - E) * 2 ^ (E - e) = k * 2 ^ (g - e)).
    { intros k. rewrite <- Z.mul_assoc, <- Z.pow_add_r by lia.
      now replace (g - E + (E - e)) with (g - e) by lia. }
    assert (HAB : a * 2 ^ (g - E) <= c <= b * 2 ^ (g - E)).
    { apply (bracket_bounds (Zpos p) (E - e) c _ _ False); rewrite ?Hpw;
        try assumption; try lia; try tauto. }
    split; apply (Qscaled_le_at E); try lia; rewrite Z.sub_diag, Z.mul_1_r; lia.
  - (* the mantissa is shifted left: exact *)
    assert (Hm : Zpos (Pos.iter xO p n) = Zpos p * 2 ^ Zpos n) by apply iter_xO.
    assert (Hd : Zpos (digits2_pos (Pos.iter xO p n)) = Zpos (digits2_pos p) + Zpos n)
      by (apply (digits2_pos_shift p (Zpos n)); lia).
    assert (Hb : bounded 53 1024 (Pos.iter xO p n) E = true).
    { unfold bounded, canonical_mantissa. rewrite Hd.
      replace (Zpos (digits2_pos p) + Zpos n + E) with (Zpos (digits2_pos p) + e) by lia.
      fold E. rewrite Z.eqb_refl. cbn. apply Z.leb_le. lia. }
    rewrite binary_round_aux_canonical by exact Hb.
    split; [reflexivity|].
    assert (Hv : (SF2Q (S754_finite false (Pos.iter xO p n) E)
                  == inject_Z (Zpos p) * Qpow2 e)%Q).
    { rewrite SF2Q_finite. cbn [cond_Zopp]. rewrite Hm, Qscale by lia.
      now replace (E + Zpos n) with e by lia. }
    rewrite Hv. split; assumption.
Qed.

(** An integer below [2^53] converts to a [double] exactly, with a full
    53-bit mantissa. *)
Lemma double_of_Z_pos (h : Z) :
  0 < h < 2 ^ 53 ->
  exists mh : positive,
    double_of_Z h = S754_finite false mh (Zdigits2 h - 53)
    /\ Zpos mh = h * 2 ^ (53 - Zdigits2 h)
    /\ Zpos (digits2_pos mh) = 53.
Proof.
  intros [H0 H53]. destruct h as [|p|p]; try lia.
  pose proof (digits2_pos_bounds p) as [Bl Bu].
  assert (Hd : Zpos (digits2_pos p) <= 53) by (apply digits2_pos_le; lia).
  assert (Hd0 : 0 < Zpos (digits2_pos p)) by lia.
  destruct (binary_round_exact false p 0) as (q & Hq & Hb & Hv).
  - rewrite fexp_double. lia.
  - left. rewrite fexp_double. lia.
  - rewrite fexp_double in Hq, Hb, Hv.
    replace (Z.max (Zpos (digits2_pos p) + 0 - 53) (-1074))
      with (Zpos (digits2_pos p) - 53) in Hq, Hb, Hv by lia.
    replace (Z.min 0 (Zpos (digits2_pos p) - 53)) with (Zpos (digits2_pos p) - 53) in Hv by lia.
    rewrite Z.sub_diag, Z.mul_1_r in Hv.
    replace (0 - (Zpos (digits2_pos p) - 53)) with (53 - Zpos (digits2_pos p)) in Hv by lia.
    exists q. cbn [Zdigits2]. split; [exact Hq|]. split; [exact Hv|].
    apply digits2_pos_unique; [lia|]. rewrite Hv.
    pose proof (pow2_pos (53 - Zpos (digits2_pos p)) ltac:(lia)) as Hp.
    assert (E1 : 2 ^ (Zpos (digits2_pos p) - 1) * 2 ^ (53 - Zpos (digits2_pos p)) = 2 ^ (53 - 1)).
    { rewrite <- Z.pow_add_r by lia. f_equal. lia. }
    assert (E2 : 2 ^ Zpos (digits2_pos p) * 2 ^ (53 - Zpos (digits2_pos p)) = 2 ^ 53).
    { rewrite <- Z.pow_add_r by lia. f_equal. lia. }
    split; nia.
Qed.

Lemma new_location_inexact (n k : Z) : new_location n k <> loc_Exact -> k <> 0.
Proof.
  intros H ->. apply H. unfold new_location, new_location_even, new_location_odd.
  now destruct (Z.even n).
Qed.

(** The quotient and remainder a division of two full mantissas is
    rounded from. *)
Lemma SFdiv_core_full (m1 m2 : positive) (e1 e2 : Z) :
  Zpos (digits2_pos m1) = 53 -> Zpos (digits2_pos m2) = 53 ->
  -1021 <= e1 - e2 ->
  SFdiv_core_binary 53 1024 (Zpos m1) e1 (Zpos m2) e2
  = ((Zpos m1 * 2 ^ 53) / Zpos m2, e1 - e2 - 53,
     new_location (Zpos m2) ((Zpos m1 * 2 ^ 53) mod Zpos m2)).
Proof.
  intros H1 H2 He. unfold SFdiv_core_binary. cbn [Zdigits2]. rewrite H1, H2.
  rewrite fexp_double.
  replace (Z.min (Z.max (53 + e1 - (53 + e2) - 53) (-1074)) (e1 - e2))
    with (e1 - e2 - 53) by lia.
  replace (e1 - e2 - (e1 - e2 - 53)) with 53 by lia.
  rewrite Z.shiftl_mul_pow2 by lia.
  unfold Z.div, Z.modulo. now destruct (Z.div_eucl (Zpos m1 * 2 ^ 53) (Zpos m2)).
Qed.

(** The quotient of a positive [uint32] by a positive [int], computed on
    [double]: it stays between the integer quotient [N] and the last
    point of the grid [2^-t] before [N + 1], where [t] is the bit length
    of the divisor. *)
Lemma ddiv_ints (h j : Z) :
  0 < h < 2 ^ 32 -> 0 < j < 2 ^ 31 ->
  let r := ddiv (double_of_Z h) (double_of_Z j) in
  let t := Zdigits2 j in
  is_finite r = true
  /\ (inject_Z (h / j * 2 ^ t) * Qpow2 (- t) <= SF2Q r)%Q
  /\ (SF2Q r <= inject_Z ((h / j + 1) * 2 ^ t - 1) * Qpow2 (- t))%Q.
Proof.
  intros Hh Hj r t. subst r.
  pose proof (Zdigits2_bounds h ltac:(lia)) as [Hhl Hhu].
  pose proof (Zdigits2_bounds j ltac:(lia)) as [Hjl Hju]. fold t in Hjl, Hju.
  assert (Hdh : Zdigits2 h <= 32) by (apply Zdigits2_le; lia).
  assert (Hdj : t <= 31) by (apply Zdigits2_le; lia).
  assert (Hdh0 : 0 < Zdigits2 h) by (apply Zdigits2_pos; lia).
  assert (Hdj0 : 0 < t) by (apply Zdigits2_pos; lia).
  destruct (double_of_Z_pos h) as (mh & Eh & Vh & Dh); [lia|].
  destruct (double_of_Z_pos j) as (mj & Ej & Vj & Dj); [lia|]. fold t in Ej, Vj.
  rewrite Eh, Ej. unfold ddiv, SFdiv. rewrite SFdiv_core_full by (assumption || lia).
  cbn [xorb].
  set (dh := Zdigits2 h) in *.
  set (N := h / j).
  set (q := Zpos mh * 2 ^ 53 / Zpos mj).
  set (rm := (Zpos mh * 2 ^ 53) mod Zpos mj).
  set (e' := dh - 53 - (t - 53) - 53).
  pose proof (digits2_pos_bounds mh) as [Bhl Bhu]. rewrite Dh in Bhl, Bhu.
  pose proof (digits2_pos_bounds mj) as [Bjl Bju]. rewrite Dj in Bjl, Bju.
  change (2 ^ (53 - 1)) with (2 ^ 52) in Bhl, Bjl.
  assert (Hq52 : 2 ^ 52 <= q).
  { apply Z.div_le_lower_bound; [lia|].
    transitivity (2 ^ 53 * 2 ^ 52); [|rewrite (Z.mul_comm (2 ^ 53))].
    - apply Z.mul_le_mono_nonneg_r; lia.
    - apply Z.mul_le_mono_nonneg_r; lia. }
  assert (Hq54 : q < 2 ^ 54).
  { apply Z.div_lt_upper_bound; [lia|].
    apply Z.lt_le_trans with (2 ^ 53 * 2 ^ 53).
    - apply Z.mul_lt_mono_pos_r; lia.
    - change (2 ^ 53 * 2 ^ 53) with (2 ^ 52 * 2 ^ 54).
      apply Z.mul_le_mono_nonneg_r; lia. }
  pose proof (Zdigits2_bounds q ltac:(lia)) as [Hql Hqu].
  pose proof (Zdigits2_pos q ltac:(lia)) as Hd0.
  set (d := Zdigits2 q) in *.
  assert (Hd : 53 <= d <= 54).
  { split.
    - destruct (Z_le_gt_dec 53 d) as [L|G]; [exact L|].
      pose proof (pow2_le_mono d 52). lia.
    - destruct (Z_le_gt_dec d 54) as [L|G]; [exact L|].
      pose proof (pow2_le_mono 54 (d - 1)). lia. }
  pose proof (binary_round_aux_bracket false q e'
                (new_location (Zpos mj) rm)) as K.
  cbv zeta in K. fold d in K. rewrite fexp_double in K.
  replace (Z.max (d + e' - 53) (-1074)) with (d + e' - 53) in K by lia.
  destruct K as (c & Hc & Hinc & Hf & Hv); try lia.
  split; [exact Hf|]. rewrite Hv. cbn [cond_Zopp].
  set (E := d + e' - 53) in *.
  (* the powers of two involved *)
  set (P := 2 ^ (53 - dh)). set (T := 2 ^ (53 - t)).
  assert (HP : 0 < P) by (apply pow2_pos; lia).
  assert (HT : 0 < T) by (apply pow2_pos; lia).
  assert (HTt : T * 2 ^ t = 2 ^ 53).
  { unfold T. rewrite <- Z.pow_add_r by lia. f_equal. lia. }
  assert (He'P : 2 ^ (- e') = P * 2 ^ t).
  { unfold P. rewrite <- Z.pow_add_r by lia. f_equal. lia. }
  assert (Hn : 2 ^ (- E) * 2 ^ (E - e') = 2 ^ (- e')).
  { rewrite <- Z.pow_add_r by lia. f_equal. lia. }
  assert (Hnt : 2 ^ (- E - t) * 2 ^ (E - e') = P).
  { unfold P. rewrite <- Z.pow_add_r by lia. f_equal. lia. }
  assert (Htt : 2 ^ t * 2 ^ (- t - E) = 2 ^ (- E)).
  { rewrite <- Z.pow_add_r by lia. f_equal. lia. }
  pose proof (pow2_pos t ltac:(lia)) as H2t.
  (* the integer quotient *)
  assert (HNl : j * N <= h) by (apply Z.mul_div_le; lia).
  assert (HNu : h < j * (N + 1)).
  { pose proof (Z.mul_succ_div_gt h j ltac:(lia)). unfold N. lia. }
  assert (HN0 : 0 <= N) by (apply Z.div_pos; lia).
  (* the quotient of the mantissas *)
  assert (Hdiv : Zpos mh * 2 ^ 53 = Zpos mj * q + rm) by (apply Z.div_mod; lia).
  assert (Hrm : 0 <= rm < Zpos mj) by (apply Z.mod_pos_bound; lia).
  fold dh in Vh. fold P in Vh. fold T in Vj.
  assert (HW : 0 <= P * T) by (apply Z.lt_le_incl, Z.mul_pos_pos; assumption).
  assert (Hup : Zpos mh * 2 ^ 53 <= ((N + 1) * 2 ^ t - 1) * P * Zpos mj).
  { rewrite Vh, Vj, <- HTt.
    assert (K0 : h * 2 ^ t <= ((N + 1) * 2 ^ t - 1) * j) by nia.
    replace (h * P * (T * 2 ^ t)) with (h * 2 ^ t * (P * T)) by ring.
    replace (((N + 1) * 2 ^ t - 1) * P * (j * T))
      with (((N + 1) * 2 ^ t - 1) * j * (P * T)) by ring.
    now apply Z.mul_le_mono_nonneg_r. }
  assert (Hlow : Zpos mj * (N * (P * 2 ^ t)) <= Zpos mh * 2 ^ 53).
  { rewrite Vh, Vj, <- HTt.
    replace (j * T * (N * (P * 2 ^ t))) with (j * N * 2 ^ t * (P * T)) by ring.
    replace (h * P * (T * 2 ^ t)) with (h * 2 ^ t * (P * T)) by ring.
    apply Z.mul_le_mono_nonneg_r; [exact HW|].
    apply Z.mul_le_mono_nonneg_r; [lia | exact HNl]. }
  assert (HAB : N * 2 ^ (- E) <= c <= ((N + 1) * 2 ^ t - 1) * 2 ^ (- E - t)).
  { apply (bracket_bounds q (E - e') c _ _ (new_location (Zpos mj) rm <> loc_Exact));
      try assumption; try lia.
    - rewrite <- Z.mul_assoc, Hn, He'P. apply Z.div_le_lower_bound; [lia | exact Hlow].
    - rewrite <- Z.mul_assoc, Hnt.
      apply (Z.mul_le_mono_pos_r _ _ (Zpos mj)); lia.
    - intros Hloc. apply new_location_inexact in Hloc.
      rewrite <- Z.mul_assoc, Hnt.
      apply (Z.mul_lt_mono_pos_r (Zpos mj)); lia. }
  split; apply (Qscaled_le_at E); try lia; rewrite Z.sub_diag, Z.mul_1_r.
  - rewrite <- Z.mul_assoc, Htt. lia.
  - replace (- t - E) with (- E - t) by lia. lia.
Qed.

Lemma Qgrid_add_one (a t : Z) :
  0 <= t -> (inject_Z (a + 2 ^ t) * Qpow2 (- t) == inject_Z a * Qpow2 (- t) + 1)%Q.
Proof.
  intros Ht. rewrite inject_Z_plus, Qpow2_inject by exact Ht.
  assert (E : (Qpow2 t * Qpow2 (- t) == 1)%Q).
  { rewrite <- Qpow2_add. replace (t + - t) with 0 by lia. reflexivity. }
  rewrite Qmult_plus_distr_l, E. reflexivity.
Qed.

Lemma const_one : double_of_Z 1 = S754_finite false 4503599627370496 (-52).
Proof. reflexivity. Qed.

Lemma value_one : (SF2Q (double_of_Z 1) == 1)%Q.
Proof. reflexivity. Qed.

(** Adding [1.0] to a nonnegative double that lies between two points of
    a grid [2^-t] gives a double between the two points shifted by one. *)
Lemma dadd_one_between (x : spec_float) (a b t : Z) :
  is_finite x = true -> 0 <= t <= 1074 -> 0 <= a -> b + 2 ^ t < 2 ^ 53 ->
  (inject_Z a * Qpow2 (- t) <= SF2Q x)%Q ->
  (SF2Q x <= inject_Z b * Qpow2 (- t))%Q ->
  is_finite (dadd x (double_of_Z 1)) = true
  /\ (inject_Z (a + 2 ^ t) * Qpow2 (- t) <= SF2Q (dadd x (double_of_Z 1)))%Q
  /\ (SF2Q (dadd x (double_of_Z 1)) <= inject_Z (b + 2 ^ t) * Qpow2 (- t))%Q.
Proof.
  intros Hf Ht Ha Hb Hlo Hhi.
  assert (Hlo1 : (inject_Z (a + 2 ^ t) * Qpow2 (- t) <= SF2Q x + 1)%Q).
  { rewrite Qgrid_add_one by lia. apply Qplus_le_l. exact Hlo. }
  assert (Hhi1 : (SF2Q x + 1 <= inject_Z (b + 2 ^ t) * Qpow2 (- t))%Q).
  { rewrite Qgrid_add_one by lia. apply Qplus_le_l. exact Hhi. }
  destruct x as [s | s | | s m e]; cbn [is_finite] in Hf; try discriminate.
  - (* zero: the sum is the second operand *)
    rewrite const_one. unfold dadd. cbn [SFadd]. rewrite <- const_one.
    split; [reflexivity|]. rewrite value_one.
    cbn [SF2Q] in Hlo1, Hhi1. rewrite Qplus_0_l in Hlo1, Hhi1. split; assumption.
  - destruct s.
    { exfalso. assert (N : (SF2Q (S754_finite true m e) < 0)%Q) by now apply SF2Q_neg.
      assert (P : (0 <= inject_Z a * Qpow2 (- t))%Q).
      { apply Qmult_le_0_compat; [|apply Qlt_le_weak, Qpow2_pos].
        change 0%Q with (inject_Z 0). rewrite <- Zle_Qle. exact Ha. }
      apply (Qlt_not_le _ _ N). now apply Qle_trans with (inject_Z a * Qpow2 (- t))%Q. }
    rewrite const_one. unfold dadd. cbn [SFadd cond_Zopp].
    set (ez := Z.min e (-52)).
    set (p1 := fst (shl_align m e ez)).
    set (p2 := fst (shl_align 4503599627370496 (-52) ez)).
    change (Zpos p1 + Zpos p2) with (Zpos (p1 + p2)). cbn [binary_normalize].
    assert (Hv : (inject_Z (Zpos (p1 + p2)) * Qpow2 ez
                  == SF2Q (S754_finite false m e) + 1)%Q).
    { rewrite Pos2Z.inj_add, inject_Z_plus, Qmult_plus_distr_l.
      pose proof (aligned_value false m e ez ltac:(lia)) as A1.
      pose proof (aligned_value false 4503599627370496 (-52) ez ltac:(lia)) as A2.
      cbn [cond_Zopp] in A1, A2. fold p1 in A1. fold p2 in A2.
      rewrite A1, A2. rewrite <- const_one, value_one. reflexivity. }
    apply binary_round_between.
    + rewrite fexp_double.
      assert (D : Zpos (digits2_pos (p1 + p2)) + ez <= 53 - t).
      { apply digits_exp_le. rewrite Hv.
        apply Qle_lt_trans with (inject_Z (b + 2 ^ t) * Qpow2 (- t))%Q; [exact Hhi1|].
        apply (Qscaled_lt_at (- t)); try lia.
        rewrite Z.sub_diag, Z.mul_1_r, Z.mul_1_l.
        replace (53 - t - - t) with 53 by lia. exact Hb. }
      lia.
    + lia.
    + rewrite Hv. exact Hlo1.
    + rewrite Hv. exact Hhi1.
Qed.

Lemma Qfloor_unique (q : Q) (n : Z) :
  (inject_Z n <= q)%Q -> (q < inject_Z (n + 1))%Q -> Qfloor q = n.
Proof.
  intros Hl Hu. pose proof (Qfloor_le q) as Fl. pose proof (Qlt_floor q) as Fu.
  assert (A : Qfloor q < n + 1).
  { rewrite Zlt_Qlt. now apply Qle_lt_trans with q. }
  assert (B : n < Qfloor q + 1).
  { rewrite Zlt_Qlt. now apply Qle_lt_trans with q. }
  lia.
Qed.

(** A value between [n] and the last point of the grid [2^-t] before
    [n + 1] has integer part [n]. *)
Lemma grid_floor (q : Q) (n t : Z) :
  0 <= t ->
  (inject_Z (n * 2 ^ t) * Qpow2 (- t) <= q)%Q ->
  (q <= inject_Z ((n + 1) * 2 ^ t - 1) * Qpow2 (- t))%Q ->
  Qfloor q = n.
Proof.
  intros Ht Hl Hu. pose proof (pow2_pos t Ht) as Hp. apply Qfloor_unique.
  - assert (E : (inject_Z n == inject_Z (n * 2 ^ t) * Qpow2 (- t))%Q).
    { rewrite Qscale by exact Ht. replace (- t + t) with 0 by lia. apply Qint. }
    now rewrite E.
  - apply Qle_lt_trans with (inject_Z ((n + 1) * 2 ^ t - 1) * Qpow2 (- t))%Q; [exact Hu|].
    rewrite (Qint (n + 1)). apply (Qscaled_lt_at (- t)); try lia.
    rewrite Z.sub_diag, Z.mul_1_r. replace (0 - - t) with t by lia. lia.
Qed.

(** Lines 178 and 187 on the numbers: for a raster height [h] and a
    positive divisor [j], the quotient computed on [double] has integer
    part [h / j], and adding [1.0] and converting to [int] gives
    [h / j + 1]. *)
Lemma window_of_heights (h j : Z) :
  0 <= h < 2 ^ 32 -> 0 < j < 2 ^ 31 -> h / j < INT_MAX ->
  let sy := ddiv (double_of_Z h) (double_of_Z j) in
  is_finite sy = true
  /\ Qfloor (SF2Q sy) = h / j
  /\ int_of_double (dadd sy (double_of_Z 1)) = Some (h / j + 1).
Proof.
  intros Hh Hj HN sy. subst sy.
  destruct (Z.eq_dec h 0) as [-> | Hh0].
  - destruct (double_of_Z_pos j) as (mj & Ej & _); [lia|]. rewrite Ej.
    rewrite Z.div_0_l by lia. repeat split.
  - set (t := Zdigits2 j). set (N := h / j) in *.
    destruct (ddiv_ints h j) as (Hf & Hlo & Hhi); [lia | lia |].
    fold t in Hlo, Hhi. fold N in Hlo, Hhi.
    set (sy := ddiv (double_of_Z h) (double_of_Z j)) in *.
    assert (Ht : 0 < t <= 31).
    { split; [apply Zdigits2_pos; lia | apply Zdigits2_le; lia]. }
    pose proof (pow2_pos t ltac:(lia)) as Hp.
    pose proof (Zdigits2_bounds j ltac:(lia)) as [Hjl _]. fold t in Hjl.
    assert (HN0 : 0 <= N) by (apply Z.div_pos; lia).
    assert (HNj : j * N <= h) by (apply Z.mul_div_le; lia).
    assert (H2 : 2 ^ t = 2 * 2 ^ (t - 1)).
    { rewrite <- Z.pow_succ_r by lia. f_equal. lia. }
    assert (HNt : N * 2 ^ t <= 2 * h).
    { rewrite H2. assert (N * 2 ^ (t - 1) <= N * j) by (apply Z.mul_le_mono_nonneg_l; lia).
      lia. }
    assert (Ht31 : 2 ^ t <= 2 ^ 31) by (apply pow2_le_mono; lia).
    split; [exact Hf|]. split.
    + apply (grid_floor _ N t); [lia | exact Hlo | exact Hhi].
    + destruct (dadd_one_between sy (N * 2 ^ t) ((N + 1) * 2 ^ t - 1) t)
        as (Hf' & Hlo' & Hhi'); try assumption; try lia.
      assert (F : Qfloor (SF2Q (dadd sy (double_of_Z 1))) = N + 1).
      { apply (grid_floor _ (N + 1) t); [lia | |].
        - now replace ((N + 1) * 2 ^ t) with (N * 2 ^ t + 2 ^ t) by ring.
        - now replace ((N + 1 + 1) * 2 ^ t - 1) with ((N + 1) * 2 ^ t - 1 + 2 ^ t) by ring. }
      assert (P : (0 <= SF2Q (dadd sy (double_of_Z 1)))%Q).
      { apply Qle_trans with (inject_Z (N * 2 ^ t + 2 ^ t) * Qpow2 (- t))%Q; [|exact Hlo'].
        apply Qmult_le_0_compat; [|apply Qlt_le_weak, Qpow2_pos].
        change 0%Q with (inject_Z 0). rewrite <- Zle_Qle. lia. }
      rewrite (int_of_double_spec _ Hf'), (Qtrunc_nonneg _ P), F.
      unfold INT_MIN, INT_MAX in *.
      replace (- 2 ^ 31 <=? N + 1) with true by (symmetry; apply Z.leb_le; lia).
      replace (N + 1 <=? 2 ^ 31 - 1) with true by (symmetry; apply Z.leb_le; lia).
      reflexivity.
Qed.


End Window.

(** ** Runs on the sample rasters *)
Module Runs.
Import Fp Machine Dem Examples FpFacts Envelope Reader Frames Close Setup Window.

Lemma ready_eq :
  setupGtif 8 800 800 AddrOf_DEM_Gtif (Some "dem.tif") (set_verbose true boot) = Ret true ready.
Proof. vm_compute. reflexivity. Qed.

Lemma inside_13_118 : ~ outsideBox (SF2X (float_of_Z (-13))) (SF2X (float_of_Z 118)).
Proof. intros [H | [H | [H | H]]]; vm_compute in H; discriminate H. Qed.

Lemma outside_7_118 : outsideBox (SF2X (float_of_Z (-7))) (SF2X (float_of_Z 118)).
Proof. left. vm_compute. reflexivity. Qed.

Lemma no_read_yet : ~ read_attempted (trace boot).
Proof. intros (h & r & ok & H). cbn in H. now apply not_elem_of_nil in H. Qed.

Lemma inside_nan_118 : ~ outsideBox (SF2X S754_nan) (SF2X (float_of_Z 118)).
Proof. intros [H | [H | [H | H]]]; vm_compute in H; solve [exact H | discriminate H]. Qed.

(** C1, as amended, at 13 degrees south, 118 degrees east: row 5,
    column 10. *)
Lemma pixel_address_witness :
  calcLineNo (float_of_Z (-13)) (assumedBox zeroed) = Some 5
  /\ calcPixelNo (float_of_Z 118) (assumedBox zeroed) = Some 10.
Proof.
  destruct (pixel_address (float_of_Z (-13)) (float_of_Z 118) zeroed) as (H & _).
  - reflexivity.
  - reflexivity.
  - exact inside_13_118.
  - apply H; discriminate.
Defined.

(** C1 as stated fails on a latitude that is not a number: with the
    longitude 118 the pair passes the range check of the sample session,
    and it has no row. *)
Lemma pixel_address_counterexample :
  is_float S754_nan /\ is_float (float_of_Z 118)
  /\ ~ outsideBox (SF2X S754_nan) (SF2X (float_of_Z 118))
  /\ checkLatLong S754_nan (float_of_Z 118)
       (set_DEM_Gtif (assumedBox (DEM_Gtif ready)) ready)
     = Ret tt (set_DEM_Gtif (assumedBox (DEM_Gtif ready)) ready)
  /\ calcLineNo S754_nan (assumedBox (DEM_Gtif ready)) = None
  /\ forall row, calcLineNo S754_nan (assumedBox (DEM_Gtif ready)) <> Some row.
Proof.
  split; [reflexivity|]. split; [reflexivity|]. split; [exact inside_nan_118|].
  split; [vm_compute; reflexivity|]. split; [reflexivity|]. intros row. discriminate.
Qed.

(** C4 at 7 degrees south: the run on ["dem.tif"] stops with status 1. *)
Lemma geographic_range_check_witness :
  fails_with (main 8 800 800 0 "dem.tif" (float_of_Z (-7)) (float_of_Z 118) boot)
    OutOfRangeError 1.
Proof.
  destruct (geographic_range_check 8 800 800 0 "dem.tif" (float_of_Z (-7)) (float_of_Z 118)
              boot ready true) as (_ & H & _).
  - reflexivity.
  - reflexivity.
  - exact ready_eq.
  - exact (H outside_7_118).
Defined.

(** C5, as amended, on the 8-bit raster that carries its tags, where a
    scanline of 50 bytes holds a pointer of 8, and on the 4-bit raster,
    where a scanline has no bytes. *)
Lemma unsupported_depth_witness :
  fails_with (main 8 800 800 0 "dem8.tif" (float_of_Z (-13)) (float_of_Z 118) boot)
    UnsupportedFormatError 11
  /\ main 8 800 800 0 "dem4.tif" (float_of_Z (-13)) (float_of_Z 118) boot4 = Undefined.
Proof.
  split.
  - destruct (unsupported_depth 8 800 800 0 "dem8.tif" dem8 8
                (float_of_Z (-13)) (float_of_Z 118) boot) as (_ & _ & H).
    + reflexivity.
    + reflexivity.
    + lia.
    + exact no_read_yet.
    + set (g' := default zeroed
                   (bufferGeometry
                      (set_pixelSize [double_of_Z 1; double_of_Z 1; double_of_Z 0]
                         (legacyScales 800 800
                            (sessionWithTags (DEM_Gtif boot) (Ptr (next boot)) dem8 8))))).
      destruct (H [double_of_Z 1; double_of_Z 1; double_of_Z 0] g') as (_ & K & _).
      * reflexivity.
      * vm_compute. reflexivity.
      * destruct (K [] 50) as [K1 _].
        -- reflexivity.
        -- vm_compute. reflexivity.
        -- vm_compute. discriminate.
        -- reflexivity.
        -- apply K1; vm_compute; discriminate.
  - destruct (unsupported_depth 8 800 800 0 "dem4.tif" dem4 4
                (float_of_Z (-13)) (float_of_Z 118) boot4) as (_ & _ & H).
    + reflexivity.
    + reflexivity.
    + lia.
    + exact no_read_yet.
    + set (g' := default zeroed
                   (bufferGeometry
                      (set_pixelSize [double_of_Z 1; double_of_Z 1; double_of_Z 0]
                         (legacyScales 800 800
                            (sessionWithTags (DEM_Gtif boot4) (Ptr (next boot4)) dem4 4))))).
      destruct (H [double_of_Z 1; double_of_Z 1; double_of_Z 0] g') as (_ & _ & K).
      * reflexivity.
      * vm_compute. reflexivity.
      * apply (K []); try reflexivity; lia.
Defined.

(** C5 as stated fails on an 8-bit raster that lacks the pixel-scale tag:
    the run stops on the missing tag before the sample depth is looked at. *)
Lemma unsupported_depth_counterexample :
  BITSPERSAMPLE plain8 = Some 8
  /\ fails_with (main 8 800 800 0 "plain8.tif" (float_of_Z (-13)) (float_of_Z 118) boot)
       MetadataError 11
  /\ ~ fails_with (main 8 800 800 0 "plain8.tif" (float_of_Z (-13)) (float_of_Z 118) boot)
         UnsupportedFormatError 11.
Proof.
  assert (F : fails_with (main 8 800 800 0 "plain8.tif" (float_of_Z (-13)) (float_of_Z 118) boot)
                MetadataError 11).
  { eexists _, _. split; [vm_compute; reflexivity|]. split; reflexivity. }
  split; [reflexivity|]. split; [exact F|].
  intros U. destruct (fails_with_unique _ _ _ _ _ F U) as [K _]. discriminate K.
Qed.



(** C10 on the sample raster. *)
Lemma session_untouched_by_reader_witness :
  lineNo (DEM_Gtif ready) = -1
  /\ forall n s_end,
       main 8 800 800 5 "dem.tif" (float_of_Z (-13)) (float_of_Z 118) boot = Exit n s_end ->
       lineNo (DEM_Gtif s_end) = -1.
Proof.
  destruct (session_untouched_by_reader 8 800 800 5 "dem.tif"
              (float_of_Z (-13)) (float_of_Z 118) boot ready ready_eq) as (H1 & H2 & _).
  split; [exact H1 | exact H2].
Defined.

(** C3 on a name that is not on the disk. *)
Lemma open_failure_not_terminal_witness :
  (exists s1,
      setupGtif 8 800 800 AddrOf_DEM_Gtif (Some "nope.tif") (set_verbose true boot_stale)
      = Ret false s1
      /\ last (trace s1) = Some (EvStderr (CannotOpenFile "nope.tif")))
  /\ (fails_with (main 8 800 800 5 "nope.tif" (float_of_Z (-9)) (float_of_Z 109) boot_stale)
        OutOfRangeError 1
      \/ main 8 800 800 5 "nope.tif" (float_of_Z (-9)) (float_of_Z 109) boot_stale = Undefined).
Proof.
  destruct (open_failure_not_terminal 8 800 800 5 "nope.tif"
              (float_of_Z (-9)) (float_of_Z 109) boot_stale) as ((s1 & Hs & Hl & _) & _ & H).
  - reflexivity.
  - split; [exists s1; split; [exact Hs | exact Hl] | exact H].
Defined.

(** The run of C3 with a stale session record: the file cannot be
    opened, the coordinates are accepted against the stale dimensions,
    and the scanline is read through the null handle. *)
Example main_unopenable_stale :
  main 8 800 800 5 "nope.tif" (float_of_Z (-9)) (float_of_Z 109) boot_stale = Undefined.
Proof. vm_compute. reflexivity. Qed.

(** The same run with a zeroed session record: status 1, for a row out
    of range. *)
Example main_unopenable_zeroed :
  exists s,
    main 8 800 800 5 "nope.tif" (float_of_Z (-9)) (float_of_Z 109) boot = Exit 1 s
    /\ trace s = [EvOpen "nope.tif" NULL; EvStderr (CannotOpenFile "nope.tif");
                 EvStderr (LineNoOutOfRange 1 0)].
Proof. eexists. split; vm_compute; reflexivity. Qed.

(** C9 as stated fails on a session that has been closed: the second
    [closeGtif] reads the released pool. *)
Lemma closeGtif_twice_counterexample :
  exists s',
    closeGtif AddrOf_DEM_Gtif ready = Ret tt s'
    /\ closeGtif AddrOf_DEM_Gtif s' = Undefined.
Proof. eexists. split; vm_compute; reflexivity. Qed.

Lemma ready_open : open_session ready 1%nat [2%nat] 0%nat.
Proof.
  split; [reflexivity|]. split; [reflexivity|]. split; [reflexivity|].
  split; [eexists; vm_compute; reflexivity|].
  split.
  { eexists. split; [vm_compute; reflexivity|].
    intros [|[|j]] b Hj; cbn in Hj; try discriminate Hj.
    injection Hj as <-. vm_compute. reflexivity. }
  split.
  - intros b Hb. apply list_elem_of_singleton in Hb as ->. eexists. vm_compute. reflexivity.
  - apply (bool_decide_unpack _). vm_compute. exact I.
Qed.

(** C9, as amended, on the sample session. *)
Lemma closeGtif_releases_once_witness :
  exists s',
    closeGtif AddrOf_DEM_Gtif ready = Ret tt s'
    /\ trace s' = trace ready ++ [EvFree 2; EvFree 1; EvClose 0].
Proof.
  destruct (closeGtif_releases_once ready 1%nat [2%nat] 0%nat) as (_ & H).
  destruct (H ready_open) as (s' & Hrun & Htr & _).
  exists s'. split; [exact Hrun | exact Htr].
Defined.

End Runs.

(** ** Exit statuses and diagnostics of a whole run *)

Module Outcomes.
Import Fp Machine Dem Examples Timing Properties Samples.
Import FpFacts Envelope Reader Frames Close Setup Window Runs.

Section StopsIn.
Context (codes : list Z).

Lemma stops_in_ret {A} (a : A) : stops_in codes (ret a).
Proof. intros s. exact I. Qed.
Lemma stops_in_exit {A} (n : Z) : n ∈ codes -> stops_in codes (@exit A n).
Proof. intros H s. exact H. Qed.
Lemma stops_in_undefined {A} : stops_in codes (@undefined A).
Proof. intros s. exact I. Qed.
Lemma stops_in_bind {A B} (c : M A) (k : A -> M B) :
  stops_in codes c -> (forall a, stops_in codes (k a)) -> stops_in codes (bind c k).
Proof.
  intros Hc Hk s. unfold bind. specialize (Hc s).
  destruct (c s) as [a s1 | n s1 |]; [apply Hk | exact Hc | exact I].
Qed.
Lemma stops_in_when (b : bool) (c : M unit) : stops_in codes c -> stops_in codes (when b c).
Proof. intros H. destruct b; [exact H | apply stops_in_ret]. Qed.

(** The calls into the C library and libtiff come back or are undefined. *)
Lemma stops_in_emit (e : event) : stops_in codes (emit e).
Proof. intros s. exact I. Qed.
Lemma stops_in_deref (g : GtifPtr) : stops_in codes (deref g).
Proof. intros s. now destruct g. Qed.
Lemma stops_in_assign (g : GtifPtr) (f : Gtif -> Gtif) : stops_in codes (assign g f).
Proof. intros s. now destruct g. Qed.
Lemma stops_in_verbose : stops_in codes (fun s => Ret (verbose s) s).
Proof. intros s. exact I. Qed.
Lemma stops_in_malloc (n : Z) : stops_in codes (malloc n).
Proof. intros s. unfold malloc. now destruct (_ && _). Qed.
Lemma stops_in_free (p : ptr) : stops_in codes (free p).
Proof. intros s. unfold free. repeat case_match; try exact I; simplify_eq. Qed.
Lemma stops_in_store_ptr (sz : Z) (p : ptr) (i : Z) (q : ptr) :
  stops_in codes (store_ptr sz p i q).
Proof. intros s. unfold store_ptr. repeat case_match; try exact I; simplify_eq. Qed.
Lemma stops_in_load_ptr (p : ptr) (i : Z) : stops_in codes (load_ptr p i).
Proof. intros s. unfold load_ptr. repeat case_match; try exact I; simplify_eq. Qed.
Lemma stops_in_load_sample (p : ptr) (i : Z) : stops_in codes (load_sample p i).
Proof. intros s. unfold load_sample. repeat case_match; try exact I; simplify_eq. Qed.
Lemma stops_in_TIFFOpen (name : string) : stops_in codes (TIFFOpen name).
Proof. intros s. unfold TIFFOpen. now destruct (files s name). Qed.
Lemma stops_in_TIFFGetField {A} (t : ptr) (tag : TiffFile -> option A) :
  stops_in codes (TIFFGetField t tag).
Proof. intros s. unfold TIFFGetField. repeat case_match; try exact I; simplify_eq. Qed.
Lemma stops_in_TIFFReadScanline (t buf : ptr) (row : Z) :
  stops_in codes (TIFFReadScanline t buf row).
Proof. intros s. unfold TIFFReadScanline. repeat case_match; try exact I; simplify_eq. Qed.
Lemma stops_in_TIFFClose (t : ptr) : stops_in codes (TIFFClose t).
Proof. intros s. unfold TIFFClose. repeat case_match; try exact I; simplify_eq. Qed.

End StopsIn.

Create HintDb stops.
#[export] Hint Resolve stops_in_emit stops_in_deref stops_in_assign stops_in_verbose
  stops_in_malloc stops_in_free stops_in_store_ptr stops_in_load_ptr stops_in_load_sample
  stops_in_TIFFOpen stops_in_TIFFGetField stops_in_TIFFReadScanline stops_in_TIFFClose : stops.

Ltac in_codes := solve [assumption | rewrite ?elem_of_cons; auto 10].

Ltac stops_step :=
  first
    [ apply stops_in_bind; [|intros ?]
    | apply stops_in_ret
    | apply stops_in_exit; in_codes
    | apply stops_in_undefined
    | apply stops_in_when
    | solve [auto with stops]
    | solve [unfold eprint, print; auto with stops]
    | match goal with
      | |- stops_in _ (if ?b then _ else _) => destruct b
      | |- stops_in _ (match ?x with _ => _ end) => destruct x
      end ].
Ltac stops := repeat stops_step.

Lemma stops_in_freeScanlines (codes : list Z) (n : nat) (i : Z) (g : GtifPtr) :
  stops_in codes (freeScanlines n i g).
Proof. revert i. induction n as [|n IH]; intros i; cbn [freeScanlines]; stops. Qed.

Lemma stops_in_allocScanlines (codes : list Z) (sz : Z) (n : nat) (i : Z) (g : GtifPtr) :
  13 ∈ codes -> stops_in codes (allocScanlines sz n i g).
Proof. intros H. revert i. induction n as [|n IH]; intros i; cbn [allocScanlines]; stops. Qed.

Lemma stops_in_mono {A} (codes codes' : list Z) (c : M A) :
  codes ⊆ codes' -> stops_in codes c -> stops_in codes' c.
Proof. intros Hsub H s. specialize (H s). destruct (c s); auto. Qed.

#[export] Hint Resolve stops_in_freeScanlines : stops.
#[export] Hint Extern 1 (stops_in _ (allocScanlines _ _ _ _)) =>
  apply stops_in_allocScanlines; in_codes : stops.

Lemma stops_in_closeGtif (codes : list Z) (g : GtifPtr) : stops_in codes (closeGtif g).
Proof. unfold closeGtif. stops. Qed.

Lemma stops_in_setupGtif (sz jw jh : Z) (g : GtifPtr) (name : option string) :
  stops_in [11; 13] (setupGtif sz jw jh g name).
Proof. unfold setupGtif. stops. Qed.

Lemma stops_in_readDEMvalue (g : GtifPtr) (l p : Z) : stops_in [11] (readDEMvalue g l p).
Proof. unfold readDEMvalue. stops. Qed.

Lemma stops_in_checkLatLong (Lat Long : spec_float) : stops_in [1] (checkLatLong Lat Long).
Proof. unfold checkLatLong. stops. Qed.

Lemma stops_in_checkLinePixel (l p : Z) : stops_in [1] (checkLinePixel l p).
Proof. unfold checkLinePixel. stops. Qed.

Lemma stops_in_sprintf (codes : list Z) (buf : ptr) (text : string) :
  stops_in codes (sprintf buf text).
Proof. intros s. unfold sprintf. repeat case_match; try exact I; simplify_eq. Qed.

Lemma stops_in_toTimeString (codes : list Z) (d : Z) : stops_in codes (toTimeString d).
Proof.
  unfold toTimeString. cbv zeta.
  repeat first [apply stops_in_sprintf | stops_step].
Qed.

#[export] Hint Resolve stops_in_toTimeString : stops.

Lemma stops_in_main (sz jw jh elapsed : Z) (argv1 : string) (Lat Long : spec_float) :
  stops_in [0; 1; 11; 13] (main sz jw jh elapsed argv1 Lat Long).
Proof.
  unfold main, lookupElevation.
  repeat first [apply stops_in_toTimeString | stops_step].
  intros s. exact I.
Qed.

Lemma never_returns_exit {A} (n : Z) : never_returns (@exit A n).
Proof. intros s. exact I. Qed.
Lemma never_returns_undefined {A} : never_returns (@undefined A).
Proof. intros s. exact I. Qed.
Lemma never_returns_bind {A B} (c : M A) (k : A -> M B) :
  (forall a, never_returns (k a)) -> never_returns (bind c k).
Proof.
  intros Hk s. unfold bind. destruct (c s) as [a s1 | n s1 |]; [apply Hk | exact I | exact I].
Qed.

Lemma never_returns_main (sz jw jh elapsed : Z) (argv1 : string)
    (Lat Long : spec_float) :
  never_returns (main sz jw jh elapsed argv1 Lat Long).
Proof.
  unfold main, lookupElevation.
  repeat first
    [ apply never_returns_exit | apply never_returns_undefined
    | apply never_returns_bind; intros ?
    | match goal with |- never_returns (match ?x with _ => _ end) => destruct x end ].
Qed.

Lemma loud_bind {A B} (c : M A) (k : A -> M B) :
  loud c -> (forall a, loud (k a)) -> loud (bind c k).
Proof.
  intros Hc Hk s. unfold bind. specialize (Hc s).
  destruct (c s) as [a s1 | n s1 |]; [apply Hk | exact Hc | exact I].
Qed.
Lemma loud_ret {A} (a : A) : loud (ret a).
Proof. intros s. exact I. Qed.
Lemma loud_undefined {A} : loud (@undefined A).
Proof. intros s. exact I. Qed.
Lemma loud_exit_0 {A} : loud (@exit A 0).
Proof. intros s. now left. Qed.
Lemma loud_eprint_exit {A} (d : diagnostic) (n : Z) :
  status_of (error_kind d) = Some n -> loud (eprint d ;;; @exit A n).
Proof. intros H s. right. exists d. split; [apply last_snoc | exact H]. Qed.
Lemma loud_quiet {A} (c : M A) : stops_in [] c -> loud c.
Proof.
  intros H s. specialize (H s). destruct (c s); try exact I. now apply elem_of_nil in H.
Qed.
Lemma loud_when (b : bool) (c : M unit) : loud c -> loud (when b c).
Proof. intros H. destruct b; [exact H | apply loud_ret]. Qed.

Ltac loud_step :=
  first
    [ apply loud_eprint_exit; reflexivity
    | apply loud_ret
    | apply loud_exit_0
    | apply loud_undefined
    | solve [apply loud_quiet; auto with stops]
    | solve [apply loud_quiet; unfold eprint, print; auto with stops]
    | apply loud_when
    | solve [auto]
    | apply loud_bind; [|intros ?]
    | match goal with
      | |- loud (if ?b then _ else _) => destruct b
      | |- loud (match ?x with _ => _ end) => destruct x
      end ].
Ltac loud := repeat loud_step.

Lemma loud_allocScanlines (sz : Z) (n : nat) (i : Z) (g : GtifPtr) :
  loud (allocScanlines sz n i g).
Proof. revert i. induction n as [|n IH]; intros i; cbn [allocScanlines]; loud. Qed.

Lemma loud_closeGtif (g : GtifPtr) : loud (closeGtif g).
Proof. apply loud_quiet, stops_in_closeGtif. Qed.

Lemma loud_setupBuffers (sz : Z) (g : GtifPtr) (name : string) (t : ptr) :
  loud (setupBuffers sz g name t).
Proof.
  unfold setupBuffers. 
  repeat first [apply loud_allocScanlines | loud_step].
Qed.

Lemma loud_setupGtif (sz jw jh : Z) (g : GtifPtr) (name : option string) :
  loud (setupGtif sz jw jh g name).
Proof.
  unfold setupGtif. repeat first [apply loud_setupBuffers | apply loud_allocScanlines | loud_step].
Qed.

Lemma loud_readDEMvalue (g : GtifPtr) (l p : Z) : loud (readDEMvalue g l p).
Proof. unfold readDEMvalue. loud. Qed.

Lemma loud_main (sz jw jh elapsed : Z) (argv1 : string) (Lat Long : spec_float) :
  loud (main sz jw jh elapsed argv1 Lat Long).
Proof.
  unfold main, lookupElevation, checkLatLong, checkLinePixel.
  repeat first [apply loud_setupGtif | apply loud_readDEMvalue | apply loud_closeGtif
               | apply loud_allocScanlines
               | apply loud_quiet, stops_in_toTimeString | loud_step].
  intros s. exact I.
Qed.

(** X1: [main] never comes back to its caller, whatever the clock
    reports.  When it ends the process the status is 0, or it is the
    status of a failure whose diagnostic is the last thing the run has
    written: 1 for a coordinate or pixel out of range, 11 for a missing
    tag, an unsupported sample depth or a failed scanline read, 13 for a
    scanline buffer that cannot be allocated. *)
Theorem main_exits_loudly (sz jw jh elapsed : Z) (argv1 : string) (Lat Long : spec_float)
    (s : state) :
  match main sz jw jh elapsed argv1 Lat Long s with
  | Ret _ _ => False
  | Exit n s' =>
      n = 0
      \/ (exists k, fails_with (main sz jw jh elapsed argv1 Lat Long s) k n
                    /\ status_of k = Some n /\ (n = 1 \/ n = 11 \/ n = 13))
  | Undefined => True
  end.
Proof.
  pose proof (loud_main sz jw jh elapsed argv1 Lat Long s) as H.
  pose proof (never_returns_main sz jw jh elapsed argv1 Lat Long s) as K.
  destruct (main sz jw jh elapsed argv1 Lat Long s) as [v s' | n s' |];
    [exact K | | exact I].
  destruct H as [H | (d & Hl & Hs)]; [now left | right].
  exists (error_kind d). split; [now exists s', d|]. split; [exact Hs|].
  destruct (error_kind d); cbn in Hs; inversion Hs; auto.
Qed.

End Outcomes.

(** ** The line that reports the elevation *)

Module ResultLine.
Import Fp Machine Dem Examples Timing Properties Samples.
Import FpFacts Envelope Reader Frames Close Setup Window Runs Outcomes.

#[export] Instance adds_no_result_preorder : PreOrder adds_no_result.
Proof.
  split.
  - intros s. exists []. split; [now rewrite app_nil_r | constructor].
  - intros a b c (l1 & E1 & F1) (l2 & E2 & F2). exists (l1 ++ l2). split.
    + now rewrite E2, E1, app_assoc.
    + now apply Forall_app.
Qed.

Lemma adds_log (e : event) (s s' : state) :
  not_result e -> trace s' = trace s ++ [e] -> adds_no_result s s'.
Proof. intros He Ht. exists [e]. split; [exact Ht | now constructor]. Qed.

Lemma adds_silent (s s' : state) : trace s' = trace s -> adds_no_result s s'.
Proof. intros Ht. exists []. split; [now rewrite app_nil_r | constructor]. Qed.

Ltac adds_prim :=
  intros s;
  repeat case_match; try exact I; simplify_eq;
  first [ apply adds_silent; reflexivity
        | eapply adds_log; [|reflexivity]; intros ? ? ?; discriminate ].

Lemma adds_emit (e : event) : not_result e -> preserves adds_no_result (emit e).
Proof. intros He s. now apply (adds_log e). Qed.
Lemma adds_eprint (d : diagnostic) : preserves adds_no_result (eprint d).
Proof. apply adds_emit. intros ? ? ?. discriminate. Qed.
Lemma adds_deref (g : GtifPtr) : preserves adds_no_result (deref g).
Proof. unfold deref. adds_prim. Qed.
Lemma adds_assign (g : GtifPtr) (f : Gtif -> Gtif) : preserves adds_no_result (assign g f).
Proof. unfold assign. adds_prim. Qed.
Lemma adds_verbose : preserves adds_no_result (fun s => Ret (verbose s) s).
Proof. adds_prim. Qed.
Lemma adds_set_verbose (b : bool) : preserves adds_no_result (fun s => Ret tt (set_verbose b s)).
Proof. adds_prim. Qed.
Lemma adds_malloc (n : Z) : preserves adds_no_result (malloc n).
Proof. unfold malloc. adds_prim. Qed.
Lemma adds_free (p : ptr) : preserves adds_no_result (free p).
Proof. unfold free. adds_prim. Qed.
Lemma adds_store_ptr (sz : Z) (p : ptr) (i : Z) (q : ptr) :
  preserves adds_no_result (store_ptr sz p i q).
Proof. unfold store_ptr. adds_prim. Qed.
Lemma adds_load_ptr (p : ptr) (i : Z) : preserves adds_no_result (load_ptr p i).
Proof. unfold load_ptr. adds_prim. Qed.
Lemma adds_load_sample (p : ptr) (i : Z) : preserves adds_no_result (load_sample p i).
Proof. unfold load_sample. adds_prim. Qed.
Lemma adds_TIFFOpen (name : string) : preserves adds_no_result (TIFFOpen name).
Proof. unfold TIFFOpen. adds_prim. Qed.
Lemma adds_TIFFGetField {A} (t : ptr) (tag : TiffFile -> option A) :
  preserves adds_no_result (TIFFGetField t tag).
Proof. unfold TIFFGetField. adds_prim. Qed.
Lemma adds_TIFFReadScanline (t buf : ptr) (row : Z) :
  preserves adds_no_result (TIFFReadScanline t buf row).
Proof. unfold TIFFReadScanline. adds_prim. Qed.
Lemma adds_TIFFClose (t : ptr) : preserves adds_no_result (TIFFClose t).
Proof. unfold TIFFClose. adds_prim. Qed.

Lemma adds_sprintf (buf : ptr) (text : string) : preserves adds_no_result (sprintf buf text).
Proof. unfold sprintf. adds_prim. Qed.

Create HintDb results.
#[export] Hint Resolve adds_eprint adds_deref adds_assign adds_verbose adds_set_verbose
  adds_malloc adds_free adds_store_ptr adds_load_ptr adds_load_sample adds_TIFFOpen
  adds_TIFFGetField adds_TIFFReadScanline adds_TIFFClose : results.

Ltac adds_step :=
  first
    [ apply preserves_ret; typeclasses eauto
    | apply preserves_exit; typeclasses eauto
    | apply preserves_undefined
    | solve [auto with results]
    | solve [apply adds_emit; intros ? ? ?; discriminate]
    | apply preserves_when; [typeclasses eauto|]
    | apply preserves_bind; [typeclasses eauto| |intros ?]
    | match goal with
      | |- preserves _ (if ?b then _ else _) => destruct b
      | |- preserves _ (match ?x with _ => _ end) => destruct x
      end ].
Ltac adds := repeat adds_step.

Lemma adds_freeScanlines (n : nat) (i : Z) (g : GtifPtr) :
  preserves adds_no_result (freeScanlines n i g).
Proof. revert i. induction n as [|n IH]; intros i; cbn [freeScanlines]; adds. Qed.

Lemma adds_allocScanlines (sz : Z) (n : nat) (i : Z) (g : GtifPtr) :
  preserves adds_no_result (allocScanlines sz n i g).
Proof. revert i. induction n as [|n IH]; intros i; cbn [allocScanlines]; adds. Qed.

#[export] Hint Resolve adds_freeScanlines adds_allocScanlines : results.

Lemma adds_closeGtif (g : GtifPtr) : preserves adds_no_result (closeGtif g).
Proof. unfold closeGtif. adds. Qed.

Lemma adds_setupGtif (sz jw jh : Z) (g : GtifPtr) (name : option string) :
  preserves adds_no_result (setupGtif sz jw jh g name).
Proof. unfold setupGtif. adds. Qed.

Lemma adds_readDEMvalue (g : GtifPtr) (l p : Z) :
  preserves adds_no_result (readDEMvalue g l p).
Proof. unfold readDEMvalue. adds. Qed.

Lemma adds_toTimeString (d : Z) : preserves adds_no_result (toTimeString d).
Proof. unfold toTimeString. cbv zeta. repeat first [apply adds_sprintf | adds_step]. Qed.

Lemma adds_checkLatLong (Lat Long : spec_float) :
  preserves adds_no_result (checkLatLong Lat Long).
Proof. unfold checkLatLong. adds. Qed.

Lemma adds_checkLinePixel (l p : Z) : preserves adds_no_result (checkLinePixel l p).
Proof. unfold checkLinePixel. adds. Qed.

Lemma triple_bind {A B} (P : state -> Prop) (c : M A) (k : A -> M B)
    (Q : A -> state -> Prop) (R : B -> state -> Prop) (E : Z -> state -> Prop) :
  triple P c Q E -> (forall a, triple (Q a) (k a) R E) -> triple P (bind c k) R E.
Proof.
  intros Hc Hk s Hs. unfold bind. specialize (Hc s Hs).
  destruct (c s) as [a s1 | n s1 |]; [apply Hk, Hc | exact Hc | exact I].
Qed.

Lemma triple_exit {A} (P : state -> Prop) (n : Z) (Q : A -> state -> Prop)
    (E : Z -> state -> Prop) :
  (forall s, P s -> E n s) -> triple P (@exit A n) Q E.
Proof. intros H s Hs. now apply H. Qed.

Lemma triple_undefined {A} (P : state -> Prop) (Q : A -> state -> Prop)
    (E : Z -> state -> Prop) :
  triple P (@undefined A) Q E.
Proof. intros s _. exact I. Qed.

(** A computation that keeps a relation and stops with known statuses
    carries an invariant of that relation across. *)
Lemma triple_frame {A} (R : relation state) (codes : list Z) (c : M A)
    (P P' : state -> Prop) (E : Z -> state -> Prop) :
  preserves R c -> stops_in codes c ->
  (forall s s', P s -> R s s' -> P' s') ->
  (forall n s', n ∈ codes -> P' s' -> E n s') ->
  triple P c (fun _ => P') E.
Proof.
  intros Hp Hc HP HE s Hs. specialize (Hp s). specialize (Hc s).
  destruct (c s) as [a s1 | n s1 |]; [| |exact I].
  - now apply (HP s).
  - apply HE; [exact Hc|]. now apply (HP s).
Qed.

Lemma one_result_adds (s0 s s' : state) :
  one_result_since s0 s -> adds_no_result s s' -> one_result_since s0 s'.
Proof.
  intros (pre & l & p & v & post & Ht & F1 & F2) (m & Hm & Fm).
  exists pre, l, p, v, (post ++ m). split; [|split; [exact F1 | now apply Forall_app]].
  rewrite Hm, Ht. now rewrite <- !app_assoc.
Qed.

Lemma no_result_not_printed (s0 s : state) :
  ~ printed_result (trace s0) -> no_result_since s0 s -> ~ printed_result (trace s).
Proof.
  intros H0 (m & Hm & Fm) (l & p & v & Hin). rewrite Hm in Hin.
  apply elem_of_app in Hin as [Hin | Hin]; [apply H0; now exists l, p, v|].
  rewrite Forall_forall in Fm. now apply (Fm _ Hin l p v).
Qed.

Lemma one_result_printed (s0 s : state) : one_result_since s0 s -> printed_result (trace s).
Proof.
  intros (pre & l & p & v & post & Ht & _). exists l, p, v. rewrite Ht.
  rewrite !elem_of_app. right. right. left. now apply list_elem_of_singleton.
Qed.

Section Since.
Variable s0 : state.

Lemma before_result {A} (codes : list Z) (c : M A) :
  preserves adds_no_result c -> stops_in codes c -> 0 ∉ codes ->
  triple (no_result_since s0) c (fun _ => no_result_since s0) (exit_shape s0).
Proof.
  intros Hp Hc H0. apply (triple_frame adds_no_result codes); try assumption.
  - intros s s' Hs HR. unfold no_result_since in *. now transitivity s.
  - intros n s' Hn Hs. left. split; [|exact Hs]. intros ->. contradiction.
Qed.

Lemma after_result {A} (c : M A) :
  preserves adds_no_result c -> stops_in [] c ->
  triple (one_result_since s0) c (fun _ => one_result_since s0) (exit_shape s0).
Proof.
  intros Hp Hc. apply (triple_frame adds_no_result []); try assumption.
  - intros s s'. apply one_result_adds.
  - intros n s' Hn. now apply elem_of_nil in Hn.
Qed.

Lemma the_result (l p v : Z) :
  triple (no_result_since s0) (print (DemValue l p v)) (fun _ => one_result_since s0)
    (exit_shape s0).
Proof.
  intros s (pre & Ht & F). cbn. exists pre, l, p, v, []. split; [|split; [exact F | constructor]].
  cbn. rewrite Ht. now rewrite <- app_assoc.
Qed.

Lemma triple_main (sz jw jh elapsed : Z) (argv1 : string) (Lat Long : spec_float) :
  triple (no_result_since s0) (main sz jw jh elapsed argv1 Lat Long)
    (fun _ _ => False) (exit_shape s0).
Proof.
  unfold main.
  eapply triple_bind;
    [apply (before_result []); [apply adds_set_verbose | | apply not_elem_of_nil]
    |intros ?; cbv beta].
  { intros s. exact I. }
  eapply triple_bind;
    [apply (before_result [11; 13]); [apply adds_setupGtif | apply stops_in_setupGtif|]
    |intros ?; cbv beta].
  { rewrite !elem_of_cons, elem_of_nil. lia. }
  eapply triple_bind;
    [apply (before_result []); [apply adds_assign | apply stops_in_assign | apply not_elem_of_nil]
    |intros ?; cbv beta].
  unfold lookupElevation.
  eapply triple_bind;
    [apply (before_result [1]); [apply adds_checkLatLong | apply stops_in_checkLatLong|]
    |intros ?; cbv beta].
  { rewrite !elem_of_cons, elem_of_nil. lia. }
  eapply triple_bind;
    [apply (before_result []); [apply adds_deref | apply stops_in_deref | apply not_elem_of_nil]
    |intros g].
  destruct (calcLineNo Lat g) as [l|]; [|apply triple_undefined].
  destruct (calcPixelNo Long g) as [p|]; [|apply triple_undefined].
  eapply triple_bind;
    [apply (before_result [1]); [apply adds_checkLinePixel | apply stops_in_checkLinePixel|]
    |intros ?; cbv beta].
  { rewrite !elem_of_cons, elem_of_nil. lia. }
  eapply triple_bind;
    [apply (before_result []); [apply adds_verbose | apply stops_in_verbose | apply not_elem_of_nil]
    |intros v].
  eapply triple_bind; [apply (before_result []); [| | apply not_elem_of_nil]|intros ?; cbv beta].
  { destruct v; cbn [when]; [|apply preserves_ret; typeclasses eauto].
    apply preserves_bind; [typeclasses eauto | apply adds_toTimeString | intros ?].
    apply adds_emit. intros ? ? ?. discriminate. }
  { destruct v; cbn [when]; [|apply stops_in_ret].
    apply stops_in_bind; [apply stops_in_toTimeString | intros ?; apply stops_in_emit]. }
  eapply triple_bind;
    [apply (before_result [11]); [apply adds_readDEMvalue | apply stops_in_readDEMvalue|]
    |intros ElevVal].
  { rewrite !elem_of_cons, elem_of_nil. lia. }
  eapply triple_bind; [apply the_result|intros ?; cbv beta].
  eapply triple_bind;
    [apply after_result; [apply adds_closeGtif | apply stops_in_closeGtif]|intros ?; cbv beta].
  apply triple_exit. intros s Hs. right. now split.
Qed.

End Since.

(** X2: the line that reports the elevation is written exactly once in
    a run that ends with status 0, and not at all in a run that ends
    with another status, whatever the clock reports. *)
Theorem result_iff_success (sz jw jh elapsed : Z) (argv1 : string) (Lat Long : spec_float)
    (s0 s_end : state) (n : Z) :
  ~ printed_result (trace s0) ->
  main sz jw jh elapsed argv1 Lat Long s0 = Exit n s_end ->
  (n = 0 <-> printed_result (trace s_end))
  /\ (n = 0 ->
      exists pre l p v post,
        trace s_end = trace s0 ++ pre ++ [EvStdout (DemValue l p v)] ++ post
        /\ Forall not_result pre /\ Forall not_result post).
Proof.
  intros H0 Hm.
  pose proof (triple_main s0 sz jw jh elapsed argv1 Lat Long s0) as T.
  rewrite Hm in T. destruct T as [[Hn Hs] | [Hn Hs]].
  - reflexivity.
  - split; [|intros E; contradiction]. split; [intros E; contradiction|].
    intros Hp. exfalso. now apply (no_result_not_printed s0 s_end H0 Hs).
  - split; [|intros _; exact Hs].
    split; [intros _; now apply (one_result_printed s0) | now intros _].
Qed.

End ResultLine.

(** ** What a successful [setupGtif] leaves *)

Module Session.
Import Fp Machine Dem Examples Timing Properties Samples.
Import FpFacts Envelope Reader Frames Close Setup Window Runs Outcomes ResultLine.

#[export] Instance block_growth_preorder : PreOrder block_growth.
Proof.
  split.
  - intros s. split; [lia | intros b Hb; now left].
  - intros a b c [N1 H1] [N2 H2]. split; [lia|]. intros x Hx.
    destruct (H2 x Hx) as [K | K]; [|right; lia].
    destruct (H1 x K) as [K' | K']; [now left | right; lia].
Qed.

Lemma block_growth_same (s s' : state) :
  heap s' = heap s -> next s' = next s -> block_growth s s'.
Proof. intros Hh Hn. split; [lia|]. intros b Hb. left. now rewrite <- Hh. Qed.

Lemma block_growth_malloc (n : Z) : preserves block_growth (malloc n).
Proof.
  intros s. unfold malloc. destruct (_ && _).
  - split; cbn; [lia|]. intros b Hb.
    destruct (decide (b = next s)) as [-> | Hne]; [right; lia | left].
    now rewrite lookup_insert_ne in Hb by congruence.
  - now apply block_growth_same.
Qed.

Lemma block_growth_store_ptr (sz : Z) (p : ptr) (i : Z) (q : ptr) :
  preserves block_growth (store_ptr sz p i q).
Proof.
  intros s. unfold store_ptr. destruct p as [|b]; [exact I|].
  destruct (heap s !! b) as [blk|] eqn:E; [|exact I]. destruct (_ && _); [|exact I].
  split; cbn; [lia|]. intros x Hx. left.
  destruct (decide (x = b)) as [-> | Hne]; [rewrite E; eauto|].
  now rewrite lookup_insert_ne in Hx by congruence.
Qed.

Lemma block_growth_allocScanlines (sz : Z) (n : nat) (i : Z) (g : GtifPtr) :
  preserves block_growth (allocScanlines sz n i g).
Proof.
  revert i. induction n as [|n IH]; intros i; cbn [allocScanlines].
  - apply preserves_ret. typeclasses eauto.
  - apply preserves_bind; [typeclasses eauto| |intros g1].
    { intros s. destruct g; cbn; [exact I | reflexivity]. }
    apply preserves_bind; [typeclasses eauto|apply block_growth_malloc|intros p].
    apply preserves_bind; [typeclasses eauto|apply block_growth_store_ptr|intros _].
    destruct (is_null p); [|apply IH].
    apply preserves_bind; [typeclasses eauto| |intros _].
    + intros s. now apply block_growth_same.
    + apply preserves_exit. typeclasses eauto.
Qed.

(** [setupBuffers] on a 16-bit session with tie points, every allocation
    granted: it returns, and the heap holds the pool and the scanline
    buffers and nothing else that is new. *)
Lemma setupBuffers_success (sz : Z) (name : string) (h : nat) (f : TiffFile)
    (tp : list spec_float) (bytes : Z) (s1 : state) :
  let g' := DEM_Gtif s1 in
  let pb := next s1 in
  let bufs := seq (S pb) (Z.to_nat (windowSize g')) in
  tifs s1 !! h = Some f -> tif g' = Ptr h ->
  GTIFF_TIEPOINTS f = Some tp ->
  int_mul (scanlineSize g') (windowSize g') = Some bytes ->
  0 <= windowSize g' -> 0 <= scanlineSize g' < 2 ^ 63 ->
  0 <= sz -> windowSize g' * sz <= bytes ->
  mallocs s1 = [] -> (h < next s1)%nat ->
  bitsPerSample g' = 16 -> verbose s1 = true ->
  exists s3,
    setupBuffers sz AddrOf_DEM_Gtif name (Ptr h) s1 = Ret true s3
    /\ open_session s3 pb bufs h
    /\ DEM_Gtif s3 = set_scanlines (Ptr pb) (set_tiePoints tp g')
    /\ verbose s3 = true /\ mallocs s3 = [] /\ tifs s3 = tifs s1
    /\ next s3 = (S pb + Z.to_nat (windowSize g'))%nat
    /\ (forall b, is_Some (heap s3 !! b) -> is_Some (heap s1 !! b) \/ b ∈ pb :: bufs)
    /\ (exists l, trace s3 = trace s1 ++ l /\ Forall not_result l).
Proof.
  intros g' pb bufs Hf Ht Htp Hmul Hw Hsize Hsz Hcap Hm Hh Hbits Hverb.
  assert (Hbytes : 0 <= bytes < 2 ^ 63).
  { unfold int_mul in Hmul.
    destruct ((INT_MIN <=? scanlineSize g' * windowSize g')
              && (scanlineSize g' * windowSize g' <=? INT_MAX)) eqn:E; [|discriminate].
    injection Hmul as <-. apply andb_prop in E as [_ E]. apply Z.leb_le in E.
    unfold INT_MAX in E. split; [nia | lia]. }
  set (sC := set_DEM_Gtif (set_scanlines (Ptr pb) (set_tiePoints tp g'))
               (log (EvMalloc bytes (Ptr pb))
                  (set_next (S pb)
                     (set_heap (<[pb := fresh_block bytes]> (heap s1))
                        (set_mallocs (tail (mallocs s1))
                           (set_DEM_Gtif (set_tiePoints tp g') s1)))))).
  destruct (allocScanlines_run sz (Z.to_nat (windowSize g')) 0 sC pb (fresh_block bytes))
    as (s2 & blk' & Hrun & Hg2 & Ht2 & Hv2 & Hm2 & Hn2 & Htr2 & Hb2 & Hbs2 & Hslots & _ & Hlive & Hmono).
  { exact Hsz. }
  { reflexivity. }
  { subst sC. cbn. apply lookup_insert_eq. }
  { cbn [fresh_block bsize]. rewrite Nat.add_0_l, Z2Nat.id by lia. exact Hcap. }
  { subst sC. cbn. now rewrite Hm. }
  { exact Hsize. }
  { subst sC. cbn. lia. }
  pose proof (block_growth_allocScanlines sz (Z.to_nat (windowSize g')) (Z.of_nat 0)
                AddrOf_DEM_Gtif sC) as G.
  rewrite Hrun in G. destruct G as [_ G].
  assert (Hrun3 : setupBuffers sz AddrOf_DEM_Gtif name (Ptr h) s1
                  = (when (verbose s1)
                       (print (ParamValuesFrom name) ;;;
                        print (SamplesAndBits (samplesPerPixel g') (bitsPerSample g')) ;;;
                        print (Dimensions (width g') (height g') (scanlineSize g'))) ;;;
                     ret true) s2).
  { unfold setupBuffers. unfold bind at 1. unfold TIFFGetField. rewrite Hf, Htp.
    unfold bind at 1. unfold assign at 1.
    unfold bind at 1. unfold deref at 1.
    cbn [DEM_Gtif set_DEM_Gtif scanlineSize windowSize set_tiePoints]. fold g'. rewrite Hmul.
    unfold bind at 1.
    assert (Hgr : granted (set_DEM_Gtif (set_tiePoints tp g') s1) = true)
      by (unfold granted; cbn; now rewrite Hm).
    rewrite (malloc_ok _ _ Hbytes Hgr).
    unfold bind at 1. unfold assign at 1.
    unfold bind at 1. cbn [windowSize set_tiePoints].
    change (allocScanlines sz (Z.to_nat (windowSize g')) 0 AddrOf_DEM_Gtif _)
      with (allocScanlines sz (Z.to_nat (windowSize g')) (Z.of_nat 0) AddrOf_DEM_Gtif sC).
    rewrite Hrun. unfold bind at 1. unfold deref at 1. rewrite Hg2.
    cbn [DEM_Gtif set_DEM_Gtif bitsPerSample set_scanlines set_tiePoints sC
         samplesPerPixel width height scanlineSize].
    rewrite Hbits. cbn [Z.eqb Pos.eqb negb].
    unfold bind at 1. rewrite Hv2. reflexivity. }
  rewrite Hrun3, Hverb. cbn [when]. unfold bind, print, emit, ret.
  eexists. split; [reflexivity|].
  cbn [log DEM_Gtif verbose mallocs tifs next heap trace].
  split; [|split; [exact Hg2|split; [now rewrite Hv2|split; [exact Hm2|split; [exact Ht2|]]]]].
  - unfold open_session. cbn [log DEM_Gtif tifs heap]. rewrite Hg2. subst sC.
    cbn [DEM_Gtif set_DEM_Gtif scanlines windowSize set_scanlines set_tiePoints tif].
    split; [reflexivity|]. split; [subst bufs; rewrite length_seq, Z2Nat.id by lia; reflexivity|].
    split; [exact Ht|]. split; [rewrite Ht2; cbn; rewrite Hf; eauto|].
    split; [exists blk'; split; [exact Hb2|]; intros j b Hj; apply (Hslots j b Hj)|].
    split; [exact Hlive|].
    apply NoDup_cons. split; [|apply NoDup_seq].
    subst bufs. intros K. apply elem_of_seq in K. lia.
  - split; [rewrite Hn2; reflexivity|]. split.
    + intros b Hb. destruct (G b Hb) as [K | K].
      * subst sC. cbn [set_DEM_Gtif log set_next set_heap heap] in K.
        destruct (decide (b = pb)) as [-> | Hne]; [right; apply elem_of_cons; now left|].
        rewrite lookup_insert_ne in K by congruence. now left.
      * right. apply elem_of_cons. right. subst bufs. apply elem_of_seq.
        rewrite Hn2 in K. subst sC. cbn [set_DEM_Gtif log set_next next] in K. lia.
    + rewrite Htr2. subst sC. cbn [set_DEM_Gtif log set_next set_heap set_mallocs trace].
      eexists. split; [rewrite <- !app_assoc; reflexivity|].
      repeat (apply Forall_app; split); try (repeat constructor; intros ? ? ?; discriminate).
      apply Forall_fmap, Forall_forall. intros x _ ? ? ?. discriminate.
Qed.

(** [closeGtif] on an open session, as one step. *)
Lemma closeGtif_run (s : state) (pb : nat) (bufs : list nat) (h : nat) :
  open_session s pb bufs h ->
  exists s',
    closeGtif AddrOf_DEM_Gtif s = Ret tt s'
    /\ trace s' = trace s ++ (EvFree <$> bufs) ++ [EvFree pb; EvClose h]
    /\ heap s' = delete pb (released bufs (heap s))
    /\ tifs s' = delete h (tifs s).
Proof.
  intros (Hp & Hw & Ht & [f Hf] & (blk & Hblk & Hslots) & Hlive & Hnd).
  unfold closeGtif. unfold bind at 1. unfold deref at 1. rewrite Hw, Nat2Z.id.
  unfold bind at 1.
  pose proof (freeScanlines_run bufs 0 s pb blk Hp Hblk Hslots Hlive Hnd) as R.
  change (Z.of_nat 0) with 0 in R. rewrite R. clear R.
  unfold bind at 1. unfold free. rewrite Hp. cbn [heap].
  assert (Hpool : released bufs (heap s) !! pb = Some blk).
  { rewrite lookup_released. apply NoDup_cons in Hnd as [Hpb _].
    now rewrite decide_False. }
  rewrite Hpool, Ht. cbn [is_null negb when]. unfold TIFFClose.
  cbn [log set_heap tifs]. rewrite Hf.
  eexists. split; [reflexivity|].
  cbn [log set_heap set_tifs trace heap tifs].
  split; [now rewrite <- !app_assoc|]. split; reflexivity.
Qed.

(** The session record [setupGtif] computes for a raster of [w] by [h]
    samples with a bits-per-sample tag in (8, 16]. *)
Lemma session_geometry (jw jh : Z) (g : Gtif) (t : ptr) (f : TiffFile)
    (b w h : Z) (ps : list spec_float) :
  8 < b <= 16 -> IMAGEWIDTH f = Some w -> IMAGELENGTH f = Some h ->
  0 <= h < 2 ^ 32 -> 0 < jh <= INT_MAX -> h / jh < INT_MAX ->
  0 <= 2 * w <= INT_MAX ->
  exists g',
    bufferGeometry (set_pixelSize ps (legacyScales jw jh (sessionWithTags g t f b)))
    = Some g'
    /\ windowSize g' = h / jh + 1 /\ scanlineSize g' = 2 * w
    /\ bitsPerSample g' = 16 /\ width g' = w /\ height g' = h /\ tif g' = t.
Proof.
  intros Hb Hw Hh Hhr Hj HN H2w.
  destruct (window_of_heights h jh) as (_ & _ & Hwin);
    [lia | unfold INT_MAX in Hj; lia | exact HN |].
  assert (Hbits : bitsPerSample (sessionWithTags g t f b) = 16).
  { rewrite sessionWithTags_bits.
    replace (8 <? b) with true by (symmetry; apply Z.ltb_lt; lia).
    replace (b <=? 16) with true by (symmetry; apply Z.leb_le; lia). reflexivity. }
  assert (Hwd : width (sessionWithTags g t f b) = w /\ height (sessionWithTags g t f b) = h).
  { unfold sessionWithTags. rewrite Hw, Hh. cbn [from_option].
    unfold normalizeBitsPerSample. destruct (_ && _); split; reflexivity. }
  destruct Hwd as [Hwd Hht].
  unfold bufferGeometry.
  change (scaleY (set_pixelSize ps (legacyScales jw jh (sessionWithTags g t f b))))
    with (ddiv (double_of_Z (height (sessionWithTags g t f b))) (double_of_Z jh)).
  rewrite Hht, Hwin. eexists. split; [reflexivity|].
  cbn [windowSize scanlineSize bitsPerSample width height tif set_lineNo set_byteOrder
       set_scanlineSize set_windowSize set_pixelSize legacyScales set_scaleX set_scaleY].
  rewrite Hbits, Hwd, Hht, sessionWithTags_tif.
  repeat split. change (16 ÷ 8) with 2. unfold to_int32. unfold INT_MAX in H2w.
  replace (w * 2) with (2 * w) by lia. rewrite Z.mod_small by lia.
  destruct (Z.ltb_spec (2 * w) (2 ^ 31)); lia.
Qed.

(** [setupGtif] on a raster it accepts, every allocation granted. *)
Lemma setupGtif_granted (sz jw jh : Z) (name : string) (f : TiffFile)
    (b w h : Z) (ps tp : list spec_float) (s : state) :
  files s name = Some f ->
  BITSPERSAMPLE f = Some b -> 8 < b <= 16 ->
  IMAGEWIDTH f = Some w -> IMAGELENGTH f = Some h ->
  GTIFF_PIXELSCALE f = Some ps -> GTIFF_TIEPOINTS f = Some tp ->
  0 <= h < 2 ^ 32 -> 0 < jh <= INT_MAX ->
  0 < sz <= 2 * w -> 2 * w * (h / jh + 1) <= INT_MAX ->
  mallocs s = [] -> verbose s = true ->
  let hd := next s in
  let pb := S hd in
  let bufs := seq (S pb) (Z.to_nat (h / jh + 1)) in
  exists s3,
    setupGtif sz jw jh AddrOf_DEM_Gtif (Some name) s = Ret true s3
    /\ open_session s3 pb bufs hd
    /\ (bitsPerSample (DEM_Gtif s3) = 16 /\ width (DEM_Gtif s3) = w
        /\ height (DEM_Gtif s3) = h /\ scanlineSize (DEM_Gtif s3) = 2 * w
        /\ windowSize (DEM_Gtif s3) = h / jh + 1 /\ lineNo (DEM_Gtif s3) = -1)
    /\ (verbose s3 = true /\ mallocs s3 = []
        /\ next s3 = (S pb + Z.to_nat (h / jh + 1))%nat)
    /\ tifs s3 = <[hd := f]> (tifs s)
    /\ (forall x, is_Some (heap s3 !! x) -> is_Some (heap s !! x) \/ x ∈ pb :: bufs).
Proof.
  intros Hf Hb Hbr Hw Hh Hps Htp Hhr Hj Hsz Hcap Hm Hv hd pb bufs.
  assert (Hq0 : 0 <= h / jh) by (apply Z.div_pos; lia).
  assert (Hw1 : 1 <= w) by lia.
  assert (HN : h / jh < INT_MAX) by (unfold INT_MAX in *; nia).
  assert (H2w : 0 <= 2 * w <= INT_MAX) by (unfold INT_MAX in *; nia).
  rewrite (setupGtif_opened sz jw jh name f b s Hf Hb). rewrite Hps.
  destruct (session_geometry jw jh (DEM_Gtif s) (Ptr (next s)) f b w h ps)
    as (g' & Hg & Hws & Hss & Hbits & Hwd & Hht & Htif); try assumption.
  rewrite Hg.
  pose proof (bufferGeometry_lineNo _ _ Hg) as Hln.
  destruct (setupBuffers_success sz name hd f tp (2 * w * (h / jh + 1))
              (opened s name f g'))
    as (s3 & Hrun & Hopen & Hg3 & Hv3 & Hm3 & Ht3 & Hn3 & Hdom & _);
    cbn [opened DEM_Gtif tifs next mallocs verbose heap]; try assumption.
  - apply lookup_insert_eq.
  - rewrite Hss, Hws. unfold int_mul.
    replace (INT_MIN <=? 2 * w * (h / jh + 1)) with true
      by (symmetry; apply Z.leb_le; unfold INT_MIN; nia).
    replace (2 * w * (h / jh + 1) <=? INT_MAX) with true by (symmetry; apply Z.leb_le; lia).
    reflexivity.
  - lia.
  - unfold INT_MAX in H2w. lia.
  - lia.
  - rewrite Hws. nia.
  - subst hd. lia.
  - exists s3. subst hd pb bufs.
    cbn [opened DEM_Gtif tifs next mallocs verbose heap] in *.
    rewrite Hws in *. 
    split; [exact Hrun|]. split; [exact Hopen|]. split.
    { rewrite Hg3. cbn [bitsPerSample width height scanlineSize windowSize lineNo
                         set_scanlines set_tiePoints]. auto 10. }
    split; [auto|]. split; [exact Ht3 | exact Hdom].
Qed.

(** X3: a raster with a bits-per-sample tag in (8, 16], its dimensions
    and both GeoTIFF tags is set up when every allocation is granted:
    [setupGtif] returns [TRUE] with the file open, 16 bits per sample,
    [height / jpgHeight + 1] scanline buffers of [2 * width] bytes in
    the pool, and no other block added to the heap. *)
Theorem setupGtif_success (sz jw jh : Z) (name : string) (f : TiffFile)
    (b w h : Z) (ps tp : list spec_float) (s : state) :
  files s name = Some f ->
  BITSPERSAMPLE f = Some b -> 8 < b <= 16 ->
  IMAGEWIDTH f = Some w -> IMAGELENGTH f = Some h ->
  GTIFF_PIXELSCALE f = Some ps -> GTIFF_TIEPOINTS f = Some tp ->
  0 <= h < 2 ^ 32 -> 0 < jh <= INT_MAX ->
  0 < sz <= 2 * w -> 2 * w * (h / jh + 1) <= INT_MAX ->
  mallocs s = [] -> verbose s = true ->
  let hd := next s in
  let pb := S hd in
  let bufs := seq (S pb) (Z.to_nat (h / jh + 1)) in
  exists s3,
    setupGtif sz jw jh AddrOf_DEM_Gtif (Some name) s = Ret true s3
    /\ open_session s3 pb bufs hd
    /\ bitsPerSample (DEM_Gtif s3) = 16
    /\ width (DEM_Gtif s3) = w /\ height (DEM_Gtif s3) = h
    /\ scanlineSize (DEM_Gtif s3) = 2 * w
    /\ windowSize (DEM_Gtif s3) = h / jh + 1
    /\ lineNo (DEM_Gtif s3) = -1
    /\ tifs s3 = <[hd := f]> (tifs s)
    /\ (forall x, is_Some (heap s3 !! x) -> is_Some (heap s !! x) \/ x ∈ pb :: bufs).
Proof.
  intros Hf Hb Hbr Hw Hh Hps Htp Hhr Hj Hsz Hcap Hm Hv hd pb bufs.
  destruct (setupGtif_granted sz jw jh name f b w h ps tp s
              Hf Hb Hbr Hw Hh Hps Htp Hhr Hj Hsz Hcap Hm Hv)
    as (s3 & Hrun & Hopen & (H1 & H2 & H3 & H4 & H5 & H6) & _ & Ht & Hdom).
  exists s3. split; [exact Hrun|]. split; [exact Hopen|].
  split; [exact H1|]. split; [exact H2|]. split; [exact H3|]. split; [exact H4|].
  split; [exact H5|]. split; [exact H6|]. split; [exact Ht | exact Hdom].
Qed.

End Session.

(** ** The text of a duration *)

Module TimeString.
Import Fp Machine Dem Examples Timing Properties Samples.
Import FpFacts Envelope Reader Frames Close Setup Window Runs Outcomes ResultLine Session.

Lemma length_append (a b : string) :
  String.length (a +:+ b) = (String.length a + String.length b)%nat.
Proof. induction a as [|c a IH]; simpl; [reflexivity | now f_equal]. Qed.

Lemma pretty_N_go_length_ge (x : N) (s : string) :
  (String.length s <= String.length (pretty_N_go x s))%nat.
Proof.
  revert s. induction (N.lt_wf_0 x) as [x _ IH]; intros s.
  assert (x = 0 \/ 0 < x)%N as [-> | Hx] by lia; [now rewrite pretty_N_go_0|].
  rewrite pretty_N_go_step by exact Hx.
  etransitivity; [|apply IH; now apply N.div_lt]. cbn. lia.
Qed.

Lemma pretty_N_go_length_1 (x : N) (s : string) :
  (0 < x < 10)%N -> String.length (pretty_N_go x s) = S (String.length s).
Proof.
  intros Hx. rewrite pretty_N_go_step by lia.
  rewrite N.div_small by lia. now rewrite pretty_N_go_0.
Qed.

Lemma pretty_N_go_length_2 (x : N) (s : string) :
  (10 <= x < 100)%N -> String.length (pretty_N_go x s) = S (S (String.length s)).
Proof.
  intros Hx. rewrite pretty_N_go_step by lia.
  rewrite pretty_N_go_length_1; [reflexivity|].
  split; [apply N.div_str_pos; lia | apply N.Div0.div_lt_upper_bound; lia].
Qed.

Lemma pretty_N_go_length_3 (x : N) (s : string) :
  (100 <= x)%N -> (3 + String.length s <= String.length (pretty_N_go x s))%nat.
Proof.
  intros Hx. rewrite pretty_N_go_step by lia.
  assert (H10 : (10 <= x / 10)%N) by (apply N.div_le_lower_bound; lia).
  rewrite pretty_N_go_step by lia.
  assert (H1 : (0 < x / 10 / 10)%N) by (apply N.div_str_pos; lia).
  rewrite pretty_N_go_step by lia.
  etransitivity; [|apply pretty_N_go_length_ge]. cbn. lia.
Qed.

(** The number of characters [%d] takes for a number that is not
    negative. *)
Lemma pretty_length (n : Z) :
  0 <= n ->
  (n < 10 -> String.length (pretty n) = 1%nat)
  /\ (10 <= n < 100 -> String.length (pretty n) = 2%nat)
  /\ (100 <= n -> (3 <= String.length (pretty n))%nat).
Proof.
  intros H0. destruct n as [|p|p]; [|clear H0|lia].
  - split; [intros _; reflexivity|]. split; intros H; lia.
  - change (pretty (Zpos p)) with (pretty_N_go (Npos p) "").
    split; [|split]; intros H.
    + now rewrite pretty_N_go_length_1 by lia.
    + now rewrite pretty_N_go_length_2 by lia.
    + pose proof (pretty_N_go_length_3 (Npos p) "" ltac:(lia)) as K. exact K.
Qed.

(** The three fields for a duration that is not negative. *)
Lemma time_fields (d : Z) :
  0 <= d < 3600 * 2 ^ 31 ->
  to_int32 (d ÷ 3600) = d / 3600
  /\ to_int32 (Z.rem d 3600 ÷ 60) = d mod 3600 / 60
  /\ to_int32 (Z.rem (Z.rem d 3600) 60) = d mod 60
  /\ 0 <= d / 3600 < 2 ^ 31 /\ 0 <= d mod 3600 / 60 < 60 /\ 0 <= d mod 60 < 60
  /\ d = 3600 * (d / 3600) + 60 * (d mod 3600 / 60) + d mod 60.
Proof.
  intros Hd.
  assert (Hsmall : forall z, 0 <= z < 2 ^ 31 -> to_int32 z = z).
  { intros z Hz. unfold to_int32. rewrite Z.mod_small by lia.
    destruct (Z.ltb_spec z (2 ^ 31)); lia. }
  pose proof (Z.mod_pos_bound d 3600 ltac:(lia)) as Ht.
  rewrite (Z.rem_mod_nonneg d 3600) by lia.
  rewrite (Z.rem_mod_nonneg (d mod 3600) 60) by lia.
  rewrite (Z.quot_div_nonneg d 3600) by lia.
  rewrite (Z.quot_div_nonneg (d mod 3600) 60) by lia.
  assert (Hh : 0 <= d / 3600 < 2 ^ 31).
  { split; [apply Z.div_pos; lia | apply Z.div_lt_upper_bound; lia]. }
  assert (Hm : 0 <= d mod 3600 / 60 < 60).
  { split; [apply Z.div_pos; lia | apply Z.div_lt_upper_bound; lia]. }
  pose proof (Z.mod_pos_bound d 60 ltac:(lia)) as Hs.
  assert (Hss : (d mod 3600) mod 60 = d mod 60).
  { symmetry. rewrite (Z.div_mod d 3600) at 1 by lia.
    replace (3600 * (d / 3600) + d mod 3600) with (d mod 3600 + (60 * (d / 3600)) * 60) by lia.
    apply Z.mod_add. lia. }
  pose proof (Z.div_mod d 3600 ltac:(lia)) as D1.
  pose proof (Z.div_mod (d mod 3600) 60 ltac:(lia)) as D2.
  rewrite Hss in *. rewrite !Hsmall by lia.
  split; [reflexivity|]. split; [reflexivity|]. split; [reflexivity|].
  split; [exact Hh|]. split; [exact Hm|]. split; [exact Hs|].
  set (q := d / 3600) in *. set (r := d mod 3600) in *. set (m := r / 60) in *.
  set (t := d mod 60) in *. clearbody q r m t. lia.
Qed.

Lemma toTimeString_run (d : Z) (s : state) :
  0 <= d < 3600 * 2 ^ 31 -> granted s = true ->
  toTimeString d s
  = if Z.of_nat (String.length (time_text d)) + 1 <=? 10
    then Ret (Ptr (next s), time_text d)
           (log (EvMalloc 10 (Ptr (next s)))
              (set_next (S (next s))
                 (set_heap (<[next s := fresh_block 10]> (heap s))
                    (set_mallocs (tail (mallocs s)) s))))
    else Undefined.
Proof.
  intros Hd Hg.
  destruct (time_fields d Hd) as (E1 & E2 & E3 & Hh & Hm & Hs & Hsum).
  unfold toTimeString. rewrite E1, E2, E3. change (10 * 1) with 10.
  unfold bind at 1. rewrite malloc_ok by (exact Hg || lia).
  unfold bind at 1.
  assert (Hspr : forall text,
             sprintf (Ptr (next s)) text
               (log (EvMalloc 10 (Ptr (next s)))
                  (set_next (S (next s))
                     (set_heap (<[next s := fresh_block 10]> (heap s))
                        (set_mallocs (tail (mallocs s)) s))))
             = if Z.of_nat (String.length text) + 1 <=? 10
               then Ret text
                      (log (EvMalloc 10 (Ptr (next s)))
                         (set_next (S (next s))
                            (set_heap (<[next s := fresh_block 10]> (heap s))
                               (set_mallocs (tail (mallocs s)) s))))
               else Undefined).
  { intros text. unfold sprintf. cbn [log set_next set_heap heap].
    rewrite lookup_insert_eq. reflexivity. }
  unfold time_text.
  destruct (Z.eqb_spec d 0) as [-> | Hd0].
  - change (0 / 3600) with 0. change (0 mod 3600 / 60) with 0. change (0 mod 60) with 0.
    cbn [Z.eqb andb]. rewrite Hspr. reflexivity.
  - destruct (Z.ltb_spec d 3600) as [Hlt | Hge].
    + rewrite (Z.div_small d 3600) by lia. cbn [Z.eqb].
      replace ((d mod 3600 / 60 =? 0) && (d mod 60 =? 0)) with false.
      * rewrite Hspr. now destruct (_ <=? 10).
      * symmetry. apply andb_false_iff.
        destruct (Z.eqb_spec (d mod 3600 / 60) 0) as [Em | Em]; [right | now left].
        apply Z.eqb_neq. lia.
    + replace (d / 3600 =? 0) with false
        by (symmetry; apply Z.eqb_neq; pose proof (Z.div_le_lower_bound d 3600 1); lia).
      rewrite Hspr. now destruct (_ <=? 10).
Qed.

Lemma time_text_length (d : Z) :
  0 <= d < 3600 * 2 ^ 31 ->
  let h := d / 3600 in
  let m := d mod 3600 / 60 in
  let sec := d mod 60 in
  (Z.of_nat (String.length (time_text d)) + 1 <=? 10) = false
  <-> d = 0 \/ (1 <= h <= 9 /\ 10 <= m /\ 10 <= sec)
      \/ (10 <= h <= 99 /\ (10 <= m \/ 10 <= sec)) \/ 100 <= h.
Proof.
  intros Hd h m sec.
  destruct (time_fields d Hd) as (_ & _ & _ & Hh & Hm & Hs & Hsum).
  fold h in Hh, Hsum. fold m in Hm, Hsum. fold sec in Hs, Hsum.
  unfold time_text. fold h m sec.
  destruct (pretty_length m ltac:(lia)) as (Lm1 & Lm2 & _).
  destruct (pretty_length sec ltac:(lia)) as (Ls1 & Ls2 & _).
  destruct (pretty_length h ltac:(lia)) as (Lh1 & Lh2 & Lh3).
  rewrite Z.leb_gt.
  destruct (Z.eqb_spec d 0) as [-> | Hd0].
  { cbn. split; [now left | lia]. }
  destruct (Z.ltb_spec d 3600) as [Hlt | Hge].
  - assert (h = 0) by (subst h; apply Z.div_small; lia).
    rewrite !length_append. cbn [String.length].
    destruct (Z_lt_ge_dec m 10); [rewrite Lm1 by lia | rewrite Lm2 by lia];
      (destruct (Z_lt_ge_dec sec 10); [rewrite Ls1 by lia | rewrite Ls2 by lia]); lia.
  - assert (1 <= h) by (subst h; apply Z.div_le_lower_bound; lia).
    rewrite !length_append. cbn [String.length].
    destruct (Z_lt_ge_dec m 10); [rewrite Lm1 by lia | rewrite Lm2 by lia];
      (destruct (Z_lt_ge_dec sec 10); [rewrite Ls1 by lia | rewrite Ls2 by lia]);
      (destruct (Z_lt_ge_dec h 10);
       [rewrite Lh1 by lia
       |destruct (Z_lt_ge_dec h 100);
        [rewrite Lh2 by lia | pose proof (Lh3 ltac:(lia))]]); lia.
Qed.

(** X12: the text of a duration.  For a duration that is not negative
    the hours, minutes and seconds written add up to it, the last two
    below 60; the buffer returned is a new block of 10 bytes, which is
    the caller's to free. *)
Theorem toTimeString_text (d : Z) (s s' : state) (p : ptr) (text : string) :
  0 <= d < 3600 * 2 ^ 31 -> granted s = true ->
  toTimeString d s = Ret (p, text) s' ->
  let h := d / 3600 in
  let m := d mod 3600 / 60 in
  let sec := d mod 60 in
  d = 3600 * h + 60 * m + sec /\ 0 <= m < 60 /\ 0 <= sec < 60
  /\ text = (if d <? 3600
             then pretty m +:+ "m:" +:+ pretty sec +:+ "s"
             else pretty h +:+ "h:" +:+ pretty m +:+ "m:" +:+ pretty sec +:+ "s")
  /\ p = Ptr (next s)
  /\ heap s' = <[next s := fresh_block 10]> (heap s).
Proof.
  intros Hd Hg Hrun h m sec.
  destruct (time_fields d Hd) as (_ & _ & _ & Hh & Hm & Hs & Hsum).
  split; [exact Hsum|]. split; [exact Hm|]. split; [exact Hs|].
  rewrite (toTimeString_run d s Hd Hg) in Hrun.
  destruct (Z.of_nat (String.length (time_text d)) + 1 <=? 10) eqn:E; [|discriminate Hrun].
  inversion Hrun; subst; clear Hrun. split; [|split; reflexivity].
  unfold time_text. destruct (Z.eqb_spec d 0) as [-> | Hd0]; [discriminate E | reflexivity].
Qed.

(** X13: the buffer of 10 bytes is too small for some durations.  The
    text and its terminator do not fit, and the write runs over the end
    of the block, exactly when the duration is zero (the text
    ["< 1 second"] has ten characters), or the hours have one digit and
    minutes and seconds two each, or the hours have two digits and
    minutes or seconds have two, or the hours have three digits or
    more. *)
Theorem toTimeString_overrun (d : Z) (s : state) :
  0 <= d < 3600 * 2 ^ 31 -> granted s = true ->
  let h := d / 3600 in
  let m := d mod 3600 / 60 in
  let sec := d mod 60 in
  toTimeString d s = Undefined
  <-> d = 0 \/ (1 <= h <= 9 /\ 10 <= m /\ 10 <= sec)
      \/ (10 <= h <= 99 /\ (10 <= m \/ 10 <= sec)) \/ 100 <= h.
Proof.
  intros Hd Hg h m sec. subst h m sec. rewrite (toTimeString_run d s Hd Hg).
  pose proof (time_text_length d Hd) as L. cbv zeta in L. rewrite <- L.
  destruct (Z.of_nat (String.length (time_text d)) + 1 <=? 10); split; intros H;
    (reflexivity || discriminate H).
Qed.

End TimeString.

(** ** From a coordinate to the sample *)

Module Lookup.
Import Fp Machine Dem Examples Timing Properties Samples.
Import FpFacts Envelope Reader Frames Close Setup Window Runs Outcomes ResultLine
  Session TimeString.

Lemma open_session_ext (s s' : state) (pb : nat) (bufs : list nat) (h : nat) :
  scanlines (DEM_Gtif s') = scanlines (DEM_Gtif s) ->
  windowSize (DEM_Gtif s') = windowSize (DEM_Gtif s) ->
  tif (DEM_Gtif s') = tif (DEM_Gtif s) ->
  tifs s' = tifs s -> heap s' = heap s ->
  open_session s pb bufs h -> open_session s' pb bufs h.
Proof.
  intros E1 E2 E3 E4 E5. unfold open_session. now rewrite E1, E2, E3, E4, E5.
Qed.

Lemma finite_value (x : spec_float) :
  x <> S754_nan -> (forall s, x <> S754_infinity s) -> SF2X x = Xfin (SF2Q x).
Proof. destruct x; try reflexivity; intros H1 H2; [now destruct (H2 s) | now destruct H1]. Qed.

Lemma Qtrunc_below (q : Q) (n : Z) :
  (0 <= q)%Q -> (q < inject_Z n)%Q -> 0 <= Qtrunc q < n.
Proof.
  intros H0 Hn. rewrite (Qtrunc_nonneg q H0). split.
  - rewrite <- (Qfloor_Z 0). now apply Qfloor_resp_le.
  - rewrite Zlt_Qlt. apply Qle_lt_trans with q; [apply Qfloor_le | exact Hn].
Qed.

(** Inside the box the row is between 0 and 40 and the column between 0
    and 49, and these are what lines 80-81 compute. *)
Lemma row_in_box (Lat : spec_float) (g0 : Gtif) :
  is_float Lat -> Lat <> S754_nan ->
  latOutside Lat (assumedBox g0) = false ->
  calcLineNo Lat (assumedBox g0) = Some (row_of Lat) /\ 0 <= row_of Lat <= 40.
Proof.
  intros Hf Hn Ho. rewrite (calcLineNo_exact Lat g0 Hf Hn Ho).
  assert (E : (- (SF2Q Lat - SF2Q (c1 (UL (assumedBox g0)))) == - (SF2Q Lat - (-8)))%Q).
  { change (c1 (UL (assumedBox g0))) with (double_of_Z (-8)). now rewrite value_m8. }
  rewrite (Qtrunc_comp _ _ E). split; [reflexivity|].
  assert (Hin : ~ (xlt (Xfin (-8)) (SF2X Lat) \/ xlt (SF2X Lat) (Xfin (-48)))).
  { intros K. apply (latOutside_spec Lat g0 Hf) in K. congruence. }
  unfold row_of. destruct Lat as [s | s | | s m e]; try contradiction.
  - exfalso. apply Hin. left. cbn. reflexivity.
  - exfalso. apply Hin. destruct s; [right | left]; exact I.
  - cbn [SF2X xlt] in Hin. apply Qtrunc_bounds.
    + apply Qnot_lt_le. intros K. apply Hin. left. lra.
    + apply Qnot_lt_le. intros K. apply Hin. right. change (inject_Z 40) with 40%Q in K. lra.
Qed.

Lemma col_in_box (Long : spec_float) (g0 : Gtif) :
  is_float Long -> Long <> S754_nan ->
  longOutside Long (assumedBox g0) = false ->
  calcPixelNo Long (assumedBox g0) = Some (col_of Long) /\ 0 <= col_of Long <= 49.
Proof.
  intros Hf Hn Ho. rewrite (calcPixelNo_exact Long g0 Hf Hn Ho).
  assert (E : (SF2Q Long - SF2Q (c0 (LL (assumedBox g0))) == SF2Q Long - 108)%Q).
  { change (c0 (LL (assumedBox g0))) with (double_of_Z 108). now rewrite value_108. }
  rewrite (Qtrunc_comp _ _ E). split; [reflexivity|].
  assert (Hin : ~ (xlt (SF2X Long) (Xfin 108)
                   \/ xlt (Xfin (15799999999 # 100000000)) (SF2X Long))).
  { intros K. apply (longOutside_spec Long g0 Hf) in K. congruence. }
  unfold col_of. destruct Long as [s | s | | s m e]; try contradiction.
  - exfalso. apply Hin. left. cbn. reflexivity.
  - exfalso. apply Hin. destruct s; [left | right]; exact I.
  - cbn [SF2X xlt] in Hin.
    assert (B : 0 <= Qtrunc (SF2Q (S754_finite s m e) - 108) < 50); [|lia].
    apply Qtrunc_below.
    + apply Qnot_lt_le. intros K. apply Hin. left. lra.
    + apply Qnot_le_lt. intros K. apply Hin. right. change (inject_Z 50) with 50%Q in K.
      apply Qlt_le_trans with 158%Q; [reflexivity | lra].
Qed.

Lemma inside_box (Lat Long : spec_float) (g0 : Gtif) :
  is_float Lat -> is_float Long ->
  ~ outsideBox (SF2X Lat) (SF2X Long) ->
  latOutside Lat (assumedBox g0) = false /\ longOutside Long (assumedBox g0) = false.
Proof.
  intros HL HG Hin.
  pose proof (outsideBox_spec Lat Long g0 HL HG) as S.
  destruct (latOutside Lat (assumedBox g0)); [exfalso; apply Hin, S; reflexivity|].
  destruct (longOutside Long (assumedBox g0)); [exfalso; apply Hin, S; reflexivity|].
  split; reflexivity.
Qed.

Lemma box_row_col (Lat Long : spec_float) (g0 : Gtif) :
  is_float Lat -> is_float Long -> Lat <> S754_nan -> Long <> S754_nan ->
  ~ outsideBox (SF2X Lat) (SF2X Long) ->
  calcLineNo Lat (assumedBox g0) = Some (row_of Lat)
  /\ calcPixelNo Long (assumedBox g0) = Some (col_of Long)
  /\ 0 <= row_of Lat <= 40 /\ 0 <= col_of Long <= 49.
Proof.
  intros HL HG NL NG Hin.
  destruct (inside_box Lat Long g0 HL HG Hin) as [Ho1 Ho2].
  destruct (row_in_box Lat g0 HL NL Ho1) as [Hr Hrb].
  destruct (col_in_box Long g0 HG NG Ho2) as [Hc Hcb]. auto.
Qed.

(** X5: the box maps onto a grid of 41 rows and 50 columns: a coordinate
    inside the box has a row between 0 and 40 and a column between 0 and
    49, so that it passes the pixel bounds of any raster of at least 40
    by 49. *)
Theorem box_grid (Lat Long : spec_float) (g0 : Gtif) :
  is_float Lat -> is_float Long -> Lat <> S754_nan -> Long <> S754_nan ->
  ~ outsideBox (SF2X Lat) (SF2X Long) ->
  calcLineNo Lat (assumedBox g0) = Some (row_of Lat)
  /\ calcPixelNo Long (assumedBox g0) = Some (col_of Long)
  /\ 0 <= row_of Lat <= 40 /\ 0 <= col_of Long <= 49
  /\ (40 <= height g0 -> 49 <= width g0 ->
      forall s, DEM_Gtif s = assumedBox g0 ->
                checkLinePixel (row_of Lat) (col_of Long) s = Ret tt s).
Proof.
  intros HL HG NL NG Hin.
  destruct (inside_box Lat Long g0 HL HG Hin) as [Ho1 Ho2].
  destruct (row_in_box Lat g0 HL NL Ho1) as [Hr Hrb].
  destruct (col_in_box Long g0 HG NG Ho2) as [Hc Hcb].
  split; [exact Hr|]. split; [exact Hc|]. split; [exact Hrb|]. split; [exact Hcb|].
  intros Hh Hw s Hs. rewrite checkLinePixel_run, Hs. unfold lineOutside, pixelOutside.
  change (height (assumedBox g0)) with (height g0).
  change (width (assumedBox g0)) with (width g0).
  replace (row_of Lat <? 0) with false by (symmetry; apply Z.ltb_ge; lia).
  replace (row_of Lat >? height g0) with false by (rewrite Z.gtb_ltb; symmetry; apply Z.ltb_ge; lia).
  replace (col_of Long <? 0) with false by (symmetry; apply Z.ltb_ge; lia).
  replace (col_of Long >? width g0) with false by (rewrite Z.gtb_ltb; symmetry; apply Z.ltb_ge; lia).
  reflexivity.
Qed.

Lemma to_uint32_small (z : Z) : 0 <= z < 2 ^ 32 -> to_uint32 z = z.
Proof. intros H. unfold to_uint32. now apply Z.mod_small. Qed.

(** Lines 99-110 on a session that is open, for a row and a column the
    scanline holds: the read, the result line, the close and the exit. *)
Lemma report_run (Lat Long : spec_float) (s : state) (g0 : Gtif)
    (pb : nat) (bufs : list nat) (hd : nat) (f : TiffFile) (l : list Z) (v : Z) :
  DEM_Gtif s = assumedBox g0 ->
  is_float Lat -> is_float Long -> Lat <> S754_nan -> Long <> S754_nan ->
  ~ outsideBox (SF2X Lat) (SF2X Long) ->
  open_session s pb bufs hd -> tifs s !! hd = Some f ->
  mallocs s = [] -> heap s !! next s = None ->
  0 <= scanlineSize g0 < 2 ^ 63 ->
  scanline f (row_of Lat) = Some l ->
  2 * Z.of_nat (length l) <= scanlineSize g0 ->
  l !! Z.to_nat (col_of Long) = Some v ->
  exists s_end,
    ((ElevVal <- readDEMvalue AddrOf_DEM_Gtif (row_of Lat) (col_of Long) ;;
      print (DemValue (row_of Lat) (col_of Long) ElevVal) ;;;
      closeGtif AddrOf_DEM_Gtif ;;;
      exit 0) : M unit) s = Exit 0 s_end
    /\ trace s_end
       = trace s ++ [EvMalloc (scanlineSize g0) (Ptr (next s));
                     EvReadScanline hd (row_of Lat) true;
                     EvFree (next s);
                     EvStdout (DemValue (row_of Lat) (col_of Long) v)]
                 ++ (EvFree <$> bufs) ++ [EvFree pb; EvClose hd]
    /\ heap s_end = delete pb (released bufs (heap s))
    /\ tifs s_end = delete hd (tifs s).
Proof.
  intros Hg HL HG NL NG Hin Hopen Hf Hm Hfresh Hsize Hsl Hlen Hval.
  destruct (box_row_col Lat Long g0) as (Hr & Hc & Hrb & Hcb); try assumption.
  destruct Hopen as (Hp & Hw & Ht & Hsome & Hpool & Hlive & Hnd).
  unfold bind at 1.
  rewrite (readDEMvalue_run (row_of Lat) (col_of Long) s hd f).
  2: { rewrite Hg. change (tif (assumedBox g0)) with (tif g0).
       rewrite Hg in Ht. exact Ht. }
  2: { exact Hf. }
  2: { rewrite Hg. exact Hsize. }
  2: { unfold granted. now rewrite Hm. }
  rewrite Hg. change (scanlineSize (assumedBox g0)) with (scanlineSize g0).
  rewrite to_uint32_small by lia. rewrite Hsl.
  replace (2 * Z.of_nat (length l) <=? scanlineSize g0) with true
    by (symmetry; apply Z.leb_le; lia).
  replace (0 <=? col_of Long) with true by (symmetry; apply Z.leb_le; lia).
  rewrite Hval.
  cbn [log set_next set_heap set_mallocs heap next].
  rewrite insert_insert_eq, delete_insert_eq, (delete_id _ _ Hfresh).
  unfold bind at 1. unfold print at 1, emit at 1. cbv beta. unfold bind at 1.
  match goal with
  | |- context [closeGtif AddrOf_DEM_Gtif ?x] => set (sD := x)
  end.
  destruct (closeGtif_run sD pb bufs hd) as (sE & Hrun & Htr & Hh & Htf).
  { unfold open_session. subst sD. cbn [log set_heap set_next set_mallocs DEM_Gtif tifs heap].
    repeat split; assumption. }
  rewrite Hrun. exists sE. split; [reflexivity|].
  rewrite Htr, Hh, Htf. subst sD. cbn [log set_heap set_next set_mallocs trace tifs heap].
  split; [now rewrite <- !app_assoc|].
  split; reflexivity.
Qed.

Lemma short_text_fits (d : Z) :
  0 < d < 3600 -> (Z.of_nat (String.length (time_text d)) + 1 <=? 10) = true.
Proof.
  intros Hd.
  destruct (Z.of_nat (String.length (time_text d)) + 1 <=? 10) eqn:E; [reflexivity|].
  apply (time_text_length d) in E; [|lia]. cbv zeta in E.
  rewrite (Z.div_small d 3600) in E by lia. lia.
Qed.

(** Once the coordinates have passed the checks, [lookupElevation] goes
    on from the state [toTimeString] leaves, when the text fits. *)
Lemma lookupElevation_run (elapsed : Z) (Lat Long : spec_float) (g0 : Gtif) (s : state) :
  DEM_Gtif s = assumedBox g0 ->
  is_float Lat -> is_float Long -> Lat <> S754_nan -> Long <> S754_nan ->
  ~ outsideBox (SF2X Lat) (SF2X Long) ->
  row_of Lat <= height g0 -> col_of Long <= width g0 ->
  verbose s = true -> granted s = true ->
  0 <= elapsed < 3600 * 2 ^ 31 ->
  lookupElevation elapsed Lat Long s
  = if Z.of_nat (String.length (time_text elapsed)) + 1 <=? 10
    then ((ElevVal <- readDEMvalue AddrOf_DEM_Gtif (row_of Lat) (col_of Long) ;;
           print (DemValue (row_of Lat) (col_of Long) ElevVal) ;;;
           closeGtif AddrOf_DEM_Gtif ;;;
           exit 0) : M unit) (log (EvStdout TotalCpuTime) (timed s))
    else Undefined.
Proof.
  intros Hg HL HG NL NG Hin Hrow Hcol Hv Hgr He.
  destruct (box_row_col Lat Long g0) as (Hr & Hc & Hrb & Hcb); try assumption.
  destruct (inside_box Lat Long g0 HL HG Hin) as [Ho1 Ho2].
  unfold lookupElevation.
  unfold bind at 1. rewrite checkLatLong_run, Hg, Ho1, Ho2.
  unfold bind at 1. unfold deref at 1. rewrite Hg, Hr, Hc.
  unfold bind at 1. rewrite checkLinePixel_run, Hg. unfold lineOutside, pixelOutside.
  change (height (assumedBox g0)) with (height g0).
  change (width (assumedBox g0)) with (width g0).
  replace (row_of Lat <? 0) with false by (symmetry; apply Z.ltb_ge; lia).
  replace (row_of Lat >? height g0) with false
    by (rewrite Z.gtb_ltb; symmetry; apply Z.ltb_ge; lia).
  replace (col_of Long <? 0) with false by (symmetry; apply Z.ltb_ge; lia).
  replace (col_of Long >? width g0) with false
    by (rewrite Z.gtb_ltb; symmetry; apply Z.ltb_ge; lia).
  cbn [orb]. unfold bind at 1. rewrite Hv. cbn [when].
  unfold bind at 1. unfold bind at 1. rewrite (toTimeString_run elapsed s He Hgr).
  destruct (Z.of_nat (String.length (time_text elapsed)) + 1 <=? 10); reflexivity.
Qed.

(** X4: the timing line on the path to the result.  A run that would
    succeed and takes less than a second has undefined behaviour on its
    way through the timing line: the text ["< 1 second"] and
    its terminator are written into a block of 10 bytes.  A run that
    takes between a second and an hour ends with status 0 and prints the
    sample; at the end the raster is closed and one block is left
    allocated, the 10 bytes of the time string. *)
Theorem timed_lookup (sz jw jh elapsed : Z) (name : string)
    (fs : string -> option TiffFile) (g0 : Gtif) (f : TiffFile)
    (b w h : Z) (ps tp : list spec_float) (Lat Long : spec_float)
    (l : list Z) (v : Z) :
  fs name = Some f ->
  BITSPERSAMPLE f = Some b -> 8 < b <= 16 ->
  IMAGEWIDTH f = Some w -> IMAGELENGTH f = Some h ->
  GTIFF_PIXELSCALE f = Some ps -> GTIFF_TIEPOINTS f = Some tp ->
  0 <= h < 2 ^ 32 -> 0 < jh <= INT_MAX ->
  0 < sz <= 2 * w -> 2 * w * (h / jh + 1) <= INT_MAX ->
  is_float Lat -> is_float Long -> Lat <> S754_nan -> Long <> S754_nan ->
  ~ outsideBox (SF2X Lat) (SF2X Long) ->
  row_of Lat <= h -> col_of Long <= w ->
  scanline f (row_of Lat) = Some l -> Z.of_nat (length l) <= w ->
  l !! Z.to_nat (col_of Long) = Some v ->
  (elapsed = 0 ->
   main sz jw jh elapsed name Lat Long (initial fs [] g0) = Undefined)
  /\ (0 < elapsed < 3600 ->
      exists s_end,
        main sz jw jh elapsed name Lat Long (initial fs [] g0) = Exit 0 s_end
        /\ EvStdout (DemValue (row_of Lat) (col_of Long) v) ∈ trace s_end
        /\ tifs s_end = ∅
        /\ heap s_end = {[ (2 + Z.to_nat (h / jh + 1))%nat := fresh_block 10 ]}).
Proof.
  intros Hf Hb Hbr Hw Hh Hps Htp Hhr Hj Hsz Hcap HL HG NL NG Hin Hrow Hcol Hsl Hlen Hval.
  set (s0 := initial fs [] g0).
  destruct (setupGtif_granted sz jw jh name f b w h ps tp (set_verbose true s0))
    as (s3 & Hrun & Hopen & (Hbits & Hwd & Hht & Hss & Hws & _) & (Hv3 & Hm3 & Hn3) & Ht3 & Hdom);
    try assumption; try reflexivity.
  cbn [s0 initial set_verbose next tifs heap] in Hopen, Hn3, Ht3, Hdom.
  rewrite (main_after_setup _ _ _ _ _ _ _ _ _ _ Hrun).
  set (n := Z.to_nat (h / jh + 1)) in *.
  set (sA := set_DEM_Gtif (assumedBox (DEM_Gtif s3)) s3).
  assert (Hdom' : forall x, is_Some (heap s3 !! x) -> x ∈ 1%nat :: seq 2 n).
  { intros x Hx. destruct (Hdom x Hx) as [K | K]; [|exact K].
    rewrite lookup_empty in K. now destruct K. }
  assert (HrowA : row_of Lat <= height (DEM_Gtif s3)) by now rewrite Hht.
  assert (HcolA : col_of Long <= width (DEM_Gtif s3)) by now rewrite Hwd.
  assert (HgrA : granted sA = true).
  { unfold granted. subst sA. cbn [set_DEM_Gtif mallocs]. now rewrite Hm3. }
  assert (Htimed : forall He : 0 <= elapsed < 3600 * 2 ^ 31,
             lookupElevation elapsed Lat Long sA
             = if Z.of_nat (String.length (time_text elapsed)) + 1 <=? 10
               then ((ElevVal <- readDEMvalue AddrOf_DEM_Gtif (row_of Lat) (col_of Long) ;;
                      print (DemValue (row_of Lat) (col_of Long) ElevVal) ;;;
                      closeGtif AddrOf_DEM_Gtif ;;;
                      exit 0) : M unit) (log (EvStdout TotalCpuTime) (timed sA))
               else Undefined).
  { intros He.
    apply (lookupElevation_run elapsed Lat Long (DEM_Gtif s3) sA eq_refl
             HL HG NL NG Hin HrowA HcolA Hv3 HgrA He). }
  split.
  - intros ->. rewrite Htimed by lia. reflexivity.
  - intros He. rewrite Htimed by lia. rewrite (short_text_fits elapsed He).
    set (sT := log (EvStdout TotalCpuTime) (timed sA)).
    assert (Hnext : next sT = (3 + n)%nat).
    { unfold sT, timed. subst sA.
      cbn [log set_next set_heap set_mallocs set_DEM_Gtif next]. rewrite Hn3. lia. }
    assert (Hheap : heap sT = <[(2 + n)%nat := fresh_block 10]> (heap s3)).
    { unfold sT, timed. subst sA.
      cbn [log set_next set_heap set_mallocs set_DEM_Gtif heap next].
      rewrite Hn3. reflexivity. }
    assert (Hnot : forall x, x ∈ 1%nat :: seq 2 n -> x <> (2 + n)%nat).
    { intros x K. apply elem_of_cons in K as [K | K]; [lia|].
      apply elem_of_seq in K. lia. }
    assert (Hfresh : heap sT !! next sT = None).
    { rewrite Hnext, Hheap. rewrite lookup_insert_ne by lia.
      destruct (heap s3 !! (3 + n)%nat) eqn:E; [|reflexivity]. exfalso.
      assert (K : (3 + n)%nat ∈ 1%nat :: seq 2 n) by (apply Hdom'; rewrite E; eauto).
      apply elem_of_cons in K as [K | K]; [lia|]. apply elem_of_seq in K. lia. }
    assert (HopenT : open_session sT 1%nat (seq 2 n) 0%nat).
    { destruct Hopen as (Hp & Hwn & Ht & Hsome & (blk & Hblk & Hslots) & Hlive & Hnd).
      unfold open_session. rewrite Hheap.
      change (DEM_Gtif sT) with (assumedBox (DEM_Gtif s3)).
      change (tifs sT) with (tifs s3).
      split; [exact Hp|]. split; [exact Hwn|]. split; [exact Ht|]. split; [exact Hsome|].
      split; [|split; [|exact Hnd]].
      - exists blk. split; [|exact Hslots].
        rewrite lookup_insert_ne; [exact Hblk|].
        intros E. apply (Hnot 1%nat); [apply elem_of_cons; now left | now symmetry].
      - intros x Hx. rewrite lookup_insert_ne; [now apply Hlive|].
        intros E. apply (Hnot x); [apply elem_of_cons; now right | now symmetry]. }
    assert (HtifT : tifs sT !! 0%nat = Some f).
    { change (tifs sT) with (tifs s3). rewrite Ht3. apply lookup_insert_eq. }
    assert (HmT : mallocs sT = []).
    { unfold sT, timed. subst sA.
      cbn [log set_next set_heap set_mallocs set_DEM_Gtif mallocs]. now rewrite Hm3. }
    assert (Hq0 : 0 <= h / jh) by (apply Z.div_pos; lia).
    assert (HsizeA : 0 <= scanlineSize (DEM_Gtif s3) < 2 ^ 63).
    { rewrite Hss. unfold INT_MAX in Hcap. nia. }
    assert (HlenA : 2 * Z.of_nat (length l) <= scanlineSize (DEM_Gtif s3))
      by (rewrite Hss; lia).
    destruct (report_run Lat Long sT (DEM_Gtif s3) 1%nat (seq 2 n) 0%nat
                f l v eq_refl HL HG NL NG Hin HopenT HtifT HmT Hfresh HsizeA
                Hsl HlenA Hval)
      as (s_end & Hend & Htr & Hheap' & Htifs).
    exists s_end. split; [exact Hend|]. split; [|split].
    + rewrite Htr, !elem_of_app. right. left. rewrite !elem_of_cons. auto 10.
    + rewrite Htifs. change (tifs sT) with (tifs s3). rewrite Ht3.
      rewrite delete_insert_eq. apply delete_empty.
    + rewrite Hheap', Hheap. apply map_eq. intros x.
      destruct (decide (x = 1%nat)) as [-> | Hne].
      { rewrite lookup_delete_eq. symmetry. apply lookup_singleton_ne. lia. }
      rewrite lookup_delete_ne by congruence. rewrite lookup_released.
      destruct (decide (x ∈ seq 2 n)) as [Hx | Hx].
      { symmetry. apply lookup_singleton_ne. apply elem_of_seq in Hx. lia. }
      destruct (decide (x = (2 + n)%nat)) as [-> | Hx2].
      { rewrite lookup_insert_eq. symmetry. apply lookup_singleton_eq. }
      rewrite lookup_insert_ne by congruence.
      rewrite lookup_singleton_ne by congruence.
      destruct (heap s3 !! x) eqn:E; [|reflexivity]. exfalso.
      assert (K : x ∈ 1%nat :: seq 2 n) by (apply Hdom'; rewrite E; eauto).
      apply elem_of_cons in K as [K | K]; contradiction.
Qed.

End Lookup.

(** ** Failures of [setupGtif] *)

Module SetupFailures.
Import Fp Machine Dem Examples Timing Properties Samples.
Import FpFacts Envelope Reader Frames Close Setup Window Runs Outcomes ResultLine
  Session TimeString Lookup.

Lemma setupGtif_untagged (sz jw jh : Z) (name : string) (f : TiffFile) (s : state) :
  files s name = Some f -> BITSPERSAMPLE f = None ->
  setupGtif sz jw jh AddrOf_DEM_Gtif (Some name) s
  = Ret false
      (log (EvStderr (CannotExtractBitsPerSample name))
         (set_DEM_Gtif
            (from_option (fun v => set_samplesPerPixel v (set_tif (Ptr (next s)) (set_tif NULL (DEM_Gtif s))))
               (set_tif (Ptr (next s)) (set_tif NULL (DEM_Gtif s))) (SAMPLESPERPIXEL f))
            (log (EvOpen name (Ptr (next s)))
               (set_next (S (next s)) (set_tifs (<[next s := f]> (tifs s)) s))))).
Proof.
  intros Hf Hb. unfold setupGtif.
  unfold bind at 1. unfold assign at 1.
  unfold bind at 1. unfold TIFFOpen. cbn [files set_DEM_Gtif]. rewrite Hf.
  unfold bind at 1. unfold assign at 1. cbn [is_null].
  unfold bind at 1. unfold TIFFGetField at 1.
  cbn [tifs log set_next set_tifs set_DEM_Gtif]. rewrite lookup_insert_eq.
  unfold bind at 1. unfold assign at 1.
  unfold bind at 1. unfold TIFFGetField at 1.
  cbn [tifs log set_next set_tifs set_DEM_Gtif]. rewrite lookup_insert_eq, Hb.
  reflexivity.
Qed.

Lemma setupBuffers_returns_true (sz : Z) (gtif : GtifPtr) (name : string) (t : ptr)
    (s s' : state) (r : bool) :
  setupBuffers sz gtif name t s = Ret r s' -> r = true.
Proof.
  unfold setupBuffers. intros H. inv_run H. now inversion H.
Qed.

(** X6: when [setupGtif] returns [FALSE].  A null file name, a file
    that cannot be opened and a file without the bits-per-sample tag
    make it return [FALSE], the last two after their diagnostic; in no
    other case does it return [FALSE].  A file that was opened stays
    open. *)
Theorem setupGtif_false (sz jw jh : Z) (name : string) (s : state) :
  setupGtif sz jw jh AddrOf_DEM_Gtif None s = Ret false s
  /\ (files s name = None ->
      exists s1,
        setupGtif sz jw jh AddrOf_DEM_Gtif (Some name) s = Ret false s1
        /\ last (trace s1) = Some (EvStderr (CannotOpenFile name))
        /\ tifs s1 = tifs s /\ tif (DEM_Gtif s1) = NULL)
  /\ (forall f,
        files s name = Some f -> BITSPERSAMPLE f = None ->
        exists s1,
          setupGtif sz jw jh AddrOf_DEM_Gtif (Some name) s = Ret false s1
          /\ last (trace s1) = Some (EvStderr (CannotExtractBitsPerSample name))
          /\ tifs s1 = <[next s := f]> (tifs s) /\ tif (DEM_Gtif s1) = Ptr (next s))
  /\ (forall s1,
        setupGtif sz jw jh AddrOf_DEM_Gtif (Some name) s = Ret false s1 ->
        files s name = None
        \/ exists f, files s name = Some f /\ BITSPERSAMPLE f = None).
Proof.
  split; [reflexivity|]. split; [|split].
  - intros Hf. rewrite (setupGtif_unopenable sz jw jh name s Hf). eexists.
    split; [reflexivity|]. cbn [log trace tifs DEM_Gtif set_DEM_Gtif tif set_tif].
    split; [apply last_snoc|]. split; reflexivity.
  - intros f Hf Hb. rewrite (setupGtif_untagged sz jw jh name f s Hf Hb). eexists.
    split; [reflexivity|]. cbn [log trace tifs DEM_Gtif set_DEM_Gtif set_next set_tifs].
    split; [apply last_snoc|]. split; [reflexivity|].
    destruct (SAMPLESPERPIXEL f); reflexivity.
  - intros s1 H. destruct (files s name) as [f|] eqn:Hf; [|now left]. right. exists f.
    split; [reflexivity|]. destruct (BITSPERSAMPLE f) as [b|] eqn:Hb; [exfalso|reflexivity].
    rewrite (setupGtif_opened sz jw jh name f b s Hf Hb) in H.
    destruct (GTIFF_PIXELSCALE f); [|discriminate H].
    destruct (bufferGeometry _); [|discriminate H].
    apply setupBuffers_returns_true in H. discriminate H.
Qed.

(** X7: a raster without the pixel-scale tag, or with it but without the
    tie points, ends the run with status 11 and the diagnostic of the
    missing tag, whatever its sample depth; no block has been allocated
    by then and the file is still open. *)
Theorem missing_geotiff_tag (sz jw jh elapsed : Z) (name : string) (f : TiffFile) (b : Z)
    (Lat Long : spec_float) (s0 : state) :
  files s0 name = Some f -> BITSPERSAMPLE f = Some b ->
  (GTIFF_PIXELSCALE f = None ->
   exists s_end,
     main sz jw jh elapsed name Lat Long s0 = Exit 11 s_end
     /\ last (trace s_end) = Some (EvStderr CannotExtractPixelSize)
     /\ heap s_end = heap s0 /\ tifs s_end = <[next s0 := f]> (tifs s0))
  /\ (forall ps g',
        GTIFF_PIXELSCALE f = Some ps ->
        bufferGeometry
          (set_pixelSize ps
             (legacyScales jw jh (sessionWithTags (DEM_Gtif s0) (Ptr (next s0)) f b)))
        = Some g' ->
        GTIFF_TIEPOINTS f = None ->
        exists s_end,
          main sz jw jh elapsed name Lat Long s0 = Exit 11 s_end
          /\ last (trace s_end) = Some (EvStderr CannotExtractTiePoints)
          /\ heap s_end = heap s0 /\ tifs s_end = <[next s0 := f]> (tifs s0)).
Proof.
  intros Hf Hb.
  pose proof (setupGtif_opened sz jw jh name f b (set_verbose true s0) Hf Hb) as R.
  cbn [set_verbose DEM_Gtif next] in R. split.
  - intros Hps. rewrite Hps in R. eexists. split; [exact (main_exits_in_setup _ _ _ _ _ _ _ _ _ _ R)|].
    cbn [log opened trace heap tifs set_verbose next]. split; [apply last_snoc|]. split; reflexivity.
  - intros ps g' Hps Hg Ht. rewrite Hps, Hg in R.
    rewrite (setupBuffers_no_tiepoints sz name (next s0) f) in R.
    + eexists. split; [exact (main_exits_in_setup _ _ _ _ _ _ _ _ _ _ R)|].
      cbn [log opened trace heap tifs set_verbose next]. split; [apply last_snoc|].
      split; reflexivity.
    + cbn [opened tifs set_verbose next]. apply lookup_insert_eq.
    + exact Ht.
Qed.

Lemma malloc_refused (n : Z) (s : state) :
  granted s = false ->
  malloc n s = Ret NULL (log (EvMalloc n NULL) (set_mallocs (tail (mallocs s)) s)).
Proof. intros H. unfold malloc. rewrite H, andb_false_r. reflexivity. Qed.

(** The loop of lines 202-210 when the first [k] buffers are granted and
    the next one is refused: the run ends with status 13, naming buffer
    [i + k + 1]. *)
Lemma allocScanlines_refused (sz : Z) (k : nat) :
  forall (n i : nat) (s : state) (pb : nat) (blk : block) (rest : list bool),
    (k < n)%nat -> 0 <= sz ->
    mallocs s = replicate k true ++ false :: rest ->
    scanlines (DEM_Gtif s) = Ptr pb ->
    heap s !! pb = Some blk ->
    Z.of_nat (i + k + 1) * sz <= bsize blk ->
    0 <= scanlineSize (DEM_Gtif s) < 2 ^ 63 ->
    (pb < next s)%nat ->
    exists s',
      allocScanlines sz n (Z.of_nat i) AddrOf_DEM_Gtif s = Exit 13 s'
      /\ last (trace s') = Some (EvStderr (CannotAllocateScanline (Z.of_nat (i + k + 1))))
      /\ tifs s' = tifs s
      /\ (forall b, is_Some (heap s !! b) -> is_Some (heap s' !! b))
      /\ (forall j, (j < k)%nat -> is_Some (heap s' !! (next s + j)%nat)).
Proof.
  induction k as [|k IH]; intros n i s pb blk rest Hk Hsz Hm Hp Hblk Hcap Hsize Hlt;
    (destruct n as [|n]; [lia|]); cbn [allocScanlines].
  - unfold bind at 1. unfold deref at 1. unfold bind at 1.
    rewrite malloc_refused by (unfold granted; now rewrite Hm).
    unfold bind at 1. unfold store_ptr. rewrite Hp.
    cbn [log set_mallocs heap]. rewrite Hblk.
    replace (0 <=? Z.of_nat i) with true by (symmetry; apply Z.leb_le; lia).
    replace ((Z.of_nat i + 1) * sz <=? bsize blk) with true by (symmetry; apply Z.leb_le; nia).
    cbn [andb is_null]. unfold bind, eprint, emit, exit. eexists. split; [reflexivity|].
    cbn [log set_heap set_mallocs trace tifs heap].
    split; [rewrite last_snoc; do 3 f_equal; lia|]. split; [reflexivity|]. split.
    + intros b Hb. destruct (decide (b = pb)) as [-> | Hne].
      * rewrite lookup_insert_eq. eauto.
      * now rewrite lookup_insert_ne by congruence.
    + intros j Hj. lia.
  - unfold bind at 1. unfold deref at 1. unfold bind at 1.
    assert (Hg : granted s = true) by (unfold granted; now rewrite Hm).
    rewrite (malloc_ok _ _ Hsize Hg).
    unfold bind at 1. unfold store_ptr. rewrite Hp.
    cbn [log set_next set_heap set_mallocs heap].
    rewrite lookup_insert_ne by lia. rewrite Hblk.
    replace (0 <=? Z.of_nat i) with true by (symmetry; apply Z.leb_le; lia).
    replace ((Z.of_nat i + 1) * sz <=? bsize blk) with true by (symmetry; apply Z.leb_le; nia).
    cbn [andb is_null]. rewrite Nat2Z.id.
    replace (Z.of_nat i + 1) with (Z.of_nat (S i)) by lia.
    set (blk1 := {| bsize := bsize blk; bptrs := <[i := Ptr (next s)]> (bptrs blk);
                    bsamples := bsamples blk |}).
    set (s1 := set_heap _ _).
    destruct (IH n (S i) s1 pb blk1 rest) as (s' & Hrun & Hlast & Ht & Hmono & Hnew).
    + lia.
    + exact Hsz.
    + subst s1. cbn. now rewrite Hm.
    + exact Hp.
    + subst s1. cbn [set_heap heap]. apply lookup_insert_eq.
    + cbn [blk1 bsize]. replace (S i + k + 1)%nat with (i + S k + 1)%nat by lia. exact Hcap.
    + exact Hsize.
    + subst s1. cbn. lia.
    + exists s'. split; [exact Hrun|].
      split; [rewrite Hlast; do 3 f_equal; lia|]. split; [exact Ht|]. split.
      * intros b Hb. apply Hmono. subst s1. cbn [set_heap heap].
        destruct (decide (b = pb)) as [->|Hne]; [rewrite lookup_insert_eq; eauto|].
        rewrite lookup_insert_ne by congruence.
        destruct (decide (b = next s)) as [->|Hne']; [rewrite lookup_insert_eq; eauto|].
        now rewrite lookup_insert_ne by congruence.
      * intros j Hj. destruct j as [|j].
        -- rewrite Nat.add_0_r. apply Hmono. subst s1. cbn [set_heap heap].
           rewrite lookup_insert_ne by lia. rewrite lookup_insert_eq. eauto.
        -- replace (next s + S j)%nat with (next s1 + j)%nat by (subst s1; cbn; lia).
           apply Hnew. lia.
Qed.

(** The loop of lines 202-210 on a pool that is a null pointer. *)
Lemma allocScanlines_null (sz : Z) (n : nat) (i : Z) (s : state) :
  scanlines (DEM_Gtif s) = NULL ->
  allocScanlines sz (S n) i AddrOf_DEM_Gtif s = Undefined.
Proof.
  intros H. cbn [allocScanlines]. unfold bind at 1. unfold deref at 1.
  unfold bind at 1. unfold malloc. destruct (_ && _); unfold bind at 1;
    unfold store_ptr; now rewrite H.
Qed.

(** [setupBuffers] as far as the request for the pool. *)
Lemma setupBuffers_pool (sz : Z) (name : string) (h : nat) (f : TiffFile)
    (tp : list spec_float) (bytes : Z) (s1 : state) :
  let g' := DEM_Gtif s1 in
  tifs s1 !! h = Some f -> GTIFF_TIEPOINTS f = Some tp ->
  int_mul (scanlineSize g') (windowSize g') = Some bytes ->
  setupBuffers sz AddrOf_DEM_Gtif name (Ptr h) s1
  = match malloc bytes (set_DEM_Gtif (set_tiePoints tp g') s1) with
    | Ret pool s2 =>
        (allocScanlines sz (Z.to_nat (windowSize g')) 0 AddrOf_DEM_Gtif ;;;
         g <- deref AddrOf_DEM_Gtif ;;
         if negb (bitsPerSample g =? 16)
         then eprint (UnsupportedBitsPerSample (bitsPerSample g)) ;;; exit 11
         else
           v <- (fun s => Ret (verbose s) s) ;;
           when v
             (print (ParamValuesFrom name) ;;;
              print (SamplesAndBits (samplesPerPixel g) (bitsPerSample g)) ;;;
              print (Dimensions (width g) (height g) (scanlineSize g))) ;;;
           ret true)
          (set_DEM_Gtif (set_scanlines pool (DEM_Gtif s2)) s2)
    | Exit n s2 => Exit n s2
    | Undefined => Undefined
    end.
Proof.
  intros g' Hf Ht Hmul. unfold setupBuffers. unfold bind at 1. unfold TIFFGetField.
  rewrite Hf, Ht. unfold bind at 1. unfold assign at 1.
  unfold bind at 1. unfold deref at 1.
  cbn [DEM_Gtif set_DEM_Gtif scanlineSize windowSize set_tiePoints]. fold g'. rewrite Hmul.
  unfold bind at 1. destruct (malloc bytes _) as [pool s2 | n s2 |]; [|reflexivity|reflexivity].
  unfold bind at 1. unfold assign at 1. reflexivity.
Qed.

(** X8: allocation failures in setup.  When the pool and the first [k]
    scanline buffers are granted and the next buffer is refused, the run
    ends with status 13 and the diagnostic names buffer [k + 1]; the
    file is still open and the blocks obtained so far are still
    allocated.  The pool itself is not checked: when it is refused and
    the window is not empty, the first buffer address is stored through
    a null pointer. *)
Theorem allocation_failure (sz jw jh elapsed : Z) (name : string) (f : TiffFile) (b : Z)
    (ps tp : list spec_float) (g' : Gtif) (bytes : Z) (Lat Long : spec_float)
    (s0 : state) :
  files s0 name = Some f -> BITSPERSAMPLE f = Some b ->
  GTIFF_PIXELSCALE f = Some ps -> GTIFF_TIEPOINTS f = Some tp ->
  bufferGeometry
    (set_pixelSize ps (legacyScales jw jh (sessionWithTags (DEM_Gtif s0) (Ptr (next s0)) f b)))
  = Some g' ->
  int_mul (scanlineSize g') (windowSize g') = Some bytes ->
  0 <= scanlineSize g' -> 0 <= sz -> windowSize g' * sz <= bytes ->
  (forall (k : nat) rest,
      Z.of_nat k < windowSize g' ->
      mallocs s0 = true :: replicate k true ++ false :: rest ->
      exists s_end,
        main sz jw jh elapsed name Lat Long s0 = Exit 13 s_end
        /\ last (trace s_end) = Some (EvStderr (CannotAllocateScanline (Z.of_nat k + 1)))
        /\ tifs s_end = <[next s0 := f]> (tifs s0)
        /\ (forall j, (j <= k)%nat -> is_Some (heap s_end !! (S (next s0) + j)%nat)))
  /\ (forall rest,
        0 < windowSize g' -> mallocs s0 = false :: rest ->
        main sz jw jh elapsed name Lat Long s0 = Undefined).
Proof.
  intros Hf Hb Hps Htp Hg Hmul Hsize Hsz Hcap.
  pose proof (setupGtif_opened sz jw jh name f b (set_verbose true s0) Hf Hb) as R.
  cbn [set_verbose DEM_Gtif next] in R. rewrite Hps, Hg in R.
  assert (Hbytes : 0 < windowSize g' -> 0 <= bytes < 2 ^ 63 /\ scanlineSize g' < 2 ^ 63).
  { intros Hw. unfold int_mul in Hmul.
    destruct ((INT_MIN <=? scanlineSize g' * windowSize g')
              && (scanlineSize g' * windowSize g' <=? INT_MAX)) eqn:E; [|discriminate].
    injection Hmul as <-. apply andb_prop in E as [_ E]. apply Z.leb_le in E.
    unfold INT_MAX in E. split; [nia | nia]. }
  set (s1 := opened (set_verbose true s0) name f g') in *.
  assert (Hrun1 := setupBuffers_pool sz name (next s0) f tp bytes s1).
  cbv zeta in Hrun1. cbn [s1 opened DEM_Gtif tifs set_verbose] in Hrun1.
  specialize (Hrun1 (lookup_insert_eq _ _ _) Htp Hmul).
  split.
  - intros k rest Hk Hm. destruct Hbytes as [Hbytes Hs63]; [lia|].
    rewrite malloc_ok in Hrun1; [|exact Hbytes|unfold granted; cbn; now rewrite Hm].
    cbn [opened set_DEM_Gtif log set_next set_heap set_mallocs DEM_Gtif next mallocs
         heap set_verbose] in Hrun1.
    unfold bind at 1 in Hrun1.
    set (sC := set_DEM_Gtif _ _) in Hrun1.
    destruct (allocScanlines_refused sz k (Z.to_nat (windowSize g')) 0 sC (S (next s0))
                (fresh_block bytes) rest)
      as (s' & Ha & Hlast & Ht & Hmono & Hnew).
    + lia.
    + exact Hsz.
    + subst sC. cbn. now rewrite Hm.
    + reflexivity.
    + subst sC. cbn. apply lookup_insert_eq.
    + cbn [fresh_block bsize]. replace (Z.of_nat (0 + k + 1)) with (Z.of_nat k + 1) by lia.
      nia.
    + subst sC. cbn. lia.
    + subst sC. cbn. lia.
    + change (Z.of_nat 0) with 0 in Ha. rewrite Ha in Hrun1. rewrite Hrun1 in R.
      exists s'. split; [exact (main_exits_in_setup _ _ _ _ _ _ _ _ _ _ R)|].
      split; [rewrite Hlast; do 3 f_equal; lia|]. split; [rewrite Ht; reflexivity|].
      intros j Hj. destruct j as [|j].
      * rewrite Nat.add_0_r. apply Hmono. subst sC. cbn [set_DEM_Gtif log set_next set_heap heap].
        rewrite lookup_insert_eq. eauto.
      * replace (S (next s0) + S j)%nat with (next sC + j)%nat by (subst sC; cbn; lia).
        apply Hnew. lia.
  - intros rest Hw Hm.
    rewrite malloc_refused in Hrun1 by (unfold granted; cbn; now rewrite Hm).
    cbn [opened set_DEM_Gtif log set_next set_heap set_mallocs DEM_Gtif next mallocs
         heap set_verbose] in Hrun1.
    destruct (Z.to_nat (windowSize g')) as [|n] eqn:En; [lia|].
    unfold bind at 1 in Hrun1. rewrite allocScanlines_null in Hrun1 by reflexivity.
    rewrite Hrun1 in R. exact (main_undefined_in_setup _ _ _ _ _ _ _ _ R).
Qed.

End SetupFailures.

(** ** Boundary rows and columns, refused buffers, NaN *)

Module Edges.
Import Fp Machine Dem Examples Timing Properties Samples.
Import FpFacts Envelope Reader Frames Close Setup Window Runs Outcomes ResultLine
  Session TimeString Lookup SetupFailures.

(** X9: what the bounds of lines 83-90 let through.  A row equal to the
    height and a column equal to the width pass the check.  The read of
    row [height] then fails with status 11 when the raster has no such
    row, and the sample at column [width] lies beyond the scanline that
    was read. *)
Theorem boundary_pixels (s : state) (h : nat) (f : TiffFile) :
  tif (DEM_Gtif s) = Ptr h -> tifs s !! h = Some f ->
  0 <= scanlineSize (DEM_Gtif s) < 2 ^ 63 -> granted s = true ->
  0 <= height (DEM_Gtif s) < 2 ^ 32 -> 0 <= width (DEM_Gtif s) ->
  (forall PixelNo,
      0 <= PixelNo <= width (DEM_Gtif s) ->
      scanline f (height (DEM_Gtif s)) = None ->
      checkLinePixel (height (DEM_Gtif s)) PixelNo s = Ret tt s
      /\ fails_with (readDEMvalue AddrOf_DEM_Gtif (height (DEM_Gtif s)) PixelNo s) ScanlineReadError 11)
  /\ (forall LineNo l,
        0 <= LineNo <= height (DEM_Gtif s) ->
        scanline f LineNo = Some l -> Z.of_nat (length l) <= width (DEM_Gtif s) ->
        checkLinePixel LineNo (width (DEM_Gtif s)) s = Ret tt s
        /\ readDEMvalue AddrOf_DEM_Gtif LineNo (width (DEM_Gtif s)) s = Undefined).
Proof.
  set (g := DEM_Gtif s). intros Ht Hf Hsize Hgr Hh Hw.
  assert (Hcheck : forall l p, 0 <= l <= height g -> 0 <= p <= width g ->
                               checkLinePixel l p s = Ret tt s).
  { intros l p Hl Hp. rewrite checkLinePixel_run. unfold lineOutside, pixelOutside. fold g.
    replace (l <? 0) with false by (symmetry; apply Z.ltb_ge; lia).
    replace (l >? height g) with false by (rewrite Z.gtb_ltb; symmetry; apply Z.ltb_ge; lia).
    replace (p <? 0) with false by (symmetry; apply Z.ltb_ge; lia).
    replace (p >? width g) with false by (rewrite Z.gtb_ltb; symmetry; apply Z.ltb_ge; lia).
    reflexivity. }
  split.
  - intros PixelNo Hp Hnone. split; [apply Hcheck; lia|].
    rewrite (readDEMvalue_run (height g) PixelNo s h f Ht Hf Hsize Hgr).
    rewrite to_uint32_small by lia. rewrite Hnone.
    apply (fails_with_exit 11 _ FailedReadingScanline).
  - intros LineNo l Hl Hsl Hlen. split; [apply Hcheck; lia|].
    rewrite (readDEMvalue_run LineNo (width g) s h f Ht Hf Hsize Hgr).
    rewrite to_uint32_small by lia. rewrite Hsl. fold g.
    destruct (2 * Z.of_nat (length l) <=? scanlineSize g); [|reflexivity].
    destruct (0 <=? width g); [|reflexivity].
    rewrite (proj2 (lookup_ge_None l (Z.to_nat (width g)))) by lia. reflexivity.
Qed.

(** X10: the two buffers that are not checked.  [readDEMvalue] and
    [toTimeString] use what [malloc] returns as it is: when the
    allocation is refused, the scanline is read, or the text written,
    through a null pointer, and no diagnostic is written and no status
    returned. *)
Theorem unchecked_allocations (LineNo PixelNo d : Z) (s : state) :
  granted s = false ->
  readDEMvalue AddrOf_DEM_Gtif LineNo PixelNo s = Undefined
  /\ toTimeString d s = Undefined.
Proof.
  intros H. split.
  - unfold readDEMvalue. unfold bind at 1. unfold deref at 1.
    unfold bind at 1. rewrite (malloc_refused _ _ H). unfold bind at 1.
    unfold TIFFReadScanline. now destruct (tif (DEM_Gtif s)).
  - unfold toTimeString. cbv zeta. unfold bind at 1.
    rewrite (malloc_refused _ _ H). unfold bind at 1.
    now repeat case_match.
Qed.

(** X11: a NaN is not rejected.  Every comparison of lines 65 and 69 is
    false for a NaN, so a pair of coordinates with a NaN in it passes
    the range check whenever its other member does, and the conversion
    of the NaN to [int] on lines 80-81 is undefined, whatever the clock
    reports. *)
Theorem nan_not_rejected (Lat Long : spec_float) (g0 : Gtif) (s : state) :
  DEM_Gtif s = assumedBox g0 ->
  is_float Lat -> is_float Long ->
  Lat = S754_nan \/ Long = S754_nan ->
  ~ outsideBox (SF2X Lat) (SF2X Long) ->
  checkLatLong Lat Long s = Ret tt s
  /\ forall elapsed, lookupElevation elapsed Lat Long s = Undefined.
Proof.
  intros Hg HL HG Hnan Hin.
  destruct (inside_box Lat Long g0 HL HG Hin) as [Ho1 Ho2].
  assert (Hc : checkLatLong Lat Long s = Ret tt s)
    by now rewrite checkLatLong_run, Hg, Ho1, Ho2.
  split; [exact Hc|]. intros elapsed.
  unfold lookupElevation. unfold bind at 1. rewrite Hc.
  unfold bind at 1. unfold deref at 1. rewrite Hg.
  destruct Hnan as [-> | ->].
  - now rewrite calcLineNo_nan.
  - rewrite calcPixelNo_nan. now destruct (calcLineNo Lat (assumedBox g0)).
Qed.

End Edges.

(** ** Stage timers *)

Module Stages.
Import Fp Machine Dem Examples Timing Properties Samples.
Import FpFacts Envelope Reader Frames Close Setup Window Runs.

(** A difference of less than [2^53] seconds goes through [difftime]
    and the conversion to [long] unchanged. *)
Lemma long_of_difftime (t1 t0 : Z) :
  Z.abs (t1 - t0) < 2 ^ 53 -> long_of_double (difftime t1 t0) = Some (t1 - t0).
Proof.
  intros H. unfold difftime, double_of_Z. set (z := t1 - t0) in *.
  assert (Hz : z = z * 2 ^ 0) by (change (2 ^ 0) with 1; lia).
  destruct (binary_normalize_exact z 0 z 0 false Hz) as (_ & Hfin & Hval); try lia.
  assert (Hq : Qtrunc (SF2Q (binary_normalize 53 1024 z 0 false)) = z).
  { rewrite (Qtrunc_comp _ (inject_Z z)); [apply Qtrunc_inject|].
    rewrite Hval. unfold Qpow2. change (2 ^ 0)%Q with 1%Q. ring. }
  destruct (binary_normalize 53 1024 z 0 false) as [s | s | | s m e];
    cbn [is_finite] in Hfin; try discriminate.
  - cbn [SF2Q] in Hq. cbn [long_of_double]. f_equal. exact Hq.
  - cbn [long_of_double]. rewrite int_of_double_trunc, Hq.
    unfold LONG_MIN, LONG_MAX.
    replace ((- 2 ^ 63 <=? z) && (z <=? 2 ^ 63 - 1)) with true; [reflexivity|].
    symmetry. apply andb_true_iff. split; apply Z.leb_le; lia.
Qed.

Lemma getStageTime_run (c : timers) :
  Z.abs (time_at c (calls c) - prevTimer c) < 2 ^ 53 ->
  getStageTime c
  = Some (time_at c (calls c) - prevTimer c,
          {| time_at := time_at c; calls := S (calls c);
             prevTimer := time_at c (calls c) |}).
Proof.
  intros H. unfold getStageTime, time_NULL. cbn [prevTimer time_at calls].
  now rewrite long_of_difftime.
Qed.

Lemma stages_run (n : nat) (c : timers) :
  (forall k, (k < n)%nat -> Z.abs (time_at c (calls c + k) - before c k) < 2 ^ 53) ->
  exists ds c',
    stages n c = Some (ds, c')
    /\ length ds = n
    /\ (forall k, (k < n)%nat -> ds !! k = Some (time_at c (calls c + k) - before c k))
    /\ foldr Z.add 0 ds = before c n - prevTimer c
    /\ prevTimer c' = before c n
    /\ calls c' = (calls c + n)%nat
    /\ time_at c' = time_at c.
Proof.
  revert c. induction n as [|n IH]; intros c H.
  - exists [], c. cbn [stages before length foldr].
    split; [reflexivity|]. split; [reflexivity|]. split; [intros k Hk; lia|].
    split; [lia|]. split; [reflexivity|]. split; [lia | reflexivity].
  - pose proof (H 0%nat ltac:(lia)) as H0. cbn [before] in H0.
    rewrite Nat.add_0_r in H0.
    set (c1 := {| time_at := time_at c; calls := S (calls c);
                  prevTimer := time_at c (calls c) |}).
    destruct (IH c1) as (ds & c' & Hrun & Hlen & Hnth & Hsum & Hprev & Hcalls & Htime).
    { intros k Hk. pose proof (H (S k) ltac:(lia)) as Hk'. cbn [before] in Hk'.
      cbn [c1 time_at calls].
      replace (S (calls c) + k)%nat with (calls c + S k)%nat by lia.
      destruct k as [|j]; cbn [before c1 prevTimer time_at calls].
      - now rewrite Nat.add_0_r in Hk'.
      - now replace (S (calls c) + j)%nat with (calls c + S j)%nat by lia. }
    exists ((time_at c (calls c) - prevTimer c) :: ds), c'.
    cbn [stages]. rewrite (getStageTime_run c H0). fold c1. rewrite Hrun.
    split; [reflexivity|]. split; [cbn [length]; now rewrite Hlen|].
    split; [|split; [|split; [|split]]].
    + intros [|k] Hk.
      * cbn [before]. now rewrite Nat.add_0_r.
      * change ((time_at c (calls c) - prevTimer c :: ds) !! S k) with (ds !! k).
        rewrite (Hnth k ltac:(lia)). cbn [c1 time_at calls].
        replace (S (calls c) + k)%nat with (calls c + S k)%nat by lia.
        destruct k as [|j]; cbn [before c1 prevTimer time_at calls].
        -- now rewrite Nat.add_0_r.
        -- now replace (S (calls c) + j)%nat with (calls c + S j)%nat by lia.
    + cbn [foldr]. rewrite Hsum. cbn [before c1 prevTimer].
      destruct n as [|j]; cbn [before c1 prevTimer time_at calls].
      * rewrite Nat.add_0_r. lia.
      * replace (S (calls c) + j)%nat with (calls c + S j)%nat by lia. lia.
    + rewrite Hprev. destruct n as [|j]; cbn [before c1 prevTimer time_at calls].
      * now rewrite Nat.add_0_r.
      * now replace (S (calls c) + j)%nat with (calls c + S j)%nat by lia.
    + rewrite Hcalls. cbn [c1 calls]. lia.
    + rewrite Htime. reflexivity.
Qed.

(** X14: stage times add up.  After [setCPUTimer], as long as two
    successive readings of the clock are less than [2^53] seconds apart,
    every call of [getStageTime] returns the seconds since the previous
    reading, whether the clock went forward or back, and the durations
    of [n] stages add up to the time between the first reading and the
    last. *)
Theorem stage_times (c : timers) (n : nat) :
  (forall k, (k < n)%nat ->
             Z.abs (time_at c (calls c + S k) - time_at c (calls c + k)) < 2 ^ 53) ->
  exists ds c',
    stages n (setCPUTimer c) = Some (ds, c')
    /\ length ds = n
    /\ (forall k, (k < n)%nat ->
                  ds !! k = Some (time_at c (calls c + S k) - time_at c (calls c + k)))
    /\ foldr Z.add 0 ds = time_at c (calls c + n) - time_at c (calls c)
    /\ prevTimer c' = time_at c (calls c + n).
Proof.
  intros H.
  set (c0 := setCPUTimer c).
  assert (Hb : forall k, before c0 k = time_at c (calls c + k)).
  { intros [|j]; cbn [before c0 setCPUTimer time_NULL prevTimer time_at calls].
    - now rewrite Nat.add_0_r.
    - f_equal. lia. }
  assert (Ht : forall k, time_at c0 (calls c0 + k) = time_at c (calls c + S k)).
  { intros k. cbn [c0 setCPUTimer time_NULL time_at calls]. f_equal. lia. }
  destruct (stages_run n c0) as (ds & c' & Hrun & Hlen & Hnth & Hsum & Hprev & _).
  { intros k Hk. rewrite Hb, Ht. now apply H. }
  exists ds, c'. split; [exact Hrun|]. split; [exact Hlen|].
  split; [|split].
  - intros k Hk. rewrite (Hnth k Hk). now rewrite Hb, Ht.
  - rewrite Hsum, Hb. reflexivity.
  - rewrite Hprev. apply Hb.
Qed.

End Stages.

(** ** More runs on the sample rasters *)

Module MoreRuns.
Import Fp Machine Dem Examples Timing Properties Samples.
Import FpFacts Envelope Reader Frames Close Setup Window Runs Outcomes ResultLine
  Session TimeString Lookup SetupFailures Edges Stages.

Lemma sample_run_eq :
  sample_run = Exit 0 (final_state sample_run boot).
Proof. vm_compute. reflexivity. Qed.

Lemma inside_48_157 : ~ outsideBox (SF2X (float_of_Z (-48))) (SF2X (float_of_Z 157)).
Proof. intros [H | [H | [H | H]]]; vm_compute in H; discriminate H. Qed.

(** X2 on the sample raster, the clock reporting five seconds. *)
Lemma result_iff_success_witness :
  printed_result (trace (final_state sample_run boot)).
Proof.
  destruct (result_iff_success 8 800 800 5 "dem.tif" (float_of_Z (-13)) (float_of_Z 118)
              boot (final_state sample_run boot) 0) as [[H _] _].
  - intros (l & p & v & H). cbn in H. now apply not_elem_of_nil in H.
  - exact sample_run_eq.
  - exact (H eq_refl).
Defined.

(** X3 on the sample raster: one scanline of 100 bytes in the window. *)
Lemma setupGtif_success_witness :
  exists s3,
    setupGtif 8 800 800 AddrOf_DEM_Gtif (Some "dem.tif") (set_verbose true boot) = Ret true s3
    /\ open_session s3 1 [2%nat] 0
    /\ scanlineSize (DEM_Gtif s3) = 100 /\ windowSize (DEM_Gtif s3) = 1.
Proof.
  destruct (setupGtif_success 8 800 800 "dem.tif" dem16 16 50 40
              [double_of_Z 1; double_of_Z 1; double_of_Z 0] [] (set_verbose true boot))
    as (s3 & H1 & H2 & _ & _ & _ & H3 & H4 & _);
    try reflexivity; try lia; try (unfold INT_MAX; lia); try (vm_compute; discriminate).
  exists s3. split; [exact H1|]. split; [exact H2|]. split; [exact H3 | exact H4].
Defined.

(** X4 on the sample raster: 1234 at row 5, column 10; block 3 holds
    the time string. *)
Lemma timed_lookup_witness :
  main 8 800 800 0 "dem.tif" (float_of_Z (-13)) (float_of_Z 118) boot = Undefined
  /\ exists s_end,
       main 8 800 800 5 "dem.tif" (float_of_Z (-13)) (float_of_Z 118) boot
       = Exit 0 s_end
       /\ EvStdout (DemValue 5 10 1234) ∈ trace s_end
       /\ tifs s_end = ∅
       /\ heap s_end = {[ 3%nat := fresh_block 10 ]}.
Proof.
  split.
  - destruct (timed_lookup 8 800 800 0 "dem.tif" disk zeroed dem16 16 50 40
                [double_of_Z 1; double_of_Z 1; double_of_Z 0] []
                (float_of_Z (-13)) (float_of_Z 118)
                (<[10%nat := 1234]> (replicate 50 0)) 1234) as [H _];
      [solve [reflexivity | lia | unfold INT_MAX; lia | vm_compute; discriminate
             | discriminate | exact inside_13_118] .. | exact (H eq_refl)].
  - destruct (timed_lookup 8 800 800 5 "dem.tif" disk zeroed dem16 16 50 40
                [double_of_Z 1; double_of_Z 1; double_of_Z 0] []
                (float_of_Z (-13)) (float_of_Z 118)
                (<[10%nat := 1234]> (replicate 50 0)) 1234) as [_ H];
      [solve [reflexivity | lia | unfold INT_MAX; lia | vm_compute; discriminate
             | discriminate | exact inside_13_118] .. |].
    destruct (H ltac:(lia)) as (s_end & H1 & H2 & H3 & H4).
    exists s_end. split; [exact H1|]. split; [exact H2|]. split; [exact H3 | exact H4].
Defined.

(** X5 at the south-east corner of the box: row 40, column 49. *)
Lemma box_grid_witness :
  calcLineNo (float_of_Z (-48)) (assumedBox (DEM_Gtif ready)) = Some 40
  /\ calcPixelNo (float_of_Z 157) (assumedBox (DEM_Gtif ready)) = Some 49
  /\ checkLinePixel 40 49 located = Ret tt located.
Proof.
  destruct (box_grid (float_of_Z (-48)) (float_of_Z 157) (DEM_Gtif ready))
    as (H1 & H2 & _ & _ & H3).
  - reflexivity.
  - reflexivity.
  - discriminate.
  - discriminate.
  - exact inside_48_157.
  - split; [exact H1|]. split; [exact H2|].
    apply (H3 ltac:(vm_compute; discriminate) ltac:(vm_compute; discriminate) located).
    reflexivity.
Defined.

(** X7 on the 8-bit raster without GeoTIFF tags, and on the 16-bit
    raster without tie points. *)
Lemma missing_geotiff_tag_witness :
  (exists s_end,
      main 8 800 800 0 "plain8.tif" (float_of_Z (-13)) (float_of_Z 118) boot = Exit 11 s_end
      /\ last (trace s_end) = Some (EvStderr CannotExtractPixelSize)
      /\ heap s_end = ∅ /\ tifs s_end = {[ 0%nat := plain8 ]})
  /\ (exists s_end,
        main 8 800 800 0 "untied.tif" (float_of_Z (-13)) (float_of_Z 118) untied_boot
        = Exit 11 s_end
        /\ last (trace s_end) = Some (EvStderr CannotExtractTiePoints)
        /\ heap s_end = ∅ /\ tifs s_end = {[ 0%nat := untied16 ]}).
Proof.
  split.
  - destruct (missing_geotiff_tag 8 800 800 0 "plain8.tif" plain8 8
                (float_of_Z (-13)) (float_of_Z 118) boot) as [H _].
    + reflexivity.
    + reflexivity.
    + destruct (H eq_refl) as (s_end & H1 & H2 & H3 & H4).
      exists s_end. split; [exact H1|]. split; [exact H2|]. split; [exact H3 | exact H4].
  - destruct (missing_geotiff_tag 8 800 800 0 "untied.tif" untied16 16
                (float_of_Z (-13)) (float_of_Z 118) untied_boot) as [_ H].
    + reflexivity.
    + reflexivity.
    + set (g' := default zeroed
                   (bufferGeometry
                      (set_pixelSize [double_of_Z 1; double_of_Z 1; double_of_Z 0]
                         (legacyScales 800 800
                            (sessionWithTags (DEM_Gtif untied_boot)
                               (Ptr (next untied_boot)) untied16 16))))).
      destruct (H [double_of_Z 1; double_of_Z 1; double_of_Z 0] g')
        as (s_end & H1 & H2 & H3 & H4).
      * reflexivity.
      * vm_compute. reflexivity.
      * reflexivity.
      * exists s_end. split; [exact H1|]. split; [exact H2|]. split; [exact H3 | exact H4].
Defined.

(** X8 when the pool is granted and the first scanline buffer refused. *)
Lemma allocation_failure_witness :
  exists s_end,
    main 8 800 800 0 "dem.tif" (float_of_Z (-13)) (float_of_Z 118) scarce = Exit 13 s_end
    /\ last (trace s_end) = Some (EvStderr (CannotAllocateScanline 1))
    /\ tifs s_end = {[ 0%nat := dem16 ]}
    /\ is_Some (heap s_end !! 1%nat).
Proof.
  set (g' := default zeroed
                (bufferGeometry
                   (set_pixelSize [double_of_Z 1; double_of_Z 1; double_of_Z 0]
                      (legacyScales 800 800
                         (sessionWithTags (DEM_Gtif scarce) (Ptr (next scarce)) dem16 16))))).
  destruct (allocation_failure 8 800 800 0 "dem.tif" dem16 16
              [double_of_Z 1; double_of_Z 1; double_of_Z 0] [] g' 100
              (float_of_Z (-13)) (float_of_Z 118) scarce) as [H _].
  - reflexivity.
  - reflexivity.
  - reflexivity.
  - reflexivity.
  - vm_compute. reflexivity.
  - vm_compute. reflexivity.
  - vm_compute. discriminate.
  - lia.
  - vm_compute. discriminate.
  - destruct (H 0%nat []) as (s_end & H1 & H2 & H3 & H4).
    + vm_compute. reflexivity.
    + reflexivity.
    + exists s_end. split; [exact H1|]. split; [exact H2|]. split; [exact H3|].
      exact (H4 0%nat (le_n 0)).
Defined.

(** X9 on the sample session: row 40 of 40 rows, column 50 of 50 columns. *)
Lemma boundary_pixels_witness :
  (checkLinePixel 40 10 ready = Ret tt ready
   /\ fails_with (readDEMvalue AddrOf_DEM_Gtif 40 10 ready) ScanlineReadError 11)
  /\ (checkLinePixel 5 50 ready = Ret tt ready
      /\ readDEMvalue AddrOf_DEM_Gtif 5 50 ready = Undefined).
Proof.
  destruct (boundary_pixels ready 0%nat dem16) as [H1 H2].
  - reflexivity.
  - reflexivity.
  - vm_compute. split; [discriminate | reflexivity].
  - reflexivity.
  - vm_compute. split; [discriminate | reflexivity].
  - vm_compute. discriminate.
  - split.
    + apply (H1 10); [vm_compute; split; discriminate | reflexivity].
    + apply (H2 5 (<[10%nat := 1234]> (replicate 50 0)));
        [vm_compute; split; discriminate | reflexivity | vm_compute; discriminate].
Defined.

(** X10 on the sample session when the allocation is refused. *)
Lemma unchecked_allocations_witness :
  readDEMvalue AddrOf_DEM_Gtif 5 10 starved = Undefined
  /\ toTimeString 5 starved = Undefined.
Proof. apply (unchecked_allocations 5 10 5 starved). reflexivity. Defined.

(** X11 for a latitude that is not a number. *)
Lemma nan_not_rejected_witness :
  checkLatLong S754_nan (float_of_Z 118) located = Ret tt located
  /\ lookupElevation 5 S754_nan (float_of_Z 118) located = Undefined.
Proof.
  destruct (nan_not_rejected S754_nan (float_of_Z 118) (DEM_Gtif ready) located)
    as (H1 & H2).
  - reflexivity.
  - reflexivity.
  - reflexivity.
  - left. reflexivity.
  - exact inside_nan_118.
  - split; [exact H1 | exact (H2 5)].
Defined.

(** X12 for one hour, two minutes and five seconds. *)
Lemma toTimeString_text_witness :
  toTimeString 3725 boot
  = Ret (Ptr 0, "1h:2m:5s") (final_state (toTimeString 3725 boot) boot)
  /\ heap (final_state (toTimeString 3725 boot) boot) = {[ 0%nat := fresh_block 10 ]}.
Proof.
  assert (E : toTimeString 3725 boot
              = Ret (Ptr 0, "1h:2m:5s") (final_state (toTimeString 3725 boot) boot))
    by (vm_compute; reflexivity).
  destruct (toTimeString_text 3725 boot (final_state (toTimeString 3725 boot) boot)
              (Ptr 0) "1h:2m:5s") as (_ & _ & _ & _ & _ & H).
  - lia.
  - reflexivity.
  - exact E.
  - split; [exact E | exact H].
Defined.

(** X13: a duration of zero overruns, one of ten hours does not. *)
Lemma toTimeString_overrun_witness :
  toTimeString 0 boot = Undefined /\ toTimeString 36000 boot <> Undefined.
Proof.
  split.
  - apply (toTimeString_overrun 0 boot); [lia | reflexivity | left; reflexivity].
  - intros H. apply (toTimeString_overrun 36000 boot) in H; [|lia|reflexivity].
    vm_compute in H. 
    destruct H as [H | [[[_ H] _] | [[_ [H | H]] | H]]];
      try discriminate H; try (apply H; reflexivity).
Defined.

(** X14 on a clock that gains three seconds a reading: three stages of
    three seconds, nine seconds in all. *)
Lemma stage_times_witness :
  exists ds c',
    stages 3 (setCPUTimer ticking) = Some (ds, c')
    /\ ds !! 0%nat = Some 3
    /\ foldr Z.add 0 ds = 9.
Proof.
  destruct (stage_times ticking 3) as (ds & c' & H1 & _ & H2 & H3 & _).
  - intros k Hk. cbn [ticking time_at calls]. lia.
  - exists ds, c'. split; [exact H1|]. split; [exact (H2 0%nat ltac:(lia)) | exact H3].
Defined.

End MoreRuns.
